(** * Rain-gauge completeness dashboard: the sampling-and-metric pipeline

    A shallow embedding of [Home.py]: the stratified station sampler, the
    wide-to-long normalisation of the monthly records, the per station-year
    gap and completeness metrics ([processar_dados_complexos]) and the
    five-seed stability test ([executar_teste_estabilidade]).

    Conventions of the embedding:
    - a pandas frame is a header plus typed rows; a column is read only
      after the header has been checked for it, as pandas raises [KeyError]
      on a label that is absent;
    - float64 columns are exact rationals ([Q]); [NaN]/[NaT] are [None]. The
      one product whose float64 rounding decides how many stations are
      drawn, [frac * group_size], is rounded to binary64 as the interpreter
      does ([binary64], [sample_size]); sums, means and the two-decimal
      rounding are exact, so a displayed value whose exact counterpart is
      at a tie in the third decimal, or within float error of one, can
      differ from the page in its last digit;
    - the pseudo-random generator of numpy is a parameter: a state type, the
      seeding function and [choice] without replacement;
    - the interpreter state that matters is the process-wide numpy generator
      and a ghost trace of the draws made, threaded explicitly. *)

From Stdlib Require Import ZArith QArith Qround Qabs Qpower List String Ascii.
From Stdlib Require Import Bool.
From Stdlib Require Import Lia Lqa Permutation Sorted Decimal DecimalString.
Import ListNotations.

Local Open Scope Z_scope.

(** ** Numbers *)

(** Python's [round(x)] and numpy's [rint]: nearest integer, ties to even. *)
Definition round_half_even (x : Q) : Z :=
  let f := Qfloor x in
  match (x - inject_Z f ?= 1 # 2)%Q with
  | Lt => f
  | Gt => f + 1
  | Eq => if Z.even f then f else f + 1
  end.

(** The binary64 number nearest to a rational, ties to the even
    significand: [floor (log2 x)] selects the binade, the significand is
    rounded to 53 bits. The exponent range is not bounded: the values
    rounded here are products of a fraction and a group size, far from
    overflow and underflow. *)
Definition ilog2 (x : Q) : Z :=
  let k := Z.log2 (Qnum x) - Z.log2 (Z.pos (Qden x)) in
  if Qle_bool (2 ^ k) x then k else k - 1.

Definition binary64_pos (x : Q) : Q :=
  let e := ilog2 x - 52 in
  (inject_Z (round_half_even (x / 2 ^ e)) * 2 ^ e)%Q.

Definition binary64 (x : Q) : Q :=
  match Qnum x with
  | Z0 => 0%Q
  | Zpos _ => binary64_pos x
  | Zneg _ => (- binary64_pos (- x))%Q
  end.

(** [Series.round(2)]: scale by 100, round to the nearest integer, scale
    back; taken on the exact value of the cell. *)
Definition round2 (x : Q) : Q := Qmake (round_half_even (x * 100)%Q) 100.

Definition Qsum (l : list Q) : Q := fold_right Qplus 0%Q l.

(** [Series.mean()] skips missing values by construction of its argument;
    the mean of no value at all is [NaN]. *)
Definition Qmean (l : list Q) : option Q :=
  match l with
  | [] => None
  | _ => Some (Qsum l / inject_Z (Z.of_nat (List.length l)))%Q
  end.

(** [max] and [min] aggregations over the values present. *)
Definition Zmax_list (l : list Z) : option Z :=
  match l with
  | [] => None
  | x :: t => Some (fold_left Z.max t x)
  end.

Definition Zmin_list (l : list Z) : option Z :=
  match l with
  | [] => None
  | x :: t => Some (fold_left Z.min t x)
  end.

(** [fillna(0)] on one cell. *)
Definition fillna0 (x : option Q) : Q :=
  match x with Some q => q | None => 0%Q end.

(** ** Calendar *)

Definition get_dias_ano (ano : Z) : Z :=
  if ((ano mod 4 =? 0) && negb (ano mod 100 =? 0)) || (ano mod 400 =? 0)
  then 366 else 365.

Definition get_dias_ano_teste (ano : Z) : Z :=
  if ((ano mod 4 =? 0) && negb (ano mod 100 =? 0)) || (ano mod 400 =? 0)
  then 366 else 365.

(** The rule in the words of the specification: divisible by 4 and (not
    divisible by 100, or divisible by 400). *)
Definition days_in_year_spec (year : Z) : Z :=
  if (year mod 4 =? 0) && (negb (year mod 100 =? 0) || (year mod 400 =? 0))
  then 366 else 365.

(** The Gregorian calendar behind [pd.to_datetime]. *)
Definition is_leap (y : Z) : bool :=
  ((y mod 4 =? 0) && negb (y mod 100 =? 0)) || (y mod 400 =? 0).

Definition days_in_month (y m : Z) : Z :=
  match m with
  | 1 | 3 | 5 | 7 | 8 | 10 | 12 => 31
  | 4 | 6 | 9 | 11 => 30
  | 2 => if is_leap y then 29 else 28
  | _ => 0
  end.

Definition valid_date (y m d : Z) : bool :=
  (1 <=? m) && (m <=? 12) && (1 <=? d) && (d <=? days_in_month y m).

Definition months_before (m : Z) : list Z :=
  map Z.of_nat (seq 1 (Z.to_nat (m - 1))).

Definition days_before_month (y m : Z) : Z :=
  fold_right Z.add 0 (map (days_in_month y) (months_before m)).

Definition days_before_year (y : Z) : Z :=
  365 * (y - 1) + (y - 1) / 4 - (y - 1) / 100 + (y - 1) / 400.

(** Days since 1970-01-01 (the proleptic ordinal of that day is 719163). *)
Definition days_from_civil (y m d : Z) : Z :=
  days_before_year y + days_before_month y m + d - 719163.

(** The days of a year as (month, day) pairs. *)
Definition month_days (y m : Z) : list (Z * Z) :=
  map (fun d => (m, Z.of_nat d)) (seq 1 (Z.to_nat (days_in_month y m))).

Definition year_days (y : Z) : list (Z * Z) :=
  flat_map (month_days y) (map Z.of_nat (seq 1 12)).

(** ** Strings and column labels *)

Local Open Scope string_scope.

(** [str.replace(pat, '')] with a literal pattern: every occurrence of
    [pat] is removed, scanning left to right. [skip] counts the characters
    of a match still to be dropped. *)
Fixpoint remove_all_from (pat : string) (skip : nat) (s : string) : string :=
  match s with
  | EmptyString => EmptyString
  | String c t =>
      match skip with
      | S k => remove_all_from pat k t
      | O =>
          if (0 <? String.length pat)%nat && String.prefix pat s
          then remove_all_from pat (String.length pat - 1) t
          else String c (remove_all_from pat 0 t)
      end
  end.

Definition str_replace_empty (pat s : string) : string :=
  remove_all_from pat 0 s.

Definition string_of_nat (n : nat) : string :=
  NilZero.string_of_uint (Nat.to_uint n).

(** The format [{i:02d}]. *)
Definition fmt_02d (i : nat) : string :=
  if (i <? 10)%nat then "0" ++ string_of_nat i else string_of_nat i.

(** [astype(int)] on a string of digits; [None] stands for the
    [ValueError] of a malformed literal. *)
Definition int_of_string (s : string) : option Z :=
  match s with
  | EmptyString => None
  | _ =>
      match NilEmpty.uint_of_string s with
      | Some u => Some (Z.of_nat (Nat.of_uint u))
      | None => None
      end
  end.

Definition chuva_col (i : nat) : string := "Chuva" ++ fmt_02d i.

(** [[f'Chuva{i:02d}' for i in range(1, 32)]], with the day index kept
    beside each label. *)
Definition colunas_chuva : list (nat * string) :=
  map (fun i => (i, chuva_col i)) (seq 1 31).

Definition in_columns (c : string) (cols : list string) : bool :=
  existsb (String.eqb c) cols.

Local Close Scope string_scope.

(** ** Frames *)

(** One monthly record of the input table. [Chuva] holds the daily
    readings, [Chuva01] first; an empty cell is [None]. *)
Record Row := mkRow {
  estado : string;
  EstacaoCodigo : Z;
  Ano : Z;
  Mes : Z;
  Chuva : list (option Q)
}.

Record DataFrame := mkDataFrame {
  columns : list string;
  rows : list Row
}.

(** A row of [estacoes_unicas] and [estacoes_sorteadas]. *)
Definition Station : Type := (string * Z)%type.

(** Cell of the column [Chuva{i:02d}] in a record. *)
Definition chuva_value (r : Row) (i : nat) : option Q :=
  match nth_error (Chuva r) (i - 1) with
  | Some v => v
  | None => None
  end.

(** A row of the melted frame. [m_estado] is [None] where [estado] is not
    among the [id_vars] (the stability test). *)
Record Melted := mkMelted {
  m_EstacaoCodigo : Z;
  m_estado : option string;
  m_Ano : Z;
  m_Mes : Z;
  Dia_str : string;
  Valor : option Q
}.

(** The melted frame once [Dia] and [Data_Real] are attached; the date is
    [option Z] while [NaT] is possible and [Z] after the [dropna]. *)
Record Daily (D : Type) := mkDaily {
  melted : Melted;
  Dia : Z;
  Data_Real : D
}.
Arguments mkDaily {D} _ _ _.
Arguments melted {D} _.
Arguments Dia {D} _.
Arguments Data_Real {D} _.

Definition Obs : Type := Daily Z.

(** The three gap aggregates of a station-year. *)
Record Intervalos := mkIntervalos {
  Intervalo_Max : Q;
  Intervalo_Medio : Q;
  Intervalo_Min : Q
}.

(** A row of the table returned by [processar_dados_complexos]
    ([colunas_finais]); a float cell may be missing. *)
Record FinalRow := mkFinalRow {
  f_EstacaoCodigo : Z;
  f_estado : option string;
  f_Ano : Z;
  Completude : Q;
  f_Intervalo_Max : option Q;
  f_Intervalo_Medio : option Q;
  dias_com_dados : nat
}.

(** A row of the table returned by [executar_teste_estabilidade]. *)
Record Resultado := mkResultado {
  Random_State : Z;
  Media_Completude : option Q
}.

(** *** Generic frame operations *)

(** [drop_duplicates(subset=...)], keeping the first row of each key.
    [seen] holds the keys met so far. *)
Fixpoint drop_duplicates_from {A K : Type} (eqb : K -> K -> bool)
    (key : A -> K) (seen : list K) (l : list A) : list A :=
  match l with
  | [] => []
  | a :: t =>
      if existsb (eqb (key a)) seen
      then drop_duplicates_from eqb key seen t
      else a :: drop_duplicates_from eqb key (key a :: seen) t
  end.

Definition drop_duplicates {A K : Type} (eqb : K -> K -> bool)
    (key : A -> K) (l : list A) : list A :=
  drop_duplicates_from eqb key [] l.

Fixpoint insert_sorted {A : Type} (leb : A -> A -> bool) (x : A)
    (l : list A) : list A :=
  match l with
  | [] => [x]
  | y :: t => if leb x y then x :: l else y :: insert_sorted leb x t
  end.

(** [sort_values]: ascending by the key order. *)
Definition sort_by {A : Type} (leb : A -> A -> bool) (l : list A) : list A :=
  fold_right (insert_sorted leb) [] l.

(** [groupby(key)]: the distinct keys in ascending order, each with its
    rows in frame order. *)
Definition groupby {A K : Type} (eqb leb : K -> K -> bool) (key : A -> K)
    (l : list A) : list (K * list A) :=
  map (fun k => (k, filter (fun a => eqb (key a) k) l))
      (sort_by leb (drop_duplicates eqb (fun k => k) (map key l))).

Definition pair_eqb (a b : Z * Z) : bool :=
  (fst a =? fst b)%Z && (snd a =? snd b)%Z.

Definition pair_leb (a b : Z * Z) : bool :=
  (fst a <? fst b)%Z || ((fst a =? fst b)%Z && (snd a <=? snd b)%Z).

Definition triple_eqb (a b : Z * Z * Z) : bool :=
  pair_eqb (fst a) (fst b) && (snd a =? snd b)%Z.

Definition station_eqb (a b : Station) : bool :=
  String.eqb (fst a) (fst b) && (snd a =? snd b)%Z.

(** [Series.isin]. *)
Definition isin (x : Z) (l : list Z) : bool := existsb (Z.eqb x) l.

(** Positional [take]. *)
Definition take_rows {A : Type} (l : list A) (idx : list nat) : list A :=
  flat_map (fun i => match nth_error l i with Some a => [a] | None => [] end)
           idx.

(** [groupby(...).diff()] inside one group: the first row has no
    predecessor. *)
Fixpoint diff_from (prev : Z) (l : list Z) : list (option Z) :=
  match l with
  | [] => []
  | x :: t => Some (x - prev)%Z :: diff_from x t
  end.

Definition diff (l : list Z) : list (option Z) :=
  match l with
  | [] => []
  | x :: t => None :: diff_from x t
  end.

(** The values present in a column. *)
Definition present {A : Type} (l : list (option A)) : list A :=
  flat_map (fun o => match o with Some a => [a] | None => [] end) l.

(** [agg(Intervalo_Max='max', Intervalo_Medio='mean', Intervalo_Min='min')]
    on the gap column of one group, before [fillna]. *)
Definition agg_gap (gap : list (option Z))
  : option Q * option Q * option Q :=
  (option_map inject_Z (Zmax_list (present gap)),
   Qmean (map inject_Z (present gap)),
   option_map inject_Z (Zmin_list (present gap))).

(** The key columns of the two de-duplications and of the grouping. *)
Definition chave_mes (r : Row) : Z * Z * Z := (EstacaoCodigo r, Ano r, Mes r).
Definition chave_dia (o : Obs) : Z * Z :=
  (m_EstacaoCodigo (melted o), Data_Real o).
Definition chave_ano {D : Type} (o : Daily D) : Z * Z :=
  (m_EstacaoCodigo (melted o), m_Ano (melted o)).

(** ** Effects *)

Inductive error : Type :=
| KeyError (labels : list string)
| ValueError (msg : string).

Inductive result (A : Type) : Type :=
| Ok (a : A)
| Err (e : error).
Arguments Ok {A} _.
Arguments Err {A} _.

(** One call of [choice]: [Draw n k] takes [k] positions out of [n]. *)
Inductive event : Type :=
| Draw (n k : nat).

(** A concrete generator for the examples: a linear congruential state and
    a selection that repeatedly removes the position [state mod length]. *)
Definition lcg_next (g : Z) : Z := (1103515245 * g + 12345) mod 2147483648.

Fixpoint remove_nth {A : Type} (i : nat) (l : list A) : list A :=
  match l, i with
  | [], _ => []
  | _ :: t, O => t
  | x :: t, S j => x :: remove_nth j t
  end.

Fixpoint lcg_pick (k : nat) (g : Z) (pool : list nat) : list nat * Z :=
  match k with
  | O => ([], g)
  | S k' =>
      let i := Z.to_nat (g mod Z.of_nat (List.length pool)) in
      match nth_error pool i with
      | Some x =>
          let (rest, g') := lcg_pick k' (lcg_next g) (remove_nth i pool) in
          (x :: rest, g')
      | None => ([], g)
      end
  end.

Definition lcg_choice (g : Z) (n k : nat) : list nat * Z :=
  lcg_pick k g (seq 0 n).

(** Midnight timestamps that fit the nanosecond resolution:
    1677-09-22 to 2262-04-11. *)
Definition ns_bounds (days : Z) : bool :=
  (-106751 <=? days)%Z && (days <=? 106751)%Z.

(** ** The pipeline *)

Section Pipeline.

(** numpy's generator: its state, [RandomState(seed)] and
    [choice(n, size=k, replace=False)]. *)
Variable rng : Type.
Variable RandomState : Z -> rng.
Variable choice : rng -> nat -> nat -> list nat * rng.

(** Day numbers that the timestamp type of the pandas build can hold. *)
Variable representable : Z -> bool.

(** The process-wide generator [np.random] and the draws made so far. *)
Record World := mkWorld {
  np_random : rng;
  trace : list event
}.

Definition M (A : Type) : Type := World -> result A * World.

Definition ret {A : Type} (a : A) : M A := fun w => (Ok a, w).

Definition raise {A : Type} (e : error) : M A := fun w => (Err e, w).

Definition bind {A B : Type} (m : M A) (k : A -> M B) : M B :=
  fun w =>
    match m w with
    | (Ok a, w') => k a w'
    | (Err e, w') => (Err e, w')
    end.

Notation "x <- m ;; k" := (bind m (fun x => k))
  (at level 61, m at next level, right associativity).

(** Selecting columns by label: [KeyError] names the absent ones. The list
    stands for the set of absent labels, in the order of the request; the
    text of the message, which [drop_duplicates] builds from a Python set,
    is not part of the model. *)
Definition require (labels cols : list string) : M unit :=
  match filter (fun c => negb (in_columns c cols)) labels with
  | [] => ret tt
  | missing => raise (KeyError missing)
  end.

(** *** Sampler *)

(** [frac * group_size] as the interpreter computes it. [frac] is the
    value of the float that the function receives; the size becomes a
    float, which is exact up to 2^53, and the product is rounded to
    binary64. A frame with more than 2^53 rows does not exist; there the
    model keeps the product as it is. *)
Definition float_product (frac : Q) (group_size : nat) : Q :=
  let x := (frac * inject_Z (Z.of_nat group_size))%Q in
  if (Z.of_nat group_size <=? 2 ^ 53)%Z then binary64 x else x.

(** [round(frac * group_size)]: Python's [round] of the float product. *)
Definition sample_size (frac : Q) (group_size : nat) : nat :=
  Z.to_nat (round_half_even (float_product frac group_size)).

(** The loop of [DataFrameGroupBy.sample] over the groups, one generator
    for all of them. *)
Fixpoint sample_groups (frac : Q) (groups : list (string * list Station))
    (g : rng) : list Station * list event * rng :=
  match groups with
  | [] => ([], [], g)
  | (_, grp) :: rest =>
      let n := List.length grp in
      let k := sample_size frac n in
      let (idx, g') := choice g n k in
      let '(sel, evs, g'') := sample_groups frac rest g' in
      (take_rows grp idx ++ sel, Draw n k :: evs, g'')
  end.

Definition process_sampling_size (frac : Q) : M unit :=
  if negb (Qle_bool frac 1) then
    raise (ValueError
      "Replace has to be set to `True` when upsampling the population `frac` > 1.")
  else if negb (Qle_bool 0 frac) then
    raise (ValueError
      "A negative number of rows requested. Please provide `frac` >= 0.")
  else ret tt.

(** [frame.groupby('estado').sample(frac=frac, random_state=random_state)].
    An integer [random_state] builds a private generator; [None] would use
    and advance [np.random]. An empty frame is returned as it is. *)
Definition groupby_sample (frame : list Station) (frac : Q)
    (random_state : option Z) : M (list Station) :=
  match frame with
  | [] => ret []
  | _ =>
      _ <- process_sampling_size frac ;;
      fun w =>
        let g0 := match random_state with
                  | Some seed => RandomState seed
                  | None => np_random w
                  end in
        let '(sel, evs, g1) :=
          sample_groups frac (groupby String.eqb String.leb fst frame) g0 in
        (Ok sel,
         mkWorld (match random_state with
                  | Some _ => np_random w
                  | None => g1
                  end)
                 (trace w ++ evs))
  end.

(** [df_input[['estado', 'EstacaoCodigo']].drop_duplicates()]. *)
Definition estacoes_unicas (df_input : DataFrame) : list Station :=
  drop_duplicates station_eqb (fun s => s)
    (map (fun r => (estado r, EstacaoCodigo r)) (rows df_input)).

(** Lines 76-77 and 249-250. *)
Definition estacoes_sorteadas (df_input : DataFrame) (sample_frac : Q)
    (seed : Z) : M (list Station) :=
  _ <- require ["estado"; "EstacaoCodigo"]%string (columns df_input) ;;
  groupby_sample (estacoes_unicas df_input) sample_frac (Some seed).

(** *** Record normalisation *)

(** [df_input[df_input['EstacaoCodigo'].isin(...)].copy()]. *)
Definition df_amostra (df_input : DataFrame) (sorteadas : list Station)
  : list Row :=
  filter (fun r => isin (EstacaoCodigo r) (map snd sorteadas))
         (rows df_input).

(** [drop_duplicates(subset=['EstacaoCodigo', 'Ano', 'Mes'])]; an empty
    frame is copied without looking at the labels. *)
Definition blindagem_mes (cols : list string) (amostra : list Row)
  : M (list Row) :=
  match amostra with
  | [] => ret []
  | _ =>
      _ <- require ["EstacaoCodigo"; "Ano"; "Mes"]%string cols ;;
      ret (drop_duplicates triple_eqb chave_mes amostra)
  end.

Definition colunas_existentes (cols : list string) : list (nat * string) :=
  filter (fun c => in_columns (snd c) cols) colunas_chuva.

(** The rows that [melt] builds: one block per value column, in column
    order. *)
Definition melt_rows (id_vars : list string)
    (value_vars : list (nat * string)) (amostra : list Row) : list Melted :=
  flat_map
    (fun c =>
       map (fun r =>
              mkMelted (EstacaoCodigo r)
                       (if in_columns "estado" id_vars
                        then Some (estado r) else None)
                       (Ano r) (Mes r) (snd c) (chuva_value r (fst c)))
           amostra)
    value_vars.

(** [DataFrame.melt(id_vars, value_vars, var_name='Dia_str',
    value_name='Valor')]: pandas (2.0 and later) first refuses a frame that
    already has a column named as [value_name], then looks the [id_vars]
    up. *)
Definition melt (id_vars cols : list string) (value_vars : list (nat * string))
    (amostra : list Row) : M (list Melted) :=
  if in_columns "Valor" cols then
    raise (ValueError
      "value_name (Valor) cannot match an element in the DataFrame columns.")
  else
    _ <- require id_vars cols ;;
    ret (melt_rows id_vars value_vars amostra).

(** [dropna(subset=['Valor'])]. *)
Definition dropna_Valor (l : list Melted) : list Melted :=
  filter (fun m => match Valor m with Some _ => true | None => false end) l.

(** [df_melted['Dia_str'].str.replace('Chuva', '').astype(int)]. *)
Fixpoint com_Dia (l : list Melted) : M (list (Melted * Z)) :=
  match l with
  | [] => ret []
  | m :: t =>
      match int_of_string (str_replace_empty "Chuva" (Dia_str m)) with
      | Some d => rest <- com_Dia t ;; ret ((m, d) :: rest)
      | None => raise (ValueError "invalid literal for int() with base 10")
      end
  end.

(** [pd.to_datetime(dict(year=, month=, day=), errors='coerce')] on one
    row: [NaT] for a day that does not exist or does not fit. *)
Definition to_datetime (y m d : Z) : option Z :=
  if valid_date y m d && representable (days_from_civil y m d)
  then Some (days_from_civil y m d) else None.

Definition com_Data_Real (l : list (Melted * Z)) : list (Daily (option Z)) :=
  map (fun p => mkDaily (fst p) (snd p)
                  (to_datetime (m_Ano (fst p)) (m_Mes (fst p)) (snd p))) l.

(** [dropna(subset=['Data_Real'])]. *)
Definition dropna_Data_Real (l : list (Daily (option Z))) : list Obs :=
  flat_map (fun o => match Data_Real o with
                     | Some d => [mkDaily (melted o) (Dia o) d]
                     | None => []
                     end) l.

(** Lines 88-111 and 259-280: from the month-deduplicated sample to the
    daily rows with a valid date. *)
Definition melt_com_datas (id_vars cols : list string) (amostra : list Row)
  : M (list Obs) :=
  df_melted <- melt id_vars cols (colunas_existentes cols) amostra ;;
  com_dia <- com_Dia (dropna_Valor df_melted) ;;
  ret (dropna_Data_Real (com_Data_Real com_dia)).

Definition ordem_dia (a b : Obs) : bool := pair_leb (chave_dia a) (chave_dia b).

(** Lines 80-119: the sorted daily rows and the two counts of rows
    removed as duplicates. *)
Definition normalizar (df_input : DataFrame) (sorteadas : list Station)
  : M (list Obs * nat * nat) :=
  let amostra := df_amostra df_input sorteadas in
  let linhas_antes := List.length amostra in
  amostra <- blindagem_mes (columns df_input) amostra ;;
  let duplicatas_mes := (linhas_antes - List.length amostra)%nat in
  df_melted <- melt_com_datas ["EstacaoCodigo"; "estado"; "Ano"; "Mes"]%string
                 (columns df_input) amostra ;;
  let len_antes_dia := List.length df_melted in
  let df_melted := drop_duplicates pair_eqb chave_dia df_melted in
  let duplicatas_dia := (len_antes_dia - List.length df_melted)%nat in
  ret (sort_by ordem_dia df_melted, duplicatas_mes, duplicatas_dia).

(** *** Metric aggregation *)

(** [df_melted.groupby(['EstacaoCodigo', 'Ano'])]. *)
Definition grupos (df_melted : list Obs) : list (Z * Z * list Obs) :=
  groupby pair_eqb pair_leb chave_ano df_melted.

(** [grupos['Data_Real'].diff().dt.days] inside one group. *)
Definition gap (grupo : list Obs) : list (option Z) :=
  diff (map Data_Real grupo).

(** The row of one group in [grupos['gap'].agg(...).fillna(0)]. *)
Definition intervalos_do_grupo (grupo : list Obs) : Intervalos :=
  let '(mx, md, mn) := agg_gap (gap grupo) in
  mkIntervalos (fillna0 mx) (fillna0 md) (fillna0 mn).

Definition resumo_intervalos (gs : list (Z * Z * list Obs))
  : list (Z * Z * Intervalos) :=
  map (fun kg => (fst kg, intervalos_do_grupo (snd kg))) gs.

(** [grupos.size().to_frame(name='dias_com_dados')]. *)
Definition contagem_dias (gs : list (Z * Z * list Obs)) : list (Z * Z * nat) :=
  map (fun kg => (fst kg, List.length (snd kg))) gs.

(** [contagem_dias.join(resumo_intervalos)]: a left join on the index; a
    key absent on the right leaves the interval columns missing. *)
Definition join (contagem : list (Z * Z * nat))
    (resumo : list (Z * Z * Intervalos))
  : list (Z * Z * nat * option Intervalos) :=
  map (fun kn =>
         (kn, option_map snd
                (find (fun p => pair_eqb (fst p) (fst kn)) resumo)))
      contagem.

(** [df_final.merge(estacoes_sorteadas, on='EstacaoCodigo', how='left')]:
    one output row per matching station row, or one with a missing
    [estado] when there is none. *)
Definition merge_estado (df_final : list (Z * Z * nat * option Intervalos))
    (sorteadas : list Station)
  : list (Z * Z * nat * option Intervalos * option string) :=
  flat_map
    (fun l =>
       match filter (fun s => (snd s =? fst (fst (fst l)))%Z) sorteadas with
       | [] => [(l, None)]
       | ms => map (fun s => (l, Some (fst s))) ms
       end)
    df_final.

(** Lines 147-154: completeness, the two roundings and the final
    columns. *)
Definition finalizar (r : Z * Z * nat * option Intervalos * option string)
  : FinalRow :=
  let '(key, dias, intervalos, est) := r in
  let total_dias_ano := get_dias_ano (snd key) in
  let completude :=
    (inject_Z (Z.of_nat dias) / inject_Z total_dias_ano * 100)%Q in
  mkFinalRow (fst key) est (snd key)
             (round2 completude)
             (option_map Intervalo_Max intervalos)
             (option_map (fun i => round2 (Intervalo_Medio i)) intervalos)
             dias.

(** Lines 122-154. *)
Definition agregar (df_melted : list Obs) (sorteadas : list Station)
  : list FinalRow :=
  let gs := grupos df_melted in
  let df_final := join (contagem_dias gs) (resumo_intervalos gs) in
  map finalizar (merge_estado df_final sorteadas).

Definition msg_duplicatas_mes (n : nat) : string :=
  ("Linhas removidas (duplicatas de mês): " ++ string_of_nat n)%string.

Definition msg_duplicatas_dia (n : nat) : string :=
  ("Registros diários removidos (duplicatas reais): "
     ++ string_of_nat n)%string.

Definition processar_dados_complexos (df_input : DataFrame) (sample_frac : Q)
  : M (list FinalRow * string * string) :=
  sorteadas <- estacoes_sorteadas df_input sample_frac 42 ;;
  norm <- normalizar df_input sorteadas ;;
  let '(df_melted, duplicatas_mes, duplicatas_dia) := norm in
  ret (agregar df_melted sorteadas,
       msg_duplicatas_mes duplicatas_mes,
       msg_duplicatas_dia duplicatas_dia).

(** *** Stability test *)

Definition seeds_para_testar : list Z := [42; 1; 100; 2024; 999].

(** A row of [df_resumo]. *)
Record ResumoRow := mkResumoRow {
  r_EstacaoCodigo : Z;
  r_Ano : Z;
  r_dias_com_dados : nat;
  r_total_dias_ano : Z;
  r_Completude : Q
}.

(** Lines 249-291: the station-year rows of one seed. *)
Definition df_resumo (df_input : DataFrame) (sample_frac : Q) (seed : Z)
  : M (list ResumoRow) :=
  sorteadas <- estacoes_sorteadas df_input sample_frac seed ;;
  amostra <- blindagem_mes (columns df_input)
               (df_amostra df_input sorteadas) ;;
  df_melted <- melt_com_datas ["EstacaoCodigo"; "Ano"; "Mes"]%string
                 (columns df_input) amostra ;;
  let df_melted := drop_duplicates pair_eqb chave_dia df_melted in
  ret (map (fun kg =>
              let dias := List.length (snd kg) in
              let total := get_dias_ano_teste (snd (fst kg)) in
              mkResumoRow (fst (fst kg)) (snd (fst kg)) dias total
                (inject_Z (Z.of_nat dias) / inject_Z total * 100)%Q)
           (groupby pair_eqb pair_leb chave_ano df_melted)).

(** The body of the loop: one seed, one appended result. *)
Definition iteracao (df_input : DataFrame) (sample_frac : Q) (seed : Z)
  : M Resultado :=
  resumo <- df_resumo df_input sample_frac seed ;;
  let media_geral := Qmean (map r_Completude resumo) in
  ret (mkResultado seed media_geral).

Fixpoint laco (df_input : DataFrame) (sample_frac : Q) (seeds : list Z)
    (resultados_temp : list Resultado) : M (list Resultado) :=
  match seeds with
  | [] => ret resultados_temp
  | seed :: rest =>
      r <- iteracao df_input sample_frac seed ;;
      laco df_input sample_frac rest (resultados_temp ++ [r])
  end.

Definition executar_teste_estabilidade (df_input : DataFrame)
    (sample_frac : Q) : M (list Resultado) :=
  laco df_input sample_frac seeds_para_testar [].

End Pipeline.

Arguments mkWorld {rng} _ _.
Arguments np_random {rng} _.
Arguments trace {rng} _.

(** ** Predicates used in the statements *)

(** The contract of [choice(n, size=k, replace=False)] for [k <= n]:
    [k] distinct positions below [n]. *)
Definition choice_spec {rng : Type}
    (choice : rng -> nat -> nat -> list nat * rng) : Prop :=
  forall g n k, (k <= n)%nat ->
    List.length (fst (choice g n k)) = k /\
    NoDup (fst (choice g n k)) /\
    Forall (fun i => (i < n)%nat) (fst (choice g n k)).

(** A computation that reads nothing of the world: its result is fixed,
    [np.random] is left as it was and the trace only grows. *)
Definition stable {rng A : Type} (m : M rng A) : Prop :=
  exists (r : result A) (evs : list event),
    forall w, m w = (r, mkWorld (np_random w) (trace w ++ evs)).

Definition colunas_obrigatorias : list string :=
  ["EstacaoCodigo"; "estado"; "Ano"; "Mes"]%string.

Definition has_columns (labels : list string) (df : DataFrame) : bool :=
  forallb (fun c => in_columns c (columns df)) labels.

(** A daily row carries the date that its year, month and day make. *)
Definition data_valida (representable : Z -> bool) (o : Obs) : Prop :=
  to_datetime representable (m_Ano (melted o)) (m_Mes (melted o)) (Dia o)
  = Some (Data_Real o).

(** Stations of one region. *)
Definition da_regiao (R : string) (l : list Station) : list Station :=
  filter (fun s => String.eqb (fst s) R) l.

(** Every group holds distinct stations of its own region. *)
Definition groups_ok (gs : list (string * list Station)) : Prop :=
  forall k g, In (k, g) gs -> NoDup g /\ forall s, In s g -> fst s = k.

(** A row of [df_resumo]: the length of its year and the percentage
    before any rounding. *)
Definition linha_resumo_ok (row : ResumoRow) : Prop :=
  r_total_dias_ano row = get_dias_ano_teste (r_Ano row) /\
  r_Completude row =
    (inject_Z (Z.of_nat (r_dias_com_dados row))
     / inject_Z (r_total_dias_ano row) * 100)%Q.

(** What one result of the stability test says about its seed: the
    station-year rows of that seed do not depend on the state the run
    starts from, and the result holds their plain mean. *)
Definition resultado_da_seed {rng : Type} (RandomState : Z -> rng)
    (choice : rng -> nat -> nat -> list nat * rng)
    (representable : Z -> bool) (df : DataFrame) (frac : Q)
    (r : Resultado) : Prop :=
  exists resumo,
    (forall w0,
       fst (df_resumo rng RandomState choice representable df frac
              (Random_State r) w0) = Ok resumo) /\
    Media_Completude r = Qmean (map r_Completude resumo) /\
    Forall linha_resumo_ok resumo.

(** ** Example data *)

Definition exemplo_colunas : list string :=
  ["EstacaoCodigo"; "estado"; "Ano"; "Mes";
   "Chuva01"; "Chuva02"; "Chuva03"; "Chuva31"]%string.

Definition exemplo_linhas : list Row :=
  [mkRow "SP" 10 2024 2 [Some 1%Q; None; Some 0%Q];
   mkRow "SP" 10 2024 3 [Some 1%Q; Some 2%Q; Some 0%Q];
   mkRow "SP" 11 2024 3 [Some 1%Q; Some 2%Q; Some 0%Q];
   mkRow "RJ" 12 2023 4 [Some 1%Q];
   mkRow "SP" 10 2024 3 [Some 5%Q; Some 2%Q; Some 0%Q]].

Definition exemplo_df : DataFrame := mkDataFrame exemplo_colunas exemplo_linhas.

(** A table without the column [Ano]: the field is not in the header and
    holds nothing. *)
Definition exemplo_sem_Ano : DataFrame :=
  mkDataFrame ["EstacaoCodigo"; "estado"; "Mes"; "Chuva01"]%string
    [mkRow "SP" 10 0 2 [Some 1%Q];
     mkRow "SP" 11 0 3 [Some 1%Q];
     mkRow "RJ" 12 0 4 [Some 1%Q]].

(** The example table with one more column, named [Valor]. *)
Definition exemplo_com_Valor : DataFrame :=
  mkDataFrame (exemplo_colunas ++ ["Valor"%string]) exemplo_linhas.

(** A table with the header only. *)
Definition exemplo_vazio : DataFrame := mkDataFrame exemplo_colunas [].

(** Daily rows of two station-years: three days of station 10 in 2024 and
    one day of station 12 in 2023. *)
Definition exemplo_obs : list Obs :=
  [mkDaily (mkMelted 10 (Some "SP"%string) 2024 2 "Chuva01" (Some 1%Q))
           1 (days_from_civil 2024 2 1);
   mkDaily (mkMelted 10 (Some "SP"%string) 2024 2 "Chuva03" (Some 0%Q))
           3 (days_from_civil 2024 2 3);
   mkDaily (mkMelted 10 (Some "SP"%string) 2024 3 "Chuva01" (Some 1%Q))
           1 (days_from_civil 2024 3 1);
   mkDaily (mkMelted 12 (Some "RJ"%string) 2023 4 "Chuva01" (Some 1%Q))
           1 (days_from_civil 2023 4 1)].

Definition mundo0 : World Z := mkWorld 7 [].

Definition lcg_seed (seed : Z) : Z := seed mod 2147483648.

(** ** The tables around the pipeline *)

(** A row of [df_estado] (table 1). *)
Record EstadoRow := mkEstadoRow {
  e_estado : string;
  qtd_estacao : nat;
  pct_estacao : Q
}.

(** [Series.nunique()]. *)
Definition nunique (l : list Z) : nat :=
  List.length (drop_duplicates Z.eqb (fun x => x) l).

(** Lines 62-64: the stations of each state and their share of the
    total. [groupby('estado')] and then the selection of
    [EstacaoCodigo] raise [KeyError] on an absent label. *)
Definition df_estado (df : DataFrame) : result (list EstadoRow) :=
  if negb (in_columns "estado" (columns df)) then
    Err (KeyError ["estado"%string])
  else if negb (in_columns "EstacaoCodigo" (columns df)) then
    Err (KeyError ["EstacaoCodigo"%string])
  else
    let contagem :=
      map (fun kg => (fst kg, nunique (map EstacaoCodigo (snd kg))))
          (groupby String.eqb String.leb estado (rows df)) in
    let total := fold_right Nat.add 0%nat (map snd contagem) in
    Ok (map (fun kn =>
               mkEstadoRow (fst kn) (snd kn)
                 (round2 (inject_Z (Z.of_nat (snd kn))
                          / inject_Z (Z.of_nat total) * 100)%Q))
            contagem).

(** [Series.max()] and [Series.min()] over the values present. *)
Definition Qmax_list (l : list Q) : option Q :=
  match l with
  | [] => None
  | x :: t => Some (fold_left (fun a b => if Qle_bool a b then b else a) t x)
  end.

Definition Qmin_list (l : list Q) : option Q :=
  match l with
  | [] => None
  | x :: t => Some (fold_left (fun a b => if Qle_bool a b then a else b) t x)
  end.

(** Line 310: the spread of the five means; [NaN] when no mean is there. *)
Definition amplitude (df_comparacao : list Resultado) : option Q :=
  let medias := present (map Media_Completude df_comparacao) in
  match Qmax_list medias, Qmin_list medias with
  | Some mx, Some mn => Some (mx - mn)%Q
  | _, _ => None
  end.

(** The two messages of lines 315-318. *)
Inductive conclusao : Type :=
| MuitoEstavel
| HaVariabilidade.

(** [if amplitude < 1.0]; a comparison with [NaN] is false. *)
Definition conclusao_do_teste (amp : option Q) : conclusao :=
  match amp with
  | Some a => if negb (Qle_bool 1 a) then MuitoEstavel else HaVariabilidade
  | None => HaVariabilidade
  end.

(** Line 177: [sorted(df_final['Ano'].unique())]. *)
Definition anos_disponiveis (df_final : list FinalRow) : list Z :=
  sort_by Z.leb (drop_duplicates Z.eqb (fun a => a) (map f_Ano df_final)).

(** Line 181: the years preselected in the filter. *)
Definition anos_padrao (anos : list Z) : list Z :=
  filter (fun ano => isin ano anos) [2021; 2022; 2023; 2024].

(** Line 185. *)
Definition df_filtrado (df_final : list FinalRow)
    (anos_selecionados : list Z) : list FinalRow :=
  filter (fun m => isin (f_Ano m) anos_selecionados) df_final.



(** A melted row as the stability test builds it: its [melt] has no
    [estado] among the [id_vars]. *)
Definition sem_estado (m : Melted) : Melted :=
  mkMelted (m_EstacaoCodigo m) None (m_Ano m) (m_Mes m) (Dia_str m) (Valor m).

Definition obs_sem_estado (o : Obs) : Obs :=
  mkDaily (sem_estado (melted o)) (Dia o) (Data_Real o).

(** The three columns that [df_final] and [df_resumo] share. *)
Definition linha_final (m : FinalRow) : Z * Z * nat :=
  (f_EstacaoCodigo m, f_Ano m, dias_com_dados m).

Definition linha_resumo (r : ResumoRow) : Z * Z * nat :=
  (r_EstacaoCodigo r, r_Ano r, r_dias_com_dados r).

(** Line 45: the slider runs from 1 to 100 and its value over 100, a float
    division, is the fraction passed to the two functions. *)
Definition porcentagem_amostra (slider : Z) : Q :=
  binary64 (inject_Z slider / 100).

(** * Calendar *)

Lemma get_dias_ano_spec (ano : Z) : get_dias_ano ano = days_in_year_spec ano.
Proof.
  unfold get_dias_ano, days_in_year_spec.
  destruct (Z.eqb_spec (ano mod 4) 0), (Z.eqb_spec (ano mod 100) 0),
    (Z.eqb_spec (ano mod 400) 0); simpl; try reflexivity; exfalso;
    Z.div_mod_to_equations; lia.
Qed.

(** C9. [get_dias_ano] is total and answers 366 exactly for the years
    divisible by 4 and (not divisible by 100, or divisible by 400), and
    365 for all others; so 2000 and 2024 have 366 days, 1900 and 2023 have
    365. The copy used by the stability test is the same function. *)
Theorem get_dias_ano_leap_rule (ano : Z) :
  get_dias_ano ano = days_in_year_spec ano /\
  (get_dias_ano ano = 366 <->
     (4 | ano) /\ (~ (100 | ano) \/ (400 | ano))) /\
  (get_dias_ano ano = 365 <->
     ~ ((4 | ano) /\ (~ (100 | ano) \/ (400 | ano)))) /\
  get_dias_ano_teste ano = get_dias_ano ano /\
  get_dias_ano 2000 = 366 /\ get_dias_ano 1900 = 365 /\
  get_dias_ano 2024 = 366 /\ get_dias_ano 2023 = 365.
Proof.
  split; [apply get_dias_ano_spec|].
  rewrite get_dias_ano_spec. unfold days_in_year_spec, get_dias_ano_teste.
  rewrite <- !(Z.mod_divide ano) by lia.
  repeat split; try reflexivity;
  destruct (Z.eqb_spec (ano mod 4) 0), (Z.eqb_spec (ano mod 100) 0),
    (Z.eqb_spec (ano mod 400) 0); simpl; try tauto; try discriminate;
    try (Z.div_mod_to_equations; lia);
    try (intuition (try discriminate; Z.div_mod_to_equations; lia)).
Qed.

Lemma length_year_days (y : Z) :
  Z.of_nat (List.length (year_days y)) = get_dias_ano y.
Proof.
  unfold year_days, get_dias_ano. fold (is_leap y).
  replace (map Z.of_nat (seq 1 12)) with [1;2;3;4;5;6;7;8;9;10;11;12]
    by reflexivity.
  cbn [flat_map]. unfold month_days.
  rewrite !length_app, !length_map, !length_seq. unfold days_in_month.
  destruct (is_leap y); reflexivity.
Qed.

Lemma valid_date_year_days (y m d : Z) :
  valid_date y m d = true -> In (m, d) (year_days y).
Proof.
  unfold valid_date. rewrite !andb_true_iff, !Z.leb_le.
  intros [[[Hm1 Hm2] Hd1] Hd2].
  unfold year_days. apply in_flat_map. exists m. split.
  - apply in_map_iff. exists (Z.to_nat m). split; [lia|]. apply in_seq. lia.
  - unfold month_days. apply in_map_iff. exists (Z.to_nat d). split.
    + f_equal. lia.
    + apply in_seq. lia.
Qed.

(** * Rounding *)

Lemma round_half_even_cases (x : Q) :
  round_half_even x = Qfloor x \/ round_half_even x = Qfloor x + 1.
Proof.
  unfold round_half_even.
  destruct (x - inject_Z (Qfloor x) ?= 1 # 2)%Q; auto.
  destruct (Z.even (Qfloor x)); auto.
Qed.

Lemma round_half_even_bound (x : Q) :
  (x - (1 # 2) <= inject_Z (round_half_even x) <= x + (1 # 2))%Q.
Proof.
  pose proof (Qfloor_le x) as Hlo. pose proof (Qlt_floor x) as Hhi.
  rewrite inject_Z_plus in Hhi. change (inject_Z 1) with 1%Q in Hhi.
  unfold round_half_even.
  destruct (Qcompare_spec (x - inject_Z (Qfloor x)) (1 # 2)) as [He | Hl | Hg].
  - destruct (Z.even (Qfloor x));
      [|rewrite inject_Z_plus; change (inject_Z 1) with 1%Q]; lra.
  - lra.
  - rewrite inject_Z_plus. change (inject_Z 1) with 1%Q. lra.
Qed.

Lemma round_half_even_nonneg (x : Q) : (0 <= x)%Q -> 0 <= round_half_even x.
Proof.
  intros Hx. apply Qfloor_resp_le in Hx. change (Qfloor 0) with 0 in Hx.
  destruct (round_half_even_cases x) as [-> | ->]; lia.
Qed.

Lemma round_half_even_le (x : Q) (n : Z) :
  (x <= inject_Z n)%Q -> round_half_even x <= n.
Proof.
  intros Hx. destruct (round_half_even_bound x) as [_ Hr].
  destruct (Z_le_gt_dec (round_half_even x) n) as [|Hgt]; [assumption|].
  exfalso. assert (H : n + 1 <= round_half_even x) by lia.
  rewrite Zle_Qle, inject_Z_plus in H. change (inject_Z 1) with 1%Q in H. lra.
Qed.

Lemma round_half_even_int (x : Q) (n : Z) :
  (x == inject_Z n)%Q -> round_half_even x = n.
Proof.
  intros Hx. destruct (round_half_even_bound x) as [Hlo Hhi].
  destruct (Z_lt_le_dec (round_half_even x) n) as [Hlt | Hge].
  - exfalso. assert (H : round_half_even x + 1 <= n) by lia.
    rewrite Zle_Qle, inject_Z_plus in H. change (inject_Z 1) with 1%Q in H.
    lra.
  - destruct (Z_le_gt_dec (round_half_even x) n) as [Hle | Hgt]; [lia|].
    exfalso. assert (H : n + 1 <= round_half_even x) by lia.
    rewrite Zle_Qle, inject_Z_plus in H. change (inject_Z 1) with 1%Q in H.
    lra.
Qed.

Lemma round_half_even_half (x : Q) :
  (0 <= x <= 1 # 2)%Q -> round_half_even x = 0.
Proof.
  intros [H0 H1].
  assert (Hf : Qfloor x = 0).
  { pose proof (Qfloor_resp_le _ _ H0) as Ha.
    pose proof (Qfloor_resp_le _ _ H1) as Hb.
    change (Qfloor 0) with 0 in Ha. change (Qfloor (1 # 2)) with 0 in Hb.
    lia. }
  unfold round_half_even. rewrite Hf. change (inject_Z 0) with 0%Q.
  destruct (Qcompare_spec (x - 0) (1 # 2)) as [He | Hl | Hg];
    [reflexivity | reflexivity | exfalso; lra].
Qed.

Lemma round2_nonneg (x : Q) : (0 <= x)%Q -> (0 <= round2 x)%Q.
Proof.
  intros Hx. unfold round2, Qle. simpl.
  assert (0 <= round_half_even (x * 100))
    by (apply round_half_even_nonneg; lra).
  lia.
Qed.


Lemma round2_close (x : Q) : (Qabs (round2 x - x) <= 1 # 200)%Q.
Proof.
  destruct (round_half_even_bound (x * 100)) as [Hlo Hhi].
  assert (Hr : (round2 x == inject_Z (round_half_even (x * 100)) / 100)%Q).
  { unfold round2, Qeq, Qdiv, Qmult, Qinv, inject_Z. simpl. lia. }
  apply Qabs_Qle_condition. rewrite Hr.
  set (r := inject_Z (round_half_even (x * 100))) in *.
  assert (Hd : (r / 100 == r * (1 # 100))%Q) by (field).
  rewrite Hd. split; lra.
Qed.

(** * Rounding to binary64 *)

Lemma round_half_even_ge (x : Q) (n : Z) :
  (inject_Z n <= x)%Q -> n <= round_half_even x.
Proof.
  intros Hx. destruct (round_half_even_bound x) as [Hr _].
  destruct (Z_le_gt_dec n (round_half_even x)) as [|Hgt]; [assumption|].
  exfalso. assert (H : round_half_even x + 1 <= n) by lia.
  rewrite Zle_Qle, inject_Z_plus in H. change (inject_Z 1) with 1%Q in H. lra.
Qed.

Lemma round_half_even_mono (x y : Q) :
  (x <= y)%Q -> round_half_even x <= round_half_even y.
Proof.
  intros Hxy. pose proof (Qfloor_resp_le _ _ Hxy) as Hf.
  destruct (Z.eq_dec (Qfloor x) (Qfloor y)) as [E | NE].
  - unfold round_half_even. rewrite <- E.
    destruct (Qcompare_spec (x - inject_Z (Qfloor x)) (1 # 2)) as [He | Hl | Hg];
    destruct (Qcompare_spec (y - inject_Z (Qfloor x)) (1 # 2)) as [He' | Hl' | Hg'];
      try destruct (Z.even (Qfloor x)); try lia; exfalso; lra.
  - destruct (round_half_even_cases x) as [-> | ->];
    destruct (round_half_even_cases y) as [-> | ->]; lia.
Qed.

Lemma pow2_pos (e : Z) : (0 < 2 ^ e)%Q.
Proof. apply Qpower_0_lt. reflexivity. Qed.

Lemma pow2_succ (e : Z) : (2 ^ (e + 1) == 2 * 2 ^ e)%Q.
Proof. rewrite Qpower_plus by discriminate. rewrite Qpower_1_r. ring. Qed.

Lemma pow2_pred (e : Z) : (2 ^ (e - 1) == 2 ^ e / 2)%Q.
Proof. rewrite Qpower_minus by discriminate. now rewrite Qpower_1_r. Qed.

Lemma pow2_inject (n : Z) : 0 <= n -> (2 ^ n == inject_Z (2 ^ n))%Q.
Proof. intros H. now rewrite (Zpower_Qpower 2 n H). Qed.

Lemma ilog2_spec (x : Q) :
  (0 < x)%Q -> (2 ^ ilog2 x <= x < 2 ^ (ilog2 x + 1))%Q.
Proof.
  intros Hx. unfold ilog2.
  set (a := Qnum x). set (b := Z.pos (Qden x)).
  assert (Ha : 0 < a) by (unfold a; destruct x as [n d]; unfold Qlt in Hx; simpl in *; lia).
  assert (Hb : 0 < b) by (unfold b; lia).
  destruct (Z.log2_spec a Ha) as [Ha1 Ha2].
  destruct (Z.log2_spec b Hb) as [Hb1 Hb2].
  pose proof (Z.log2_nonneg a) as Hla. pose proof (Z.log2_nonneg b) as Hlb.
  set (la := Z.log2 a) in *. set (lb := Z.log2 b) in *.
  assert (HA : (2 ^ la <= inject_Z a < 2 * 2 ^ la)%Q).
  { rewrite (pow2_inject la Hla). split.
    - now rewrite <- Zle_Qle.
    - change 2%Q with (inject_Z 2). rewrite <- inject_Z_mult, <- Zlt_Qlt.
      replace (Z.succ la) with (la + 1) in Ha2 by lia.
      rewrite Z.pow_add_r in Ha2 by lia. lia. }
  assert (HB : (2 ^ lb <= inject_Z b < 2 * 2 ^ lb)%Q).
  { rewrite (pow2_inject lb Hlb). split.
    - now rewrite <- Zle_Qle.
    - change 2%Q with (inject_Z 2). rewrite <- inject_Z_mult, <- Zlt_Qlt.
      replace (Z.succ lb) with (lb + 1) in Hb2 by lia.
      rewrite Z.pow_add_r in Hb2 by lia. lia. }
  assert (Hxab : (x * inject_Z b == inject_Z a)%Q).
  { unfold a, b. destruct x as [n d]. unfold Qeq, Qmult, inject_Z. simpl. lia. }
  pose proof (pow2_pos la) as HpA. pose proof (pow2_pos lb) as HpB.
  assert (Hk : (2 ^ (la - lb) == 2 ^ la / 2 ^ lb)%Q)
    by (apply Qpower_minus; discriminate).
  assert (Hup : (x < 2 * (2 ^ la / 2 ^ lb))%Q).
  { assert (H1 : (x * 2 ^ lb < 2 * 2 ^ la)%Q) by nra.
    assert (H2 : (2 * (2 ^ la / 2 ^ lb) == (2 * 2 ^ la) / 2 ^ lb)%Q) by (field; lra).
    rewrite H2. apply Qlt_shift_div_l; assumption. }
  assert (Hdn : (2 ^ la / 2 ^ lb / 2 < x)%Q).
  { assert (H1 : (2 ^ la < x * (2 * 2 ^ lb))%Q) by nra.
    assert (H2 : (2 ^ la / 2 ^ lb / 2 == 2 ^ la / (2 * 2 ^ lb))%Q) by (field; lra).
    rewrite H2. apply Qlt_shift_div_r; [lra | assumption]. }
  destruct (Qle_bool (2 ^ (la - lb)) x) eqn:E.
  - apply Qle_bool_iff in E. split; [assumption|].
    rewrite pow2_succ, Hk. assumption.
  - assert (Hlt : (x < 2 ^ (la - lb))%Q).
    { apply Qnot_le_lt. intros H. apply Qle_bool_iff in H. congruence. }
    split.
    + rewrite pow2_pred, Hk. apply Qlt_le_weak. assumption.
    + replace (la - lb - 1 + 1) with (la - lb) by lia. assumption.
Qed.

Lemma ilog2_mono (x y : Q) : (0 < x)%Q -> (x <= y)%Q -> ilog2 x <= ilog2 y.
Proof.
  intros Hx Hxy.
  destruct (ilog2_spec x Hx) as [Hx1 _].
  destruct (ilog2_spec y) as [_ Hy2]; [lra|].
  destruct (Z_le_gt_dec (ilog2 x) (ilog2 y)) as [|Hgt]; [assumption|].
  exfalso.
  assert (H : (2 ^ (ilog2 y + 1) <= 2 ^ ilog2 x)%Q)
    by (apply Qpower_le_compat_l; [lia | lra]).
  lra.
Qed.

Lemma ilog2_unique (x : Q) (l : Z) :
  (2 ^ l <= x < 2 ^ (l + 1))%Q -> ilog2 x = l.
Proof.
  intros [H1 H2]. pose proof (pow2_pos l) as Hp.
  destruct (ilog2_spec x) as [Hx1 Hx2]; [lra|].
  destruct (Z_lt_le_dec (ilog2 x) l) as [Hlt | Hge].
  - exfalso.
    assert (H : (2 ^ (ilog2 x + 1) <= 2 ^ l)%Q)
      by (apply Qpower_le_compat_l; [lia | lra]).
    lra.
  - destruct (Z_le_gt_dec (ilog2 x) l) as [|Hgt]; [lia|]. exfalso.
    assert (H : (2 ^ (l + 1) <= 2 ^ ilog2 x)%Q)
      by (apply Qpower_le_compat_l; [lia | lra]).
    lra.
Qed.

(** The significand lies in [2^52, 2^53). *)
Lemma significand_range (x : Q) :
  (0 < x)%Q ->
  (inject_Z (2 ^ 52) <= x / 2 ^ (ilog2 x - 52) < inject_Z (2 ^ 53))%Q.
Proof.
  intros Hx. destruct (ilog2_spec x Hx) as [H1 H2].
  pose proof (pow2_pos (ilog2 x - 52)) as Hp.
  assert (Hl : (2 ^ ilog2 x == 2 ^ (ilog2 x - 52) * inject_Z (2 ^ 52))%Q).
  { rewrite <- (pow2_inject 52) by lia. rewrite <- Qpower_plus by discriminate.
    now replace (ilog2 x - 52 + 52) with (ilog2 x) by lia. }
  assert (Hu : (2 ^ (ilog2 x + 1) == 2 ^ (ilog2 x - 52) * inject_Z (2 ^ 53))%Q).
  { rewrite <- (pow2_inject 53) by lia. rewrite <- Qpower_plus by discriminate.
    now replace (ilog2 x - 52 + 53) with (ilog2 x + 1) by lia. }
  split.
  - apply Qle_shift_div_l; [assumption|]. rewrite Qmult_comm, <- Hl. assumption.
  - apply Qlt_shift_div_r; [assumption|]. rewrite Qmult_comm, <- Hu. assumption.
Qed.

Lemma significand_int (x : Q) :
  (0 < x)%Q ->
  2 ^ 52 <= round_half_even (x / 2 ^ (ilog2 x - 52)) <= 2 ^ 53.
Proof.
  intros Hx. destruct (significand_range x Hx) as [H1 H2]. split.
  - now apply round_half_even_ge.
  - apply round_half_even_le. lra.
Qed.

Lemma binary64_pos_mono (x y : Q) :
  (0 < x)%Q -> (x <= y)%Q -> (binary64_pos x <= binary64_pos y)%Q.
Proof.
  intros Hx Hxy. assert (Hy : (0 < y)%Q) by lra.
  pose proof (ilog2_mono x y Hx Hxy) as He.
  unfold binary64_pos.
  pose proof (significand_int x Hx) as [_ Hmx].
  pose proof (significand_int y Hy) as [Hmy _].
  set (ex := ilog2 x - 52) in *. set (ey := ilog2 y - 52) in *.
  pose proof (pow2_pos ex) as Hpx. pose proof (pow2_pos ey) as Hpy.
  destruct (Z.eq_dec ex ey) as [E | NE].
  - rewrite <- E.
    assert (Hm : round_half_even (x / 2 ^ ex) <= round_half_even (y / 2 ^ ex)).
    { apply round_half_even_mono. apply Qmult_le_compat_r; [assumption|].
      apply Qlt_le_weak, Qinv_lt_0_compat. assumption. }
    rewrite Zle_Qle in Hm. nra.
  - assert (Hlt : ex + 1 <= ey) by (unfold ex, ey in *; lia).
    assert (Hp : (2 ^ (ex + 1) <= 2 ^ ey)%Q)
      by (apply Qpower_le_compat_l; [assumption | lra]).
    rewrite pow2_succ in Hp.
    rewrite Zle_Qle in Hmx, Hmy.
    change (inject_Z (2 ^ 53)) with (2 * inject_Z (2 ^ 52))%Q in Hmx.
    assert (H52 : (0 < inject_Z (2 ^ 52))%Q) by reflexivity.
    set (mx := inject_Z (round_half_even (x / 2 ^ ex))) in *.
    set (my := inject_Z (round_half_even (y / 2 ^ ey))) in *.
    apply Qle_trans with (2 * inject_Z (2 ^ 52) * 2 ^ ex)%Q; [nra|].
    apply Qle_trans with (inject_Z (2 ^ 52) * 2 ^ ey)%Q; nra.
Qed.

Lemma Qnum_pos_iff (x : Q) : (0 < x)%Q <-> 0 < Qnum x.
Proof. destruct x as [n d]. unfold Qlt. simpl. lia. Qed.

Lemma binary64_of_pos (x : Q) : (0 < x)%Q -> binary64 x = binary64_pos x.
Proof.
  intros H. apply Qnum_pos_iff in H. unfold binary64.
  destruct (Qnum x); try lia. reflexivity.
Qed.

Lemma binary64_of_zero (x : Q) : (x == 0)%Q -> binary64 x = 0%Q.
Proof.
  intros H. unfold binary64. destruct x as [n d]. unfold Qeq in H.
  simpl in *. replace n with 0 by lia. reflexivity.
Qed.

Lemma binary64_pos_positive (x : Q) : (0 < x)%Q -> (0 < binary64_pos x)%Q.
Proof.
  intros Hx. unfold binary64_pos.
  pose proof (significand_int x Hx) as [Hm _].
  pose proof (pow2_pos (ilog2 x - 52)) as Hp.
  assert (H : (0 < inject_Z (round_half_even (x / 2 ^ (ilog2 x - 52))))%Q)
    by (rewrite <- (Zlt_Qlt 0); lia).
  nra.
Qed.

(** Rounding to binary64 is monotone on the non-negative rationals. *)
Lemma binary64_mono (x y : Q) :
  (0 <= x)%Q -> (x <= y)%Q -> (binary64 x <= binary64 y)%Q.
Proof.
  intros Hx Hxy.
  destruct (Qlt_le_dec 0 x) as [Hpos | Hzero].
  - rewrite !binary64_of_pos by lra. now apply binary64_pos_mono.
  - rewrite (binary64_of_zero x) by lra.
    destruct (Qlt_le_dec 0 y) as [Hy | Hy].
    + rewrite binary64_of_pos by assumption.
      apply Qlt_le_weak. now apply binary64_pos_positive.
    + rewrite (binary64_of_zero y) by lra. apply Qle_refl.
Qed.

(** A value with a significand of at most 53 bits is its own rounding. *)
Lemma binary64_exact (m e : Z) :
  2 ^ 52 <= m < 2 ^ 53 ->
  (binary64 (inject_Z m * 2 ^ e) == inject_Z m * 2 ^ e)%Q.
Proof.
  intros [Hlo Hhi]. pose proof (pow2_pos e) as Hp.
  assert (Hm : (inject_Z (2 ^ 52) <= inject_Z m < inject_Z (2 ^ 53))%Q)
    by (rewrite <- Zle_Qle, <- Zlt_Qlt; auto).
  assert (H52 : (0 < inject_Z (2 ^ 52))%Q) by reflexivity.
  assert (Hx : (0 < inject_Z m * 2 ^ e)%Q) by nra.
  rewrite binary64_of_pos by assumption. unfold binary64_pos.
  assert (Hl : ilog2 (inject_Z m * 2 ^ e) = e + 52).
  { apply ilog2_unique.
    rewrite (Qpower_plus 2 e 52) by discriminate.
    replace (e + 52 + 1) with (e + 53) by lia.
    rewrite (Qpower_plus 2 e 53) by discriminate.
    rewrite (pow2_inject 52), (pow2_inject 53) by lia. split; nra. }
  rewrite Hl. replace (e + 52 - 52) with e by lia.
  assert (Ht : (inject_Z m * 2 ^ e / 2 ^ e == inject_Z m)%Q) by (field; lra).
  assert (Hr : round_half_even (inject_Z m * 2 ^ e / 2 ^ e) = m).
  { revert Ht. generalize (inject_Z m * 2 ^ e / 2 ^ e)%Q. intros t Ht.
    assert (m <= round_half_even t) by (apply round_half_even_ge; lra).
    assert (round_half_even t <= m) by (apply round_half_even_le; lra).
    lia. }
  rewrite Hr. reflexivity.
Qed.

(** Integers up to 2^53 are binary64 values. *)
Lemma binary64_int (z : Z) :
  0 <= z <= 2 ^ 53 -> (binary64 (inject_Z z) == inject_Z z)%Q.
Proof.
  intros [H0 H1].
  destruct (Z.eq_dec z 0) as [-> | Hnz]; [reflexivity|].
  destruct (Z.eq_dec z (2 ^ 53)) as [-> | Hn53]; [vm_compute; reflexivity|].
  assert (Hz : 0 < z) by lia.
  destruct (Z.log2_spec z Hz) as [Hl1 Hl2].
  pose proof (Z.log2_nonneg z) as Hl0.
  assert (Hl : Z.log2 z <= 52).
  { assert (Z.log2 z < 53); [|lia]. apply Z.log2_lt_pow2; lia. }
  set (s := 52 - Z.log2 z).
  assert (Hs : 0 <= s) by (unfold s; lia).
  assert (Heq : (inject_Z z == inject_Z (z * 2 ^ s) * 2 ^ (- s))%Q).
  { rewrite inject_Z_mult, <- (pow2_inject s Hs), Qpower_opp.
    pose proof (pow2_pos s). field. lra. }
  assert (Hrange : 2 ^ 52 <= z * 2 ^ s < 2 ^ 53).
  { replace 52 with (Z.log2 z + s) by (unfold s; lia).
    replace 53 with (Z.succ (Z.log2 z) + s) by (unfold s; lia).
    rewrite !Z.pow_add_r by lia.
    assert (0 < 2 ^ s) by (apply Z.pow_pos_nonneg; lia). nia. }
  pose proof (binary64_exact (z * 2 ^ s) (- s) Hrange) as Hex.
  assert (Hle1 : (binary64 (inject_Z z)
                  <= binary64 (inject_Z (z * 2 ^ s) * 2 ^ (- s)))%Q).
  { apply binary64_mono; [rewrite <- (Zle_Qle 0); lia | rewrite <- Heq; apply Qle_refl]. }
  assert (Hle2 : (binary64 (inject_Z (z * 2 ^ s) * 2 ^ (- s))
                  <= binary64 (inject_Z z))%Q).
  { apply binary64_mono; [|rewrite <- Heq; apply Qle_refl].
    rewrite <- Heq. rewrite <- (Zle_Qle 0). lia. }
  rewrite Hex in Hle1, Hle2. rewrite <- Heq in Hle1, Hle2.
  apply Qle_antisym; assumption.
Qed.

Lemma binary64_half : (binary64 (1 # 2) == 1 # 2)%Q.
Proof. vm_compute. reflexivity. Qed.

Lemma binary64_nonneg (x : Q) : (0 <= x)%Q -> (0 <= binary64 x)%Q.
Proof.
  intros Hx. change 0%Q with (binary64 0) at 1.
  apply binary64_mono; [apply Qle_refl | assumption].
Qed.

(** Rounding to binary64 does not cross an integer below 2^53. *)
Lemma binary64_between (x : Q) (a b : Z) :
  0 <= a -> b <= 2 ^ 53 ->
  (inject_Z a <= x <= inject_Z b)%Q ->
  (inject_Z a <= binary64 x <= inject_Z b)%Q.
Proof.
  intros Ha Hb [Hlo Hhi].
  assert (Hab : a <= b) by (rewrite Zle_Qle; lra).
  assert (H0 : (0 <= inject_Z a)%Q) by (now rewrite <- (Zle_Qle 0)).
  split.
  - rewrite <- (binary64_int a) by lia. now apply binary64_mono.
  - rewrite <- (binary64_int b) by lia. apply binary64_mono; lra.
Qed.

(** * Frame operations *)

Section Keys.

Context {A K : Type} (eqb : K -> K -> bool) (key : A -> K).
Hypothesis eqb_eq : forall a b, eqb a b = true <-> a = b.

Lemma existsb_eqb_In (k : K) (seen : list K) :
  existsb (eqb k) seen = true <-> In k seen.
Proof.
  rewrite existsb_exists. split.
  - intros [x [Hx He]]. apply eqb_eq in He. now subst.
  - intros Hk. exists k. split; [assumption | now apply eqb_eq].
Qed.

Lemma drop_duplicates_from_In (a : A) (l : list A) : forall seen,
  In a (drop_duplicates_from eqb key seen l) ->
  In a l /\ ~ In (key a) seen.
Proof.
  induction l as [|x l IH]; intros seen Ha; simpl in Ha; [contradiction|].
  destruct (existsb (eqb (key x)) seen) eqn:E.
  - apply IH in Ha. destruct Ha. split; [now right | assumption].
  - destruct Ha as [-> | Ha].
    + split; [now left|]. rewrite <- existsb_eqb_In. congruence.
    + apply IH in Ha. destruct Ha as [Hin Hns]. split; [now right|].
      intros Hs. apply Hns. now right.
Qed.

Lemma drop_duplicates_from_NoDup (l : list A) : forall seen,
  NoDup (map key (drop_duplicates_from eqb key seen l)).
Proof.
  induction l as [|x l IH]; intros seen; simpl; [constructor|].
  destruct (existsb (eqb (key x)) seen); [apply IH|].
  simpl. constructor; [|apply IH].
  intros Hin. apply in_map_iff in Hin. destruct Hin as [y [Hk Hy]].
  apply drop_duplicates_from_In in Hy. destruct Hy as [_ Hn].
  apply Hn. rewrite Hk. now left.
Qed.

Lemma drop_duplicates_from_keeps (a : A) (l : list A) : forall seen,
  In a l -> ~ In (key a) seen ->
  In (key a) (map key (drop_duplicates_from eqb key seen l)).
Proof.
  induction l as [|x l IH]; intros seen Ha Hs; [contradiction|]. simpl.
  destruct (existsb (eqb (key x)) seen) eqn:E.
  - destruct Ha as [-> | Ha]; [|now apply IH].
    apply existsb_eqb_In in E. contradiction.
  - simpl. destruct Ha as [-> | Ha]; [now left|].
    destruct (eqb (key a) (key x)) eqn:Ek.
    + apply eqb_eq in Ek. now left.
    + right. apply IH; [assumption|]. intros [Hx | Hin]; [|contradiction].
      rewrite Hx in Ek.
      assert (eqb (key a) (key a) = true) by now apply eqb_eq. congruence.
Qed.

Lemma drop_duplicates_NoDup (l : list A) :
  NoDup (map key (drop_duplicates eqb key l)).
Proof. apply drop_duplicates_from_NoDup. Qed.

Lemma drop_duplicates_incl (a : A) (l : list A) :
  In a (drop_duplicates eqb key l) -> In a l.
Proof. intros H. now apply drop_duplicates_from_In in H. Qed.

Lemma drop_duplicates_keeps (a : A) (l : list A) :
  In a l -> In (key a) (map key (drop_duplicates eqb key l)).
Proof. intros H. apply drop_duplicates_from_keeps; auto. Qed.

End Keys.

Lemma drop_duplicates_from_length {A K : Type} (eqb : K -> K -> bool)
    (key : A -> K) (l : list A) : forall seen,
  (List.length (drop_duplicates_from eqb key seen l) <= List.length l)%nat.
Proof.
  induction l as [|x l IH]; intros seen; simpl; [lia|].
  destruct (existsb (eqb (key x)) seen); simpl.
  - specialize (IH seen). lia.
  - specialize (IH (key x :: seen)). lia.
Qed.

Lemma insert_sorted_perm {A : Type} (leb : A -> A -> bool) (x : A)
    (l : list A) : Permutation (insert_sorted leb x l) (x :: l).
Proof.
  induction l as [|y l IH]; simpl; [reflexivity|].
  destruct (leb x y); [reflexivity|].
  rewrite IH. apply perm_swap.
Qed.

Lemma sort_by_perm {A : Type} (leb : A -> A -> bool) (l : list A) :
  Permutation (sort_by leb l) l.
Proof.
  induction l as [|x l IH]; simpl; [reflexivity|].
  rewrite insert_sorted_perm. now constructor.
Qed.

Lemma sort_by_In {A : Type} (leb : A -> A -> bool) (l : list A) (a : A) :
  In a (sort_by leb l) <-> In a l.
Proof.
  split; apply Permutation_in;
    [apply sort_by_perm | apply Permutation_sym, sort_by_perm].
Qed.

Lemma sort_by_length {A : Type} (leb : A -> A -> bool) (l : list A) :
  List.length (sort_by leb l) = List.length l.
Proof. apply Permutation_length, sort_by_perm. Qed.

Lemma NoDup_map_filter {A K : Type} (key : A -> K) (p : A -> bool)
    (l : list A) : NoDup (map key l) -> NoDup (map key (filter p l)).
Proof.
  induction l as [|x l IH]; simpl; intros H; [constructor|].
  inversion H as [|? ? Hn Hd]; subst.
  destruct (p x); simpl; [|now apply IH].
  constructor; [|now apply IH].
  intros Hin. apply Hn. rewrite in_map_iff in *.
  destruct Hin as [y [Hy Hin]]. exists y. split; [assumption|].
  now apply filter_In in Hin.
Qed.

Lemma NoDup_map_coarser {A K L : Type} (f : A -> K) (h : A -> L)
    (l : list A) :
  NoDup (map f l) ->
  (forall x y, In x l -> In y l -> h x = h y -> f x = f y) ->
  NoDup (map h l).
Proof.
  induction l as [|x l IH]; simpl; intros H Hc; [constructor|].
  inversion H as [|? ? Hn Hd]; subst. constructor.
  - intros Hin. apply Hn. rewrite in_map_iff in *.
    destruct Hin as [y [Hy Hin]]. exists y. split; [|assumption].
    apply Hc; auto.
  - apply IH; auto.
Qed.

Section Groups.

Context {A K : Type} (eqb leb : K -> K -> bool) (key : A -> K).
Hypothesis eqb_eq : forall a b, eqb a b = true <-> a = b.

Lemma groupby_In (l : list A) (k : K) (g : list A) :
  In (k, g) (groupby eqb leb key l) ->
  g = filter (fun a => eqb (key a) k) l /\ In k (map key l).
Proof.
  unfold groupby. intros H. apply in_map_iff in H.
  destruct H as [k' [Heq Hin]]. inversion Heq; subst. split; [reflexivity|].
  apply sort_by_In in Hin.
  apply (drop_duplicates_incl eqb (fun k => k) eqb_eq) in Hin. assumption.
Qed.

Lemma groupby_keys (l : list A) :
  map fst (groupby eqb leb key l) =
  sort_by leb (drop_duplicates eqb (fun k => k) (map key l)).
Proof.
  unfold groupby. rewrite map_map. simpl. apply map_id.
Qed.

Lemma groupby_keys_NoDup (l : list A) :
  NoDup (map fst (groupby eqb leb key l)).
Proof.
  rewrite groupby_keys.
  apply (Permutation_NoDup (Permutation_sym (sort_by_perm leb _))).
  pose proof (drop_duplicates_NoDup eqb (fun k : K => k) eqb_eq (map key l))
    as H.
  now rewrite map_id in H.
Qed.

Lemma groupby_has_key (l : list A) (a : A) :
  In a l ->
  In (key a, filter (fun b => eqb (key b) (key a)) l) (groupby eqb leb key l).
Proof.
  intros Ha. unfold groupby. apply in_map_iff. exists (key a).
  split; [reflexivity|]. apply sort_by_In.
  pose proof (drop_duplicates_keeps eqb (fun k : K => k) eqb_eq (key a)
                (map key l)) as H.
  rewrite map_id in H. apply H. now apply in_map.
Qed.

Lemma groupby_members (l : list A) (k : K) (g : list A) (a : A) :
  In (k, g) (groupby eqb leb key l) -> In a g -> In a l /\ key a = k.
Proof.
  intros H Ha. apply groupby_In in H. destruct H as [-> _].
  apply filter_In in Ha. destruct Ha as [Hin He]. now apply eqb_eq in He.
Qed.

End Groups.

Lemma pair_eqb_eq (a b : Z * Z) : pair_eqb a b = true <-> a = b.
Proof.
  destruct a, b. unfold pair_eqb. simpl.
  rewrite andb_true_iff, !Z.eqb_eq. split; [intros []|intros [=]]; subst; auto.
Qed.

Lemma triple_eqb_eq (a b : Z * Z * Z) : triple_eqb a b = true <-> a = b.
Proof.
  destruct a as [a1 a2], b as [b1 b2]. unfold triple_eqb. simpl.
  rewrite andb_true_iff, pair_eqb_eq, Z.eqb_eq.
  split; [intros []|intros [=]]; subst; auto.
Qed.

Lemma station_eqb_eq (a b : Station) : station_eqb a b = true <-> a = b.
Proof.
  destruct a, b. unfold station_eqb. simpl.
  rewrite andb_true_iff, String.eqb_eq, Z.eqb_eq.
  split; [intros []|intros [=]]; subst; auto.
Qed.

(** * The effect monad *)

Section MonadFacts.

Context {rng : Type}.

Lemma bind_Ok {A B : Type} (m : M rng A) (k : A -> M rng B) w b w' :
  bind rng m k w = (Ok b, w') ->
  exists a w1, m w = (Ok a, w1) /\ k a w1 = (Ok b, w').
Proof.
  unfold bind. destruct (m w) as [[a | e] w1]; intros H.
  - now exists a, w1.
  - discriminate.
Qed.

Lemma bind_ok_eq {A B : Type} (m : M rng A) (k : A -> M rng B) w a w1 :
  m w = (Ok a, w1) -> bind rng m k w = k a w1.
Proof. unfold bind. now intros ->. Qed.

Lemma bind_err_eq {A B : Type} (m : M rng A) (k : A -> M rng B) w e w1 :
  m w = (Err e, w1) -> bind rng m k w = (Err e, w1).
Proof. unfold bind. now intros ->. Qed.

Lemma require_ok (labels cols : list string) (w : World rng) :
  forallb (fun c => in_columns c cols) labels = true ->
  require rng labels cols w = (Ok tt, w).
Proof.
  intros H. unfold require.
  replace (filter (fun c => negb (in_columns c cols)) labels)
    with (@nil string);
    [reflexivity|].
  symmetry. induction labels as [|c l IH]; [reflexivity|]. simpl in *.
  apply andb_true_iff in H. destruct H as [-> H]. simpl. now apply IH.
Qed.

Lemma require_missing (labels cols : list string) (c : string)
    (w : World rng) :
  In c labels -> in_columns c cols = false ->
  exists missing, require rng labels cols w = (Err (KeyError missing), w).
Proof.
  intros Hin Hc. unfold require.
  destruct (filter (fun c => negb (in_columns c cols)) labels) eqn:E.
  - exfalso.
    assert (H : In c (filter (fun c => negb (in_columns c cols)) labels)).
    { apply filter_In. split; [assumption|]. now rewrite Hc. }
    rewrite E in H. contradiction.
  - eexists. reflexivity.
Qed.

Lemma require_result (labels cols : list string) (w : World rng) :
  snd (require rng labels cols w) = w.
Proof.
  unfold require.
  now destruct (filter (fun c => negb (in_columns c cols)) labels).
Qed.

Lemma require_Ok_inv (labels cols : list string)
    (w w' : World rng) (u : unit) :
  require rng labels cols w = (Ok u, w') ->
  forallb (fun c => in_columns c cols) labels = true.
Proof.
  unfold require. intros H.
  destruct (filter (fun c => negb (in_columns c cols)) labels) eqn:E;
    [|discriminate].
  apply forallb_forall. intros c Hc.
  destruct (in_columns c cols) eqn:Ec; [reflexivity|]. exfalso.
  assert (Hin : In c (filter (fun c => negb (in_columns c cols)) labels))
    by (apply filter_In; split; [assumption | now rewrite Ec]).
  rewrite E in Hin. contradiction.
Qed.

(** ** The two checks of [melt] *)

Lemma melt_value_name_clash (id_vars cols : list string)
    (value_vars : list (nat * string)) (amostra : list Row) (w : World rng) :
  in_columns "Valor" cols = true ->
  exists msg,
    melt rng id_vars cols value_vars amostra w = (Err (ValueError msg), w).
Proof. intros H. unfold melt. rewrite H. eexists. reflexivity. Qed.

Lemma melt_without_value_name (id_vars cols : list string)
    (value_vars : list (nat * string)) (amostra : list Row) (w : World rng) :
  in_columns "Valor" cols = false ->
  melt rng id_vars cols value_vars amostra w
  = bind rng (require rng id_vars cols)
      (fun _ => ret rng (melt_rows id_vars value_vars amostra)) w.
Proof. intros H. unfold melt. now rewrite H. Qed.

Lemma melt_Ok_inv (id_vars cols : list string)
    (value_vars : list (nat * string)) (amostra : list Row)
    (w w' : World rng) (df_melted : list Melted) :
  melt rng id_vars cols value_vars amostra w = (Ok df_melted, w') ->
  in_columns "Valor" cols = false /\
  forallb (fun c => in_columns c cols) id_vars = true /\
  df_melted = melt_rows id_vars value_vars amostra.
Proof.
  intros H. destruct (in_columns "Valor" cols) eqn:E.
  - destruct (melt_value_name_clash id_vars cols value_vars amostra w E)
      as [msg Hm].
    rewrite Hm in H. discriminate.
  - rewrite (melt_without_value_name _ _ _ _ _ E) in H.
    apply bind_Ok in H. destruct H as [u [w1 [Hr H]]].
    split; [reflexivity|]. split; [eapply require_Ok_inv; eassumption|].
    unfold ret in H. now inversion H.
Qed.

(** ** Computations that do not read the world *)

Lemma stable_ret {A : Type} (a : A) : stable (ret rng a).
Proof.
  exists (Ok a), []. intros [g t]. unfold ret. simpl. now rewrite app_nil_r.
Qed.

Lemma stable_raise {A : Type} (e : error) : stable (@raise rng A e).
Proof.
  exists (Err e), []. intros [g t]. unfold raise. simpl. now rewrite app_nil_r.
Qed.

Lemma stable_bind {A B : Type} (m : M rng A) (k : A -> M rng B) :
  stable m -> (forall a, stable (k a)) -> stable (bind rng m k).
Proof.
  intros [r [evs Hm]] Hk. destruct r as [a | e].
  - destruct (Hk a) as [r' [evs' Hka]]. exists r', (evs ++ evs').
    intros w. unfold bind. rewrite Hm, Hka. simpl. now rewrite app_assoc.
  - exists (Err e), evs. intros w. unfold bind. now rewrite Hm.
Qed.

Lemma stable_require (labels cols : list string) :
  stable (require rng labels cols).
Proof.
  unfold require.
  destruct (filter (fun c => negb (in_columns c cols)) labels);
    [apply stable_ret | apply stable_raise].
Qed.

Lemma stable_result {A : Type} (m : M rng A) (w1 w2 : World rng) :
  stable m ->
  fst (m w1) = fst (m w2) /\ np_random (snd (m w1)) = np_random w1.
Proof.
  intros [r [evs H]]. now rewrite !H.
Qed.

End MonadFacts.

Create HintDb stable.

#[export] Hint Resolve stable_ret stable_raise stable_require : stable.

(** * Determinism *)

Section Determinism.

Variable rng : Type.
Variable RandomState : Z -> rng.
Variable choice : rng -> nat -> nat -> list nat * rng.
Variable representable : Z -> bool.

Lemma stable_process_sampling_size (frac : Q) :
  stable (process_sampling_size rng frac).
Proof.
  unfold process_sampling_size.
  destruct (negb (Qle_bool frac 1)); [auto with stable|].
  destruct (negb (Qle_bool 0 frac)); auto with stable.
Qed.

Lemma stable_groupby_sample (frame : list Station) (frac : Q) (seed : Z) :
  stable (groupby_sample rng RandomState choice frame frac (Some seed)).
Proof.
  unfold groupby_sample. destruct frame as [|s frame]; [auto with stable|].
  apply stable_bind; [apply stable_process_sampling_size|]. intros _.
  destruct (sample_groups rng choice frac
              (groupby String.eqb String.leb fst (s :: frame))
              (RandomState seed)) as [[sel evs] g1] eqn:E.
  exists (Ok sel), evs. intros w. reflexivity.
Qed.

Lemma stable_estacoes_sorteadas (df : DataFrame) (frac : Q) (seed : Z) :
  stable (estacoes_sorteadas rng RandomState choice df frac seed).
Proof.
  unfold estacoes_sorteadas. apply stable_bind; [auto with stable|].
  intros _. apply stable_groupby_sample.
Qed.

Lemma stable_blindagem_mes (cols : list string) (amostra : list Row) :
  stable (blindagem_mes rng cols amostra).
Proof.
  unfold blindagem_mes. destruct amostra; [auto with stable|].
  apply stable_bind; auto with stable.
Qed.

Lemma stable_melt (id_vars cols : list string) value_vars amostra :
  stable (melt rng id_vars cols value_vars amostra).
Proof.
  unfold melt. destruct (in_columns "Valor" cols); [auto with stable|].
  apply stable_bind; auto with stable.
Qed.

Lemma stable_com_Dia (l : list Melted) : stable (com_Dia rng l).
Proof.
  induction l as [|m l IH]; simpl; [auto with stable|].
  destruct (int_of_string (str_replace_empty "Chuva" (Dia_str m)));
    [|auto with stable].
  apply stable_bind; auto with stable.
Qed.

Lemma stable_melt_com_datas (id_vars cols : list string) amostra :
  stable (melt_com_datas rng representable id_vars cols amostra).
Proof.
  unfold melt_com_datas. apply stable_bind; [apply stable_melt|]. intros ?.
  apply stable_bind; [apply stable_com_Dia|]. auto with stable.
Qed.

Lemma stable_normalizar (df : DataFrame) (sorteadas : list Station) :
  stable (normalizar rng representable df sorteadas).
Proof.
  unfold normalizar. apply stable_bind; [apply stable_blindagem_mes|].
  intros ?. apply stable_bind; [apply stable_melt_com_datas|].
  auto with stable.
Qed.

Lemma stable_processar_dados_complexos (df : DataFrame) (frac : Q) :
  stable (processar_dados_complexos rng RandomState choice representable
            df frac).
Proof.
  unfold processar_dados_complexos.
  apply stable_bind; [apply stable_estacoes_sorteadas|]. intros ?.
  apply stable_bind; [apply stable_normalizar|]. intros [[? ?] ?].
  auto with stable.
Qed.

Lemma stable_df_resumo (df : DataFrame) (frac : Q) (seed : Z) :
  stable (df_resumo rng RandomState choice representable df frac seed).
Proof.
  unfold df_resumo.
  apply stable_bind; [apply stable_estacoes_sorteadas|]. intros ?.
  apply stable_bind; [apply stable_blindagem_mes|]. intros ?.
  apply stable_bind; [apply stable_melt_com_datas|]. auto with stable.
Qed.

Lemma stable_iteracao (df : DataFrame) (frac : Q) (seed : Z) :
  stable (iteracao rng RandomState choice representable df frac seed).
Proof.
  unfold iteracao. apply stable_bind; [apply stable_df_resumo|].
  auto with stable.
Qed.

Lemma stable_laco (df : DataFrame) (frac : Q) (seeds : list Z) :
  forall acc,
    stable (laco rng RandomState choice representable df frac seeds acc).
Proof.
  induction seeds as [|seed rest IH]; intros acc; simpl; [auto with stable|].
  apply stable_bind; [apply stable_iteracao|]. intros r. apply IH.
Qed.

(** C1. Two invocations on the same table and fraction (and, for the
    sampler, the same seed) return the same value whatever the state of
    the interpreter they start from: the station sample, the metrics table
    with its two duplicate-count messages, and the per-seed stability
    table. In particular a second run that starts where the first one
    ended repeats its output. The selection depends on the seed alone:
    [np.random] is neither read nor advanced. *)
Theorem two_run_determinism (df : DataFrame) (frac : Q) (seed : Z)
    (w1 w2 : World rng) :
  let sample := estacoes_sorteadas rng RandomState choice df frac seed in
  let main :=
    processar_dados_complexos rng RandomState choice representable df frac in
  let test :=
    executar_teste_estabilidade rng RandomState choice representable
      df frac in
  fst (sample w1) = fst (sample w2) /\
  fst (main w1) = fst (main w2) /\
  fst (test w1) = fst (test w2) /\
  fst (main (snd (main w1))) = fst (main w1) /\
  fst (test (snd (test w1))) = fst (test w1) /\
  np_random (snd (main w1)) = np_random w1 /\
  np_random (snd (test w1)) = np_random w1.
Proof.
  intros sample main test.
  pose proof (stable_estacoes_sorteadas df frac seed) as Hs.
  pose proof (stable_processar_dados_complexos df frac) as Hm.
  pose proof (stable_laco df frac seeds_para_testar []) as Ht.
  fold sample in Hs. fold main in Hm.
  change (stable test) in Ht.
  repeat split;
    first [ now apply stable_result
          | apply (stable_result _ _ w1); assumption ].
Qed.

End Determinism.

(** * Record normalisation *)

Section Normalisation.

Variable rng : Type.
Variable RandomState : Z -> rng.
Variable choice : rng -> nat -> nat -> list nat * rng.
Variable representable : Z -> bool.

Lemma dropna_Data_Real_In (l : list (Daily (option Z))) (o : Obs) :
  In o (dropna_Data_Real l) ->
  In (mkDaily (melted o) (Dia o) (Some (Data_Real o))) l.
Proof.
  unfold dropna_Data_Real. rewrite in_flat_map. intros [x [Hx Ho]].
  destruct x as [m d [t|]]; simpl in Ho; [|contradiction].
  destruct Ho as [<- | []]. exact Hx.
Qed.

Lemma melt_com_datas_valid (id_vars cols : list string) (amostra : list Row)
    (w w' : World rng) (validos : list Obs) :
  melt_com_datas rng representable id_vars cols amostra w = (Ok validos, w') ->
  Forall (data_valida representable) validos.
Proof.
  unfold melt_com_datas. intros H.
  apply bind_Ok in H. destruct H as [df_melted [w1 [_ H]]].
  apply bind_Ok in H. destruct H as [com_dia [w2 [_ H]]].
  unfold ret in H. inversion H; subst. clear H.
  apply Forall_forall. intros o Ho. apply dropna_Data_Real_In in Ho.
  unfold com_Data_Real in Ho. apply in_map_iff in Ho.
  destruct Ho as [[m d] [Heq _]]. simpl in Heq.
  unfold data_valida. inversion Heq. congruence.
Qed.

Lemma normalizar_inv (df : DataFrame) (sorteadas : list Station)
    (w w' : World rng) obs dm dd :
  normalizar rng representable df sorteadas w = (Ok (obs, dm, dd), w') ->
  exists amostra w1 validos,
    blindagem_mes rng (columns df) (df_amostra df sorteadas) w
      = (Ok amostra, w1) /\
    melt_com_datas rng representable
      ["EstacaoCodigo"; "estado"; "Ano"; "Mes"]%string (columns df) amostra w1
      = (Ok validos, w') /\
    obs = sort_by ordem_dia (drop_duplicates pair_eqb chave_dia validos) /\
    dm = (List.length (df_amostra df sorteadas) - List.length amostra)%nat /\
    dd = (List.length validos
          - List.length (drop_duplicates pair_eqb chave_dia validos))%nat.
Proof.
  unfold normalizar. intros H.
  apply bind_Ok in H. destruct H as [amostra [w1 [Hb H]]].
  apply bind_Ok in H. destruct H as [validos [w2 [Hm H]]].
  unfold ret in H. inversion H; subst. clear H.
  exists amostra, w1, validos. repeat split; assumption.
Qed.

Lemma processar_inv (df : DataFrame) (frac : Q) (w w' : World rng)
    tabela m1 m2 :
  processar_dados_complexos rng RandomState choice representable df frac w
    = (Ok (tabela, m1, m2), w') ->
  exists sorteadas w1 obs dm dd,
    estacoes_sorteadas rng RandomState choice df frac 42 w
      = (Ok sorteadas, w1) /\
    normalizar rng representable df sorteadas w1 = (Ok (obs, dm, dd), w') /\
    tabela = agregar obs sorteadas /\
    m1 = msg_duplicatas_mes dm /\
    m2 = msg_duplicatas_dia dd.
Proof.
  unfold processar_dados_complexos. intros H.
  apply bind_Ok in H. destruct H as [sorteadas [w1 [Hs H]]].
  apply bind_Ok in H. destruct H as [[[obs dm] dd] [w2 [Hn H]]].
  unfold ret in H. inversion H; subst. clear H.
  exists sorteadas, w1, obs, dm, dd. repeat split; assumption.
Qed.

Lemma normalizar_NoDup (validos : list Obs) :
  NoDup (map chave_dia
           (sort_by ordem_dia (drop_duplicates pair_eqb chave_dia validos))).
Proof.
  apply (Permutation_NoDup
           (Permutation_map chave_dia
              (Permutation_sym (sort_by_perm ordem_dia _)))).
  apply drop_duplicates_NoDup, pair_eqb_eq.
Qed.

Lemma normalizar_valid (validos : list Obs) :
  Forall (data_valida representable) validos ->
  Forall (data_valida representable)
    (sort_by ordem_dia (drop_duplicates pair_eqb chave_dia validos)).
Proof.
  rewrite !Forall_forall. intros H o Ho. apply H.
  apply sort_by_In in Ho.
  now apply (drop_duplicates_incl pair_eqb chave_dia pair_eqb_eq) in Ho.
Qed.

(** C4. In a run that succeeds, the daily rows that are aggregated are the
    dated rows of the run, de-duplicated on (station, date) and sorted: no
    two of them share (station, date). The count reported in the second
    message is the number of rows that this last de-duplication removed,
    taken on the frame from which the rows without a valid date are
    already gone. *)
Theorem no_duplicate_days (df : DataFrame) (frac : Q) (w w' : World rng)
    tabela m1 m2 :
  processar_dados_complexos rng RandomState choice representable df frac w
    = (Ok (tabela, m1, m2), w') ->
  exists sorteadas w1 amostra w2 validos obs,
    estacoes_sorteadas rng RandomState choice df frac 42 w
      = (Ok sorteadas, w1) /\
    blindagem_mes rng (columns df) (df_amostra df sorteadas) w1
      = (Ok amostra, w2) /\
    melt_com_datas rng representable
      ["EstacaoCodigo"; "estado"; "Ano"; "Mes"]%string (columns df) amostra w2
      = (Ok validos, w') /\
    Forall (data_valida representable) validos /\
    obs = sort_by ordem_dia (drop_duplicates pair_eqb chave_dia validos) /\
    tabela = agregar obs sorteadas /\
    NoDup (map chave_dia obs) /\
    Permutation obs (drop_duplicates pair_eqb chave_dia validos) /\
    (forall o, In o validos ->
       exists o', In o' obs /\ chave_dia o' = chave_dia o) /\
    (List.length obs <= List.length validos)%nat /\
    m2 = msg_duplicatas_dia (List.length validos - List.length obs).
Proof.
  intros H. apply processar_inv in H.
  destruct H as [sorteadas [w1 [obs [dm [dd [Hs [Hn [Ht [Hm1 Hm2]]]]]]]]].
  apply normalizar_inv in Hn.
  destruct Hn as [amostra [w2 [validos [Hb [Hm [Ho [Hdm Hdd]]]]]]].
  exists sorteadas, w1, amostra, w2, validos, obs.
  split; [assumption|]. split; [assumption|]. split; [assumption|].
  split; [eapply melt_com_datas_valid; eassumption|].
  split; [assumption|]. split; [assumption|].
  split; [subst obs; apply normalizar_NoDup|].
  split; [subst obs; apply sort_by_perm|].
  split.
  { intros o Hin.
    pose proof (drop_duplicates_keeps pair_eqb chave_dia pair_eqb_eq
                  o validos Hin) as Hk.
    apply in_map_iff in Hk. destruct Hk as [o' [Hkey Hin']].
    exists o'. split; [|assumption].
    subst obs. eapply Permutation_in; [|exact Hin'].
    apply Permutation_sym, sort_by_perm. }
  split.
  - subst obs. rewrite sort_by_length. apply drop_duplicates_from_length.
  - subst obs dd. now rewrite sort_by_length.
Qed.

End Normalisation.

(** * Metric aggregation *)

Lemma last_cons_default {A : Type} (l : list A) : forall x d,
  last (x :: l) d = last l x.
Proof.
  induction l as [|y l IH]; intros x d; [reflexivity|].
  change (last (x :: y :: l) d) with (last (y :: l) d).
  now rewrite !IH.
Qed.

Lemma last_map_default {A B : Type} (f : A -> B) (l : list A) : forall d,
  last (map f l) (f d) = f (last l d).
Proof.
  induction l as [|x l IH]; intros d; [reflexivity|].
  change (map f (x :: l)) with (f x :: map f l).
  now rewrite !last_cons_default, IH.
Qed.

Lemma present_diff_from_length (l : list Z) : forall prev,
  List.length (present (diff_from prev l)) = List.length l.
Proof.
  induction l as [|x l IH]; intros prev; simpl; [reflexivity|].
  now rewrite IH.
Qed.

Lemma sum_diff_from (l : list Z) : forall prev,
  fold_right Z.add 0 (present (diff_from prev l)) = last l prev - prev.
Proof.
  induction l as [|x l IH]; intros prev; [simpl; lia|].
  change (present (diff_from prev (x :: l)))
    with ((x - prev) :: present (diff_from x l)).
  cbn [fold_right]. rewrite IH, last_cons_default. lia.
Qed.

Lemma Qsum_inject_Z (l : list Z) :
  (Qsum (map inject_Z l) == inject_Z (fold_right Z.add 0%Z l))%Q.
Proof.
  induction l as [|x l IH]; simpl; [reflexivity|].
  rewrite IH, inject_Z_plus. reflexivity.
Qed.

(** The gaps of a group of at least two rows: one per row after the
    first, and their sum is the span of the group. *)
Lemma gap_of_group (first : Obs) (rest : list Obs) :
  gap (first :: rest) =
    None :: diff_from (Data_Real first) (map Data_Real rest) /\
  List.length (present (gap (first :: rest))) = List.length rest /\
  fold_right Z.add 0 (present (gap (first :: rest)))
    = Data_Real (last rest first) - Data_Real first.
Proof.
  unfold gap. simpl. split; [reflexivity|].
  rewrite present_diff_from_length, length_map, sum_diff_from,
    last_map_default. auto.
Qed.

Lemma Qmean_nonempty (l : list Q) :
  l <> [] ->
  Qmean l = Some (Qsum l / inject_Z (Z.of_nat (List.length l)))%Q.
Proof. destruct l; [contradiction | reflexivity]. Qed.

Lemma intervalo_medio_of_group (first : Obs) (rest : list Obs) :
  rest <> [] ->
  Intervalo_Medio (intervalos_do_grupo (first :: rest)) =
    (Qsum (map inject_Z (present (gap (first :: rest))))
     / inject_Z (Z.of_nat (List.length rest)))%Q.
Proof.
  intros Hr. destruct (gap_of_group first rest) as [_ [Hlen _]].
  unfold intervalos_do_grupo, agg_gap. cbn [Intervalo_Medio].
  rewrite Qmean_nonempty.
  - cbn [fillna0]. now rewrite length_map, Hlen.
  - intros Habs. apply (f_equal (@List.length Q)) in Habs.
    rewrite length_map, Hlen in Habs. destruct rest; [contradiction|].
    discriminate.
Qed.

Lemma intervalos_single (o : Obs) :
  intervalos_do_grupo [o] = mkIntervalos 0 0 0.
Proof. reflexivity. Qed.

Lemma find_resumo_intervalos (obs : list Obs) (k : Z * Z) (g : list Obs) :
  In (k, g) (grupos obs) ->
  find (fun p => pair_eqb (fst p) k) (resumo_intervalos (grupos obs))
  = Some (k, intervalos_do_grupo g).
Proof.
  intros Hin.
  destruct (find (fun p => pair_eqb (fst p) k)
              (resumo_intervalos (grupos obs))) as [[k' i]|] eqn:E.
  - apply find_some in E. destruct E as [Hp Hk]. simpl in Hk.
    apply pair_eqb_eq in Hk. subst k'.
    unfold resumo_intervalos in Hp. apply in_map_iff in Hp.
    destruct Hp as [[k2 g2] [Heq Hin2]]. simpl in Heq. inversion Heq; subst.
    unfold grupos in *.
    apply (groupby_In pair_eqb pair_leb chave_ano pair_eqb_eq) in Hin, Hin2.
    destruct Hin as [-> _], Hin2 as [-> _]. reflexivity.
  - exfalso.
    assert (Hp : In (k, intervalos_do_grupo g)
                   (resumo_intervalos (grupos obs))).
    { unfold resumo_intervalos. apply in_map_iff. now exists (k, g). }
    apply (find_none _ _ E) in Hp. simpl in Hp.
    assert (pair_eqb k k = true) by now apply pair_eqb_eq. congruence.
Qed.

Lemma agregar_In (obs : list Obs) (sorteadas : list Station) (m : FinalRow) :
  In m (agregar obs sorteadas) ->
  exists k g est,
    In (k, g) (grupos obs) /\
    m = finalizar (k, List.length g, Some (intervalos_do_grupo g), est).
Proof.
  unfold agregar. intros H. apply in_map_iff in H.
  destruct H as [r [<- Hr]]. unfold merge_estado in Hr.
  apply in_flat_map in Hr. destruct Hr as [l [Hl Hr]].
  unfold join in Hl. apply in_map_iff in Hl. destruct Hl as [kn [<- Hkn]].
  unfold contagem_dias in Hkn. apply in_map_iff in Hkn.
  destruct Hkn as [[k g] [<- Hkg]].
  cbn [fst snd] in Hr. rewrite (find_resumo_intervalos obs k g Hkg) in Hr.
  cbn [option_map snd] in Hr.
  exists k, g.
  match type of Hr with
  | In _ (match ?f with _ => _ end) => destruct f as [|s ms]
  end.
  - cbn [In] in Hr. destruct Hr as [<- | []]. now exists None.
  - apply in_map_iff in Hr. destruct Hr as [s' [<- _]].
    now exists (Some (fst s')).
Qed.

(** * Chronological order inside the groups *)

Section SortFacts.

Context {A : Type} (leb : A -> A -> bool).
Hypothesis leb_total : forall a b, leb a b = true \/ leb b a = true.
Hypothesis leb_trans :
  forall a b c, leb a b = true -> leb b c = true -> leb a c = true.

Lemma insert_sorted_StronglySorted (x : A) (l : list A) :
  StronglySorted (fun a b => leb a b = true) l ->
  StronglySorted (fun a b => leb a b = true) (insert_sorted leb x l).
Proof.
  induction 1 as [|y l Hl IH Hy]; simpl.
  - constructor; constructor.
  - destruct (leb x y) eqn:E.
    + constructor; [now constructor|]. constructor; [assumption|].
      apply Forall_forall. intros z Hz. rewrite Forall_forall in Hy.
      eapply leb_trans; [exact E | now apply Hy].
    + constructor; [assumption|].
      apply Forall_forall. intros z Hz.
      apply (Permutation_in _ (insert_sorted_perm leb x l)) in Hz.
      destruct Hz as [<- | Hz].
      * destruct (leb_total x y) as [H | H]; [congruence | assumption].
      * rewrite Forall_forall in Hy. now apply Hy.
Qed.

Lemma sort_by_StronglySorted (l : list A) :
  StronglySorted (fun a b => leb a b = true) (sort_by leb l).
Proof.
  induction l as [|x l IH]; simpl; [constructor|].
  now apply insert_sorted_StronglySorted.
Qed.

End SortFacts.

Lemma StronglySorted_filter {A : Type} (R : A -> A -> Prop) (p : A -> bool)
    (l : list A) :
  StronglySorted R l -> StronglySorted R (filter p l).
Proof.
  induction 1 as [|x l Hl IH Hx]; simpl; [constructor|].
  destruct (p x); [|assumption]. constructor; [assumption|].
  apply Forall_forall. intros y Hy. apply filter_In in Hy.
  rewrite Forall_forall in Hx. now apply Hx.
Qed.

Lemma StronglySorted_distinct {A K : Type} (R : A -> A -> Prop) (f : A -> K)
    (l : list A) :
  StronglySorted R l -> NoDup (map f l) ->
  StronglySorted (fun a b => R a b /\ f a <> f b) l.
Proof.
  induction 1 as [|x l Hl IH Hx]; simpl; intros Hnd; [constructor|].
  inversion Hnd as [|? ? Hnin Hnd']; subst.
  constructor; [now apply IH|].
  apply Forall_forall. intros y Hy. rewrite Forall_forall in Hx.
  split; [now apply Hx|]. intros Heq. apply Hnin. rewrite Heq.
  now apply in_map.
Qed.

Lemma StronglySorted_weaken {A : Type} (R S : A -> A -> Prop) (l : list A) :
  (forall a b, In a l -> In b l -> R a b -> S a b) ->
  StronglySorted R l -> StronglySorted S l.
Proof.
  intros HRS H. induction H as [|x l Hl IH Hx]; [constructor|].
  constructor.
  - apply IH. intros a b Ha Hb. apply HRS; now right.
  - rewrite Forall_forall in *. intros y Hy.
    apply HRS; [now left | now right | now apply Hx].
Qed.

Lemma pair_leb_total (a b : Z * Z) :
  pair_leb a b = true \/ pair_leb b a = true.
Proof.
  destruct a as [a1 a2], b as [b1 b2]. unfold pair_leb. simpl.
  rewrite !orb_true_iff, !andb_true_iff, !Z.ltb_lt, !Z.eqb_eq, !Z.leb_le.
  lia.
Qed.

Lemma pair_leb_trans (a b c : Z * Z) :
  pair_leb a b = true -> pair_leb b c = true -> pair_leb a c = true.
Proof.
  destruct a as [a1 a2], b as [b1 b2], c as [c1 c2]. unfold pair_leb. simpl.
  rewrite !orb_true_iff, !andb_true_iff, !Z.ltb_lt, !Z.eqb_eq, !Z.leb_le.
  lia.
Qed.

(** In the sorted frame every station-year group runs forward in time:
    each row is strictly earlier than every row after it, so the first
    row holds the earliest date and the last row the latest. *)
Lemma grupos_chronological (l : list Obs) (k : Z * Z) (g : list Obs) :
  NoDup (map chave_dia l) ->
  In (k, g) (grupos (sort_by ordem_dia l)) ->
  StronglySorted (fun a b => Data_Real a < Data_Real b) g.
Proof.
  intros Hnd Hin.
  assert (Hmem : forall o, In o g -> chave_ano o = k).
  { intros o Ho.
    now destruct (groupby_members pair_eqb pair_leb chave_ano pair_eqb_eq
                    _ k g o Hin Ho). }
  apply (groupby_In pair_eqb pair_leb chave_ano pair_eqb_eq) in Hin.
  destruct Hin as [Hg _].
  assert (Hs : StronglySorted
                 (fun a b => ordem_dia a b = true /\ chave_dia a <> chave_dia b)
                 (sort_by ordem_dia l)).
  { apply (StronglySorted_distinct (fun a b => ordem_dia a b = true)
             chave_dia).
    - apply sort_by_StronglySorted.
      + intros a b. apply pair_leb_total.
      + intros a b c. apply pair_leb_trans.
    - apply (Permutation_NoDup
               (Permutation_map chave_dia
                  (Permutation_sym (sort_by_perm ordem_dia l)))).
      assumption. }
  apply (StronglySorted_filter
           (fun a b => ordem_dia a b = true /\ chave_dia a <> chave_dia b)
           (fun a => pair_eqb (chave_ano a) k)) in Hs.
  apply (StronglySorted_weaken
           (fun a b => ordem_dia a b = true /\ chave_dia a <> chave_dia b)
           (fun a b => Data_Real a < Data_Real b) g);
    [|rewrite Hg; exact Hs].
  intros a b Ha Hb [Hle Hne].
  assert (Hst : m_EstacaoCodigo (melted a) = m_EstacaoCodigo (melted b)).
  { pose proof (Hmem a Ha) as Hka. pose proof (Hmem b Hb) as Hkb.
    rewrite <- Hkb in Hka. apply (f_equal fst) in Hka. exact Hka. }
  unfold ordem_dia, pair_leb, chave_dia in Hle. cbn [fst snd] in Hle.
  rewrite orb_true_iff, andb_true_iff, Z.ltb_lt, Z.eqb_eq, Z.leb_le in Hle.
  destruct (Z.eq_dec (Data_Real a) (Data_Real b)) as [Heq | Hneq]; [|lia].
  exfalso. apply Hne. unfold chave_dia. now rewrite Hst, Heq.
Qed.

(** * Properties of the metrics *)

Section Metrics.

Variable rng : Type.
Variable RandomState : Z -> rng.
Variable choice : rng -> nat -> nat -> list nat * rng.
Variable representable : Z -> bool.

Lemma to_datetime_Some (y m d t : Z) :
  to_datetime representable y m d = Some t ->
  valid_date y m d = true /\ t = days_from_civil y m d.
Proof.
  unfold to_datetime.
  destruct (valid_date y m d); simpl; [|discriminate].
  destruct (representable (days_from_civil y m d)); [|discriminate].
  intros [=]. auto.
Qed.

Lemma group_size_bound (obs : list Obs) (k : Z * Z) (g : list Obs) :
  NoDup (map chave_dia obs) ->
  Forall (data_valida representable) obs ->
  In (k, g) (grupos obs) ->
  Z.of_nat (List.length g) <= get_dias_ano (snd k).
Proof.
  intros Hnd Hv Hin.
  assert (Hmem : forall o, In o g ->
            chave_ano o = k /\ data_valida representable o).
  { intros o Ho.
    destruct (groupby_members pair_eqb pair_leb chave_ano pair_eqb_eq
                obs k g o Hin Ho) as [Hobs Hk].
    split; [assumption|]. rewrite Forall_forall in Hv. now apply Hv. }
  apply (groupby_In pair_eqb pair_leb chave_ano pair_eqb_eq) in Hin.
  destruct Hin as [Hg _].
  assert (Hndg : NoDup (map chave_dia g))
    by (rewrite Hg; now apply NoDup_map_filter).
  set (h := fun o : Obs => (m_Mes (melted o), Dia o)).
  assert (Hndh : NoDup (map h g)).
  { apply (NoDup_map_coarser chave_dia h); [assumption|].
    intros x y Hx Hy Hxy.
    destruct (Hmem x Hx) as [Hkx Hvx], (Hmem y Hy) as [Hky Hvy].
    apply to_datetime_Some in Hvx, Hvy.
    destruct Hvx as [_ Hdx], Hvy as [_ Hdy].
    unfold h in Hxy. inversion Hxy as [[Hm Hd]].
    unfold chave_ano in Hkx, Hky. rewrite <- Hky in Hkx.
    inversion Hkx as [[Hs Ha]].
    unfold chave_dia. rewrite Hs, Hdx, Hdy, Ha, Hm, Hd. reflexivity. }
  assert (Hincl : incl (map h g) (year_days (snd k))).
  { intros p Hp. apply in_map_iff in Hp. destruct Hp as [o [<- Ho]].
    destruct (Hmem o Ho) as [Hko Hvo]. apply to_datetime_Some in Hvo.
    destruct Hvo as [Hvalid _]. rewrite <- Hko. unfold chave_ano. simpl.
    now apply valid_date_year_days. }
  apply NoDup_incl_length in Hincl; [|assumption].
  rewrite length_map in Hincl. rewrite <- length_year_days. lia.
Qed.

Lemma get_dias_ano_pos (ano : Z) : 0 < get_dias_ano ano.
Proof.
  unfold get_dias_ano.
  destruct (((ano mod 4 =? 0) && negb (ano mod 100 =? 0))
            || (ano mod 400 =? 0)); lia.
Qed.



(** C6. A station-year with exactly one daily row gets the gap aggregates
    maximum = minimum = mean = 0, as numbers and not as missing values:
    in [resumo_intervalos] and, for the two columns kept, in every row of
    the final table for that station-year. *)
Theorem single_observation_gaps (obs : list Obs) (sorteadas : list Station)
    (k : Z * Z) (g : list Obs) :
  In (k, g) (grupos obs) ->
  List.length g = 1%nat ->
  (exists i, In (k, i) (resumo_intervalos (grupos obs))) /\
  (forall i, In (k, i) (resumo_intervalos (grupos obs)) ->
     Intervalo_Max i = 0%Q /\ Intervalo_Min i = 0%Q /\
     Intervalo_Medio i = 0%Q) /\
  (forall m, In m (agregar obs sorteadas) ->
     (f_EstacaoCodigo m, f_Ano m) = k ->
     dias_com_dados m = 1%nat /\
     f_Intervalo_Max m = Some 0%Q /\
     f_Intervalo_Medio m = Some (round2 0) /\
     (round2 0 == 0)%Q).
Proof.
  intros Hin Hlen.
  destruct g as [|o [|o' g']]; try discriminate. clear Hlen.
  assert (Huniq : forall g2, In (k, g2) (grupos obs) -> g2 = [o]).
  { intros g2 Hin2. unfold grupos in *.
    apply (groupby_In pair_eqb pair_leb chave_ano pair_eqb_eq) in Hin, Hin2.
    destruct Hin as [Hg _], Hin2 as [Hg2 _]. congruence. }
  split; [|split].
  - exists (intervalos_do_grupo [o]). unfold resumo_intervalos.
    apply in_map_iff. now exists (k, [o]).
  - intros i Hi. unfold resumo_intervalos in Hi. apply in_map_iff in Hi.
    destruct Hi as [[k2 g2] [Heq Hin2]]. simpl in Heq.
    inversion Heq; subst. rewrite (Huniq g2 Hin2).
    now rewrite intervalos_single.
  - intros m Hm Hk. apply agregar_In in Hm.
    destruct Hm as [k2 [g2 [est [Hin2 ->]]]].
    cbn [finalizar f_EstacaoCodigo f_Ano] in Hk.
    assert (k2 = k) by (destruct k2; exact Hk). subst k2.
    rewrite (Huniq g2 Hin2).
    cbn [finalizar dias_com_dados f_Intervalo_Max f_Intervalo_Medio
         option_map List.length].
    rewrite intervalos_single. repeat split; reflexivity.
Qed.

(** C10. In a station-year with n >= 2 daily rows the gap column holds
    n - 1 values (the first row has none), and the mean before rounding is
    the span from the first to the last date divided by n - 1. *)
Theorem gap_mean_telescopes (obs : list Obs) (k : Z * Z)
    (first : Obs) (rest : list Obs) :
  In (k, first :: rest) (grupos obs) ->
  (2 <= List.length (first :: rest))%nat ->
  let g := first :: rest in
  List.length (present (gap g)) = (List.length g - 1)%nat /\
  hd_error (gap g) = Some None /\
  In (k, intervalos_do_grupo g) (resumo_intervalos (grupos obs)) /\
  (forall i, In (k, i) (resumo_intervalos (grupos obs)) ->
     (Intervalo_Medio i ==
      inject_Z (Data_Real (last g first) - Data_Real first)
      / inject_Z (Z.of_nat (List.length g) - 1))%Q).
Proof.
  intros Hin Hlen g.
  assert (Hrest : rest <> [])
    by (destruct rest; [simpl in Hlen; lia | discriminate]).
  destruct (gap_of_group first rest) as [Hgap [Hcount Hsum]].
  split; [|split; [|split]].
  - unfold g. rewrite Hcount. simpl. lia.
  - unfold g. now rewrite Hgap.
  - unfold resumo_intervalos. apply in_map_iff. now exists (k, g).
  - intros i Hi. unfold resumo_intervalos in Hi. apply in_map_iff in Hi.
    destruct Hi as [[k2 g2] [Heq Hin2]]. simpl in Heq. inversion Heq; subst.
    unfold grupos in *.
    apply (groupby_In pair_eqb pair_leb chave_ano pair_eqb_eq) in Hin, Hin2.
    destruct Hin as [Hg _], Hin2 as [Hg2 _]. rewrite Hg2, <- Hg.
    rewrite (intervalo_medio_of_group first rest Hrest).
    rewrite Qsum_inject_Z, Hsum. unfold g.
    rewrite last_cons_default.
    replace (Z.of_nat (List.length (first :: rest)) - 1)
      with (Z.of_nat (List.length rest)) by (simpl List.length; lia).
    reflexivity.
Qed.

End Metrics.

(** * Sampler *)

Lemma take_rows_cons {A : Type} (l : list A) (i : nat) (idx : list nat) :
  take_rows l (i :: idx) =
    match nth_error l i with Some a => [a] | None => [] end
    ++ take_rows l idx.
Proof. reflexivity. Qed.

Lemma take_rows_In {A : Type} (l : list A) (idx : list nat) (a : A) :
  In a (take_rows l idx) <-> exists j, In j idx /\ nth_error l j = Some a.
Proof.
  unfold take_rows. rewrite in_flat_map. split.
  - intros [j [Hj Ha]]. exists j. split; [assumption|].
    destruct (nth_error l j); [|contradiction].
    destruct Ha as [-> | []]. reflexivity.
  - intros [j [Hj Ha]]. exists j. split; [assumption|]. rewrite Ha. now left.
Qed.

Lemma take_rows_incl {A : Type} (l : list A) (idx : list nat) (a : A) :
  In a (take_rows l idx) -> In a l.
Proof.
  rewrite take_rows_In. intros [j [_ Hj]]. eapply nth_error_In; eassumption.
Qed.

Lemma take_rows_length {A : Type} (l : list A) (idx : list nat) :
  Forall (fun i => (i < List.length l)%nat) idx ->
  List.length (take_rows l idx) = List.length idx.
Proof.
  induction idx as [|i idx IH]; intros H; [reflexivity|].
  inversion H as [|? ? Hi Hrest]; subst.
  rewrite take_rows_cons, length_app, IH by assumption.
  apply nth_error_Some in Hi. destruct (nth_error l i); [reflexivity|].
  now contradiction Hi.
Qed.

Lemma take_rows_NoDup {A : Type} (l : list A) (idx : list nat) :
  NoDup l -> NoDup idx -> NoDup (take_rows l idx).
Proof.
  intros Hl. induction idx as [|i idx IH]; intros Hidx; [constructor|].
  inversion Hidx as [|? ? Hni Hnd]; subst. rewrite take_rows_cons.
  destruct (nth_error l i) as [a|] eqn:E; [|now apply IH].
  simpl. constructor; [|now apply IH].
  intros Hin. apply take_rows_In in Hin. destruct Hin as [j [Hj Hja]].
  assert (i = j).
  { apply (proj1 (NoDup_nth_error l) Hl).
    - apply nth_error_Some. congruence.
    - congruence. }
  subst j. contradiction.
Qed.

Lemma filter_all {A : Type} (p : A -> bool) (l : list A) :
  (forall a, In a l -> p a = true) -> filter p l = l.
Proof.
  induction l as [|x l IH]; intros H; [reflexivity|]. simpl.
  rewrite (H x) by now left. f_equal. apply IH. intros a Ha. apply H.
  now right.
Qed.

Lemma filter_none {A : Type} (p : A -> bool) (l : list A) :
  (forall a, In a l -> p a = false) -> filter p l = [].
Proof.
  induction l as [|x l IH]; intros H; [reflexivity|]. simpl.
  rewrite (H x) by now left. apply IH. intros a Ha. apply H. now right.
Qed.

(** The float product stays between the integers that enclose the exact
    product. *)
Lemma float_product_between (frac : Q) (n : nat) (a b : Z) :
  0 <= a -> (Z.of_nat n <= 2 ^ 53 -> b <= 2 ^ 53) ->
  (inject_Z a <= frac * inject_Z (Z.of_nat n) <= inject_Z b)%Q ->
  (inject_Z a <= float_product frac n <= inject_Z b)%Q.
Proof.
  intros Ha Hb Hx. unfold float_product.
  destruct (Z.leb_spec (Z.of_nat n) (2 ^ 53)) as [Hn | Hn]; [|assumption].
  apply binary64_between; auto.
Qed.

Lemma float_product_half (frac : Q) (n : nat) :
  (0 <= frac * inject_Z (Z.of_nat n) <= 1 # 2)%Q ->
  (0 <= float_product frac n <= 1 # 2)%Q.
Proof.
  intros [H0 H1]. unfold float_product.
  destruct (Z.leb_spec (Z.of_nat n) (2 ^ 53)) as [Hn | Hn]; [|now split].
  split; [now apply binary64_nonneg|].
  rewrite <- binary64_half. now apply binary64_mono.
Qed.

Lemma sample_size_le (frac : Q) (n : nat) :
  (0 <= frac <= 1)%Q -> (sample_size frac n <= n)%nat.
Proof.
  intros [H0 H1]. unfold sample_size.
  assert (Hn : (0 <= inject_Z (Z.of_nat n))%Q)
    by (rewrite <- (Zle_Qle 0); lia).
  destruct (float_product_between frac n 0 (Z.of_nat n)) as [_ Hhi];
    [lia | auto | change (inject_Z 0) with 0%Q; split; nra |].
  apply round_half_even_le in Hhi. lia.
Qed.

(** The count differs from the exact product [frac * n] by at most one:
    the float product and its rounding stay between the two integers
    that enclose the exact product. *)
Lemma sample_size_close (frac : Q) (n : nat) :
  (0 <= frac <= 1)%Q ->
  (Qabs (inject_Z (Z.of_nat (sample_size frac n))
         - frac * inject_Z (Z.of_nat n)) <= 1)%Q.
Proof.
  intros [H0 H1]. unfold sample_size.
  assert (Hn : (0 <= inject_Z (Z.of_nat n))%Q)
    by (rewrite <- (Zle_Qle 0); lia).
  set (x := (frac * inject_Z (Z.of_nat n))%Q).
  assert (Hx : (0 <= x <= inject_Z (Z.of_nat n))%Q) by (unfold x; split; nra).
  assert (Hfl : 0 <= Qfloor x).
  { change 0 with (Qfloor 0). apply Qfloor_resp_le. apply Hx. }
  assert (Hce : Qceiling x <= Z.of_nat n).
  { rewrite <- (Qceiling_Z (Z.of_nat n)). apply Qceiling_resp_le. apply Hx. }
  pose proof (Qfloor_le x) as Hf1. pose proof (Qlt_floor x) as Hf2.
  pose proof (Qle_ceiling x) as Hc1. pose proof (Qceiling_lt x) as Hc2.
  rewrite inject_Z_plus in Hf2. change (inject_Z 1) with 1%Q in Hf2.
  unfold Z.sub in Hc2. rewrite inject_Z_plus in Hc2.
  change (inject_Z (- (1))) with (- (1))%Q in Hc2.
  destruct (float_product_between frac n (Qfloor x) (Qceiling x))
    as [Hlo Hhi]; [assumption | lia | fold x; split; assumption |].
  apply round_half_even_ge in Hlo. apply round_half_even_le in Hhi.
  rewrite Z2Nat.id by lia.
  rewrite Zle_Qle in Hlo, Hhi.
  apply Qabs_Qle_condition. split; lra.
Qed.

Section Sampler.

Variable rng : Type.
Variable RandomState : Z -> rng.
Variable choice : rng -> nat -> nat -> list nat * rng.
Hypothesis choice_ok : choice_spec choice.

Variable frac : Q.
Hypothesis frac_range : (0 <= frac <= 1)%Q.

Lemma sample_size_0 : sample_size frac 0 = 0%nat.
Proof. pose proof (sample_size_le frac 0 frac_range). lia. Qed.

Lemma da_regiao_app (R : string) (a b : list Station) :
  da_regiao R (a ++ b) = da_regiao R a ++ da_regiao R b.
Proof. apply filter_app. Qed.

Lemma da_regiao_same (R : string) (l : list Station) :
  (forall s, In s l -> fst s = R) -> da_regiao R l = l.
Proof.
  intros H. apply filter_all. intros s Hs. apply String.eqb_eq. now apply H.
Qed.

Lemma da_regiao_other (R k : string) (l : list Station) :
  (forall s, In s l -> fst s = k) -> k <> R -> da_regiao R l = [].
Proof.
  intros H Hk. apply filter_none. intros s Hs. apply String.eqb_neq.
  rewrite (H s Hs). assumption.
Qed.

Lemma sample_groups_spec (gs : list (string * list Station)) :
  groups_ok gs -> NoDup (map fst gs) ->
  forall g0,
    let sel := fst (fst (sample_groups rng choice frac gs g0)) in
    (forall s, In s sel -> exists k g, In (k, g) gs /\ In s g) /\
    NoDup sel /\
    (forall R g, In (R, g) gs ->
       List.length (da_regiao R sel) = sample_size frac (List.length g)) /\
    (forall R, ~ In R (map fst gs) -> da_regiao R sel = []).
Proof.
  induction gs as [|[k grp] rest IH]; intros Hok Hnd g0.
  - simpl. repeat split; auto; try constructor; contradiction.
  - cbn [sample_groups].
    destruct (choice g0 (List.length grp)
                (sample_size frac (List.length grp))) as [idx g1] eqn:Ec.
    destruct (sample_groups rng choice frac rest g1) as [[sel' evs] g2] eqn:Es.
    cbn [fst].
    inversion Hnd as [|? ? Hk Hnd']; subst.
    assert (Hok' : groups_ok rest)
      by (intros k' g' H'; apply Hok; now right).
    specialize (IH Hok' Hnd' g1). rewrite Es in IH. cbn [fst] in IH.
    destruct IH as [IHa [IHb [IHc IHd]]].
    destruct (Hok k grp (or_introl eq_refl)) as [Hgnd Hgk].
    destruct (choice_ok g0 (List.length grp)
                (sample_size frac (List.length grp))
                (sample_size_le frac _ frac_range)) as [Hlen [Hidx Hlt]].
    rewrite Ec in Hlen, Hidx, Hlt. cbn [fst] in Hlen, Hidx, Hlt.
    assert (Htk : forall s, In s (take_rows grp idx) -> fst s = k)
      by (intros s Hs; apply Hgk; eapply take_rows_incl; eassumption).
    assert (Hsel'k : forall s, In s sel' -> fst s <> k).
    { intros s Hs Heq. destruct (IHa s Hs) as [k' [g' [Hin' Hsg']]].
      destruct (Hok' k' g' Hin') as [_ Hfst]. apply Hk.
      rewrite <- Heq, (Hfst s Hsg').
      apply in_map_iff. now exists (k', g'). }
    split; [|split; [|split]].
    + intros s Hs. apply in_app_or in Hs. destruct Hs as [Hs | Hs].
      * exists k, grp. split; [now left|]. eapply take_rows_incl; eassumption.
      * destruct (IHa s Hs) as [k' [g' [Hin' Hsg']]]. exists k', g'.
        split; [now right | assumption].
    + apply NoDup_app; [now apply take_rows_NoDup | assumption |].
      intros s Hs Hs'. now apply (Hsel'k s Hs'), Htk.
    + intros R g HR. rewrite da_regiao_app, length_app.
      destruct HR as [HR | HR].
      * inversion HR; subst.
        rewrite (da_regiao_same R _ Htk), (IHd R Hk), take_rows_length, Hlen
          by assumption.
        simpl. lia.
      * assert (k <> R).
        { intros ->. apply Hk. apply in_map_iff. now exists (R, g). }
        rewrite (da_regiao_other R k _ Htk) by assumption.
        simpl. now apply IHc.
    + intros R HR. rewrite da_regiao_app.
      assert (k <> R) by (intros ->; apply HR; now left).
      rewrite (da_regiao_other R k _ Htk) by assumption.
      simpl. apply IHd. intros Hin. apply HR. now right.
Qed.

Lemma estacoes_unicas_NoDup (df : DataFrame) : NoDup (estacoes_unicas df).
Proof.
  unfold estacoes_unicas.
  pose proof (drop_duplicates_NoDup station_eqb (fun s : Station => s)
                station_eqb_eq
                (map (fun r => (estado r, EstacaoCodigo r)) (rows df))) as H.
  now rewrite map_id in H.
Qed.

Lemma groups_of_stations_ok (l : list Station) :
  NoDup l -> groups_ok (groupby String.eqb String.leb fst l).
Proof.
  intros Hl k g Hin. split.
  - apply (groupby_In String.eqb String.leb fst String.eqb_eq) in Hin.
    destruct Hin as [-> _]. now apply NoDup_filter.
  - intros s Hs.
    now destruct (groupby_members String.eqb String.leb fst String.eqb_eq
                    l k g s Hin Hs).
Qed.

(** The result of the seeded group sample on a frame of distinct
    stations. *)
Lemma groupby_sample_ok (l : list Station) (seed : Z) (w : World rng) :
  NoDup l ->
  exists sel evs,
    groupby_sample rng RandomState choice l frac (Some seed) w
      = (Ok sel, mkWorld (np_random w) (trace w ++ evs)) /\
    NoDup sel /\ incl sel l /\
    forall R, List.length (da_regiao R sel)
              = sample_size frac (List.length (da_regiao R l)).
Proof.
  intros Hl. destruct l as [|s0 l0] eqn:El.
  - exists [], []. simpl. unfold ret. rewrite app_nil_r. destruct w.
    repeat split; auto; try constructor.
    + intros x [].
    + intros R. simpl. now rewrite sample_size_0.
  - rewrite <- El in *.
    set (gs := groupby String.eqb String.leb fst l).
    pose proof (sample_groups_spec gs (groups_of_stations_ok l Hl)
                  (groupby_keys_NoDup String.eqb String.leb fst
                     String.eqb_eq l) (RandomState seed)) as Hspec.
    destruct (sample_groups rng choice frac gs (RandomState seed))
      as [[sel evs] g1] eqn:Es.
    cbn [fst] in Hspec. destruct Hspec as [Ha [Hb [Hc Hd]]].
    exists sel, evs. split; [|split; [assumption|split]].
    + assert (Hp : process_sampling_size rng frac w = (Ok tt, w)).
      { unfold process_sampling_size. destruct frac_range as [H0 H1].
        apply Qle_bool_iff in H0, H1. now rewrite H0, H1. }
      unfold groupby_sample. subst gs.
      destruct l as [|s1 l1]; [discriminate El|].
      rewrite (bind_ok_eq _ _ _ _ _ Hp). now rewrite Es.
    + intros s Hs. destruct (Ha s Hs) as [k [g [Hin Hsg]]].
      now destruct (groupby_members String.eqb String.leb fst
                      String.eqb_eq l k g s Hin Hsg).
    + intros R. destruct (in_dec string_dec R (map fst gs)) as [HR | HR].
      * apply in_map_iff in HR. destruct HR as [[k g] [Hk Hin]].
        simpl in Hk. subst k. rewrite (Hc R g Hin).
        apply (groupby_In String.eqb String.leb fst String.eqb_eq) in Hin.
        destruct Hin as [-> _]. reflexivity.
      * rewrite (Hd R HR).
        assert (Hnone : da_regiao R l = []).
        { apply filter_none. intros s Hs. apply String.eqb_neq.
          intros Hfst. apply HR.
          pose proof (groupby_has_key String.eqb String.leb fst
                        String.eqb_eq l s Hs) as Hg.
          apply in_map_iff. eexists. split; [|exact Hg]. exact Hfst. }
        rewrite Hnone. simpl. now rewrite sample_size_0.
Qed.

Lemma estacoes_sorteadas_ok (df : DataFrame) (seed : Z) (w : World rng) :
  has_columns ["estado"; "EstacaoCodigo"]%string df = true ->
  exists sel evs,
    estacoes_sorteadas rng RandomState choice df frac seed w
      = (Ok sel, mkWorld (np_random w) (trace w ++ evs)) /\
    NoDup sel /\ incl sel (estacoes_unicas df) /\
    forall R, List.length (da_regiao R sel)
              = sample_size frac
                  (List.length (da_regiao R (estacoes_unicas df))).
Proof.
  intros Hc. unfold estacoes_sorteadas.
  rewrite (bind_ok_eq _ _ _ _ _ (require_ok _ _ w Hc)).
  apply groupby_sample_ok, estacoes_unicas_NoDup.
Qed.

(** C7. With a fraction in (0, 1], whatever the seed, the sampler returns
    stations of the input, none twice, and in every region the number of
    stations it keeps differs from [frac * n] by at most one, [n] being
    the number of distinct stations of the region. *)
Theorem stratified_sample_size (df : DataFrame) (seed : Z) (w : World rng)
    (R : string) :
  has_columns ["estado"; "EstacaoCodigo"]%string df = true ->
  (0 < frac)%Q ->
  exists sel w',
    estacoes_sorteadas rng RandomState choice df frac seed w = (Ok sel, w') /\
    NoDup sel /\ incl sel (estacoes_unicas df) /\
    (Qabs (inject_Z (Z.of_nat (List.length (da_regiao R sel)))
           - frac * inject_Z (Z.of_nat
                       (List.length (da_regiao R (estacoes_unicas df)))))
     <= 1)%Q.
Proof.
  intros Hc Hpos.
  destruct (estacoes_sorteadas_ok df seed w Hc)
    as [sel [evs [Hs [Hnd [Hi Hn]]]]].
  exists sel, (mkWorld (np_random w) (trace w ++ evs)).
  repeat split; try assumption.
  rewrite Hn. apply sample_size_close. exact frac_range.
Qed.

End Sampler.

(** * Failures *)

Section Failures.

Variable rng : Type.
Variable RandomState : Z -> rng.
Variable choice : rng -> nat -> nat -> list nat * rng.
Variable representable : Z -> bool.

Lemma require_cases (labels cols : list string) (w : World rng) :
  require rng labels cols w = (Ok tt, w) \/
  exists missing, require rng labels cols w = (Err (KeyError missing), w).
Proof.
  unfold require.
  destruct (filter (fun c => negb (in_columns c cols)) labels);
    [left | right; eexists]; reflexivity.
Qed.

Lemma drop_duplicates_nonempty {A K : Type} (eqb : K -> K -> bool)
    (key : A -> K) (l : list A) :
  l <> [] -> drop_duplicates eqb key l <> [].
Proof. destruct l; [contradiction | discriminate]. Qed.

Lemma estacoes_unicas_nonempty (df : DataFrame) :
  rows df <> [] -> estacoes_unicas df <> [].
Proof.
  intros H. apply drop_duplicates_nonempty.
  destruct (rows df); [contradiction | discriminate].
Qed.

Lemma process_sampling_size_rejects (frac : Q) (w : World rng) :
  (frac < 0 \/ 1 < frac)%Q ->
  exists msg, process_sampling_size rng frac w = (Err (ValueError msg), w).
Proof.
  intros H. unfold process_sampling_size.
  destruct (Qle_bool frac 1) eqn:E1; simpl; [|eexists; reflexivity].
  destruct (Qle_bool 0 frac) eqn:E0; simpl; [|eexists; reflexivity].
  apply Qle_bool_iff in E0, E1. exfalso. destruct H; lra.
Qed.

Lemma groupby_sample_rejects (l : list Station) (frac : Q)
    (random_state : option Z) (w : World rng) :
  l <> [] -> (frac < 0 \/ 1 < frac)%Q ->
  exists msg,
    groupby_sample rng RandomState choice l frac random_state w
      = (Err (ValueError msg), w).
Proof.
  intros Hl Hf. destruct l; [contradiction|]. unfold groupby_sample.
  destruct (process_sampling_size_rejects frac w Hf) as [msg Hp].
  exists msg. now rewrite (bind_err_eq _ _ _ _ _ Hp).
Qed.

(** [melt] on a header that lacks one of its [id_vars]: a [KeyError],
    unless the header already has a column named [Valor], which [melt]
    refuses first. *)
Lemma melt_com_datas_missing (id_vars cols : list string)
    (amostra : list Row) (c : string) (w : World rng) :
  In c id_vars -> in_columns c cols = false ->
  exists e,
    melt_com_datas rng representable id_vars cols amostra w = (Err e, w) /\
    (in_columns "Valor" cols = false -> exists labels, e = KeyError labels) /\
    (in_columns "Valor" cols = true -> exists msg, e = ValueError msg).
Proof.
  intros Hin Hc. unfold melt_com_datas.
  destruct (in_columns "Valor" cols) eqn:E.
  - destruct (melt_value_name_clash id_vars cols (colunas_existentes cols)
                amostra w E) as [msg Hm].
    exists (ValueError msg). rewrite (bind_err_eq _ _ _ _ _ Hm).
    split; [reflexivity|]. split; [discriminate | now exists msg].
  - destruct (require_missing id_vars cols c w Hin Hc) as [labels Hr].
    exists (KeyError labels).
    rewrite (bind_err_eq _ _ _ _ _
               (eq_trans (melt_without_value_name _ _ _ _ _ E)
                         (bind_err_eq _ _ _ _ _ Hr))).
    split; [reflexivity|]. split; [now exists labels | discriminate].
Qed.

Lemma blindagem_mes_cases (cols : list string) (amostra : list Row)
    (w : World rng) :
  (exists a, blindagem_mes rng cols amostra w = (Ok a, w)) \/
  (exists labels,
     blindagem_mes rng cols amostra w = (Err (KeyError labels), w)).
Proof.
  unfold blindagem_mes.
  destruct amostra as [|r l]; [left; eexists; reflexivity|].
  destruct (require_cases ["EstacaoCodigo"; "Ano"; "Mes"]%string cols w)
    as [H | [labels H]].
  - left. eexists. rewrite (bind_ok_eq _ _ _ _ _ H). reflexivity.
  - right. exists labels. now rewrite (bind_err_eq _ _ _ _ _ H).
Qed.

Lemma blindagem_mes_nil (cols : list string) (w : World rng) :
  blindagem_mes rng cols [] w = (Ok [], w).
Proof. reflexivity. Qed.

Lemma blindagem_mes_missing (cols : list string) (amostra : list Row)
    (c : string) (w : World rng) :
  amostra <> [] ->
  In c ["EstacaoCodigo"; "Ano"; "Mes"]%string -> in_columns c cols = false ->
  exists labels, blindagem_mes rng cols amostra w = (Err (KeyError labels), w).
Proof.
  intros Hne Hin Hc. unfold blindagem_mes.
  destruct amostra as [|r l]; [contradiction|].
  destruct (require_missing _ cols c w Hin Hc) as [labels Hr].
  exists labels. now rewrite (bind_err_eq _ _ _ _ _ Hr).
Qed.

(** After the sample is drawn, a required label that is absent stops the
    run at the month de-duplication or, at the latest, at [melt]. *)
Lemma normalizar_fails (df : DataFrame) (sorteadas : list Station)
    (c : string) (w : World rng) :
  In c colunas_obrigatorias -> in_columns c (columns df) = false ->
  exists e, normalizar rng representable df sorteadas w = (Err e, w).
Proof.
  intros Hin Hc. unfold normalizar.
  destruct (blindagem_mes_cases (columns df) (df_amostra df sorteadas) w)
    as [[a Hb] | [labels Hb]].
  - rewrite (bind_ok_eq _ _ _ _ _ Hb).
    destruct (melt_com_datas_missing
                ["EstacaoCodigo"; "estado"; "Ano"; "Mes"]%string
                (columns df) a c w Hin Hc) as [e [Hm _]].
    exists e. now rewrite (bind_err_eq _ _ _ _ _ Hm).
  - exists (KeyError labels). now rewrite (bind_err_eq _ _ _ _ _ Hb).
Qed.

(** The kind of the error when the absent label is one that the month
    de-duplication reads: a [KeyError], unless the sample has no rows (the
    de-duplication of an empty frame looks no label up) and the header has
    a column named [Valor]. *)
Lemma normalizar_missing (df : DataFrame) (sorteadas : list Station)
    (c : string) (w : World rng) :
  In c ["EstacaoCodigo"; "Ano"; "Mes"]%string ->
  in_columns c (columns df) = false ->
  exists e,
    normalizar rng representable df sorteadas w = (Err e, w) /\
    (df_amostra df sorteadas <> [] \/ in_columns "Valor" (columns df) = false ->
       exists labels, e = KeyError labels) /\
    (df_amostra df sorteadas = [] -> in_columns "Valor" (columns df) = true ->
       exists msg, e = ValueError msg).
Proof.
  intros Hin Hc. unfold normalizar.
  assert (Hin4 : In c ["EstacaoCodigo"; "estado"; "Ano"; "Mes"]%string)
    by (cbn [In] in *; tauto).
  destruct (df_amostra df sorteadas) as [|r l] eqn:Ea.
  - rewrite (bind_ok_eq _ _ _ _ _ (blindagem_mes_nil (columns df) w)).
    destruct (melt_com_datas_missing
                ["EstacaoCodigo"; "estado"; "Ano"; "Mes"]%string
                (columns df) [] c w Hin4 Hc) as [e [Hm [Hk Hv]]].
    exists e. rewrite (bind_err_eq _ _ _ _ _ Hm).
    split; [reflexivity|]. split.
    + intros [Hne | Hval]; [now contradiction Hne | auto].
    + auto.
  - destruct (blindagem_mes_missing (columns df) (r :: l) c w)
      as [labels Hb]; [discriminate | assumption | assumption |].
    exists (KeyError labels). rewrite (bind_err_eq _ _ _ _ _ Hb).
    split; [reflexivity|]. split; [now exists labels | discriminate].
Qed.

Lemma groupby_sample_runs (l : list Station) (frac : Q) (seed : Z)
    (w : World rng) :
  (0 <= frac <= 1)%Q ->
  exists sel evs,
    groupby_sample rng RandomState choice l frac (Some seed) w
      = (Ok sel, mkWorld (np_random w) (trace w ++ evs)).
Proof.
  intros [H0 H1]. unfold groupby_sample. destruct l as [|s l].
  - exists [], []. unfold ret. rewrite app_nil_r. now destruct w.
  - assert (Hp : process_sampling_size rng frac w = (Ok tt, w)).
    { unfold process_sampling_size.
      apply Qle_bool_iff in H0, H1. now rewrite H0, H1. }
    rewrite (bind_ok_eq _ _ _ _ _ Hp).
    destruct (sample_groups rng choice frac
                (groupby String.eqb String.leb fst (s :: l))
                (RandomState seed)) as [[sel evs] g1].
    now exists sel, evs.
Qed.

(** C2, as the code has it. On a table with at least one row and the
    columns [estado] and [EstacaoCodigo], a fraction below 0 or above 1
    makes the sampler, the metrics pipeline and the stability test fail
    with a [ValueError]; no draw is made and the world is left as it was.
    (A fraction of 0 is not rejected.) *)
Theorem fraction_out_of_range_rejected (df : DataFrame) (frac : Q) (seed : Z)
    (w : World rng) :
  has_columns ["estado"; "EstacaoCodigo"]%string df = true ->
  rows df <> [] ->
  (frac < 0 \/ 1 < frac)%Q ->
  exists msg,
    estacoes_sorteadas rng RandomState choice df frac seed w
      = (Err (ValueError msg), w) /\
    processar_dados_complexos rng RandomState choice representable df frac w
      = (Err (ValueError msg), w) /\
    executar_teste_estabilidade rng RandomState choice representable df frac w
      = (Err (ValueError msg), w).
Proof.
  intros Hc Hrows Hf.
  destruct (process_sampling_size_rejects frac w Hf) as [msg Hp].
  assert (Hs' : forall s,
             estacoes_sorteadas rng RandomState choice df frac s w
               = (Err (ValueError msg), w)).
  { intros s. unfold estacoes_sorteadas.
    rewrite (bind_ok_eq _ _ _ _ _ (require_ok _ _ w Hc)).
    unfold groupby_sample.
    pose proof (estacoes_unicas_nonempty df Hrows) as Hne.
    destruct (estacoes_unicas df); [contradiction|].
    now rewrite (bind_err_eq _ _ _ _ _ Hp). }
  exists msg. split; [apply Hs'|]. split.
  - unfold processar_dados_complexos.
    now rewrite (bind_err_eq _ _ _ _ _ (Hs' 42)).
  - unfold executar_teste_estabilidade, seeds_para_testar.
    cbn [laco]. unfold iteracao, df_resumo.
    now rewrite (bind_err_eq _ _ _ _ _
                   (bind_err_eq _ _ _ _ _
                      (bind_err_eq _ _ _ _ _ (Hs' 42)))).
Qed.

(** C3, as the code has it. A table that lacks one of [EstacaoCodigo],
    [estado], [Ano], [Mes] never yields a table: the run ends in an error.
    When the absent column is [estado] or [EstacaoCodigo] the error is a
    [KeyError] raised before any draw, the world untouched. When both are
    there (so [Ano] or [Mes] is the absent one) the sampler runs first. On
    a table with rows and a fraction outside [0, 1] it raises its
    [ValueError], nothing drawn. Otherwise it returns its selection, whose
    draws stay in the trace, and the run fails after it: with a [KeyError],
    unless the sample has no rows and the header has a column named
    [Valor], in which case the error is the [ValueError] of [melt]. *)
Theorem missing_column_fails (df : DataFrame) (frac : Q) (w : World rng)
    (c : string) :
  In c colunas_obrigatorias ->
  in_columns c (columns df) = false ->
  let main :=
    processar_dados_complexos rng RandomState choice representable df frac in
  (exists e, fst (main w) = Err e) /\
  (c = "estado"%string \/ c = "EstacaoCodigo"%string ->
     exists labels, main w = (Err (KeyError labels), w)) /\
  (has_columns ["estado"; "EstacaoCodigo"]%string df = true ->
   rows df <> [] -> (frac < 0 \/ 1 < frac)%Q ->
     exists msg, main w = (Err (ValueError msg), w)) /\
  (has_columns ["estado"; "EstacaoCodigo"]%string df = true ->
   rows df = [] \/ (0 <= frac <= 1)%Q ->
     exists sorteadas evs e,
       estacoes_sorteadas rng RandomState choice df frac 42 w
         = (Ok sorteadas, mkWorld (np_random w) (trace w ++ evs)) /\
       main w = (Err e, mkWorld (np_random w) (trace w ++ evs)) /\
       (df_amostra df sorteadas <> [] \/
        in_columns "Valor" (columns df) = false ->
          exists labels, e = KeyError labels) /\
       (df_amostra df sorteadas = [] ->
        in_columns "Valor" (columns df) = true ->
          exists msg, e = ValueError msg)).
Proof.
  intros Hin Hc main.
  split; [|split; [|split]].
  - destruct (estacoes_sorteadas rng RandomState choice df frac 42 w)
      as [[sorteadas | e] w1] eqn:Hs.
    + destruct (normalizar_fails df sorteadas c w1 Hin Hc) as [e Hn].
      exists e. unfold main, processar_dados_complexos.
      rewrite (bind_ok_eq _ _ _ _ _ Hs).
      now rewrite (bind_err_eq _ _ _ _ _ Hn).
    + exists e. unfold main, processar_dados_complexos.
      now rewrite (bind_err_eq _ _ _ _ _ Hs).
  - intros Hce.
    assert (Hin2 : In c ["estado"; "EstacaoCodigo"]%string)
      by (destruct Hce as [-> | ->]; simpl; auto).
    destruct (require_missing _ (columns df) c w Hin2 Hc) as [labels Hr].
    exists labels. unfold main, processar_dados_complexos, estacoes_sorteadas.
    now rewrite (bind_err_eq _ _ _ _ _ (bind_err_eq _ _ _ _ _ Hr)).
  - intros Hcols Hrows Hf.
    destruct (groupby_sample_rejects (estacoes_unicas df) frac (Some 42) w
                (estacoes_unicas_nonempty df Hrows) Hf) as [msg Hg].
    exists msg.
    assert (Hs : estacoes_sorteadas rng RandomState choice df frac 42 w
                 = (Err (ValueError msg), w)).
    { unfold estacoes_sorteadas.
      now rewrite (bind_ok_eq _ _ _ _ _ (require_ok _ _ w Hcols)). }
    unfold main, processar_dados_complexos.
    now rewrite (bind_err_eq _ _ _ _ _ Hs).
  - intros Hcols Hf.
    assert (Hs : exists sel evs,
               estacoes_sorteadas rng RandomState choice df frac 42 w
               = (Ok sel, mkWorld (np_random w) (trace w ++ evs))).
    { unfold estacoes_sorteadas.
      rewrite (bind_ok_eq _ _ _ _ _ (require_ok _ _ w Hcols)).
      destruct Hf as [Hnil | Hrange].
      - unfold estacoes_unicas. rewrite Hnil. exists [], [].
        unfold groupby_sample, drop_duplicates, ret. cbn.
        rewrite app_nil_r. now destruct w.
      - apply groupby_sample_runs. assumption. }
    destruct Hs as [sel [evs Hs]].
    assert (Hin3 : In c ["EstacaoCodigo"; "Ano"; "Mes"]%string).
    { unfold has_columns in Hcols. cbn [forallb] in Hcols.
      rewrite !andb_true_iff in Hcols. destruct Hcols as [He [Hcod _]].
      cbn [In colunas_obrigatorias] in Hin. cbn [In].
      destruct Hin as [<- | [<- | [<- | [<- | []]]]]; auto;
        rewrite Hc in *; discriminate. }
    destruct (normalizar_missing df sel c
                (mkWorld (np_random w) (trace w ++ evs)) Hin3 Hc)
      as [e [Hn [Hk Hv]]].
    exists sel, evs, e. split; [assumption|]. split; [|split; assumption].
    unfold main, processar_dados_complexos.
    rewrite (bind_ok_eq _ _ _ _ _ Hs).
    now rewrite (bind_err_eq _ _ _ _ _ Hn).
Qed.

End Failures.

(** * Stability test *)

Lemma chuva_labels_parse (s : string) :
  In s (map snd colunas_chuva) ->
  exists d, int_of_string (str_replace_empty "Chuva" s) = Some d.
Proof.
  assert (H : forallb
                (fun s => match int_of_string (str_replace_empty "Chuva" s) with
                          | Some _ => true
                          | None => false
                          end) (map snd colunas_chuva) = true)
    by (vm_compute; reflexivity).
  rewrite forallb_forall in H. intros Hs. specialize (H s Hs).
  destruct (int_of_string (str_replace_empty "Chuva" s)) as [d|];
    [now exists d | discriminate].
Qed.

Section Stability.

Variable rng : Type.
Variable RandomState : Z -> rng.
Variable choice : rng -> nat -> nat -> list nat * rng.
Variable representable : Z -> bool.

Lemma com_Dia_ok (l : list Melted) (w : World rng) :
  Forall (fun m => In (Dia_str m) (map snd colunas_chuva)) l ->
  exists r, com_Dia rng l w = (Ok r, w).
Proof.
  induction l as [|m l IH]; intros H; [now exists []|].
  inversion H as [|? ? Hm Hl]; subst.
  destruct (chuva_labels_parse _ Hm) as [d Hd].
  destruct (IH Hl) as [r Hr]. exists ((m, d) :: r).
  cbn [com_Dia]. rewrite Hd. now rewrite (bind_ok_eq _ _ _ _ _ Hr).
Qed.

Lemma melt_rows_labels_in (id_vars : list string)
    (value_vars all_vars : list (nat * string)) (amostra : list Row) :
  incl value_vars all_vars ->
  Forall (fun m => In (Dia_str m) (map snd all_vars))
    (dropna_Valor (melt_rows id_vars value_vars amostra)).
Proof.
  intros Hincl. apply Forall_forall. intros m Hm.
  apply filter_In in Hm. destruct Hm as [Hm _].
  apply in_flat_map in Hm. destruct Hm as [cl [Hcl Hm]].
  apply in_map_iff in Hm. destruct Hm as [r [Hr _]].
  rewrite <- Hr. change (In (snd cl) (map snd all_vars)).
  apply in_map, Hincl, Hcl.
Qed.

Lemma colunas_existentes_eq (cols : list string) :
  colunas_existentes cols
  = filter (fun c => in_columns (snd c) cols) colunas_chuva.
Proof. reflexivity. Qed.

Lemma colunas_existentes_incl (cols : list string) :
  incl (colunas_existentes cols) colunas_chuva.
Proof.
  rewrite colunas_existentes_eq. intros c Hc. apply filter_In in Hc.
  now destruct Hc.
Qed.

Lemma melt_rows_labels (id_vars cols : list string) (amostra : list Row) :
  Forall (fun m => In (Dia_str m) (map snd colunas_chuva))
    (dropna_Valor (melt_rows id_vars (colunas_existentes cols) amostra)).
Proof. apply melt_rows_labels_in, colunas_existentes_incl. Qed.

Lemma melt_ok (id_vars cols : list string) value_vars (amostra : list Row)
    (w : World rng) :
  in_columns "Valor" cols = false ->
  forallb (fun c => in_columns c cols) id_vars = true ->
  melt rng id_vars cols value_vars amostra w
    = (Ok (melt_rows id_vars value_vars amostra), w).
Proof.
  intros Hv Hc. rewrite (melt_without_value_name _ _ _ _ _ Hv).
  now rewrite (bind_ok_eq _ _ _ _ _ (require_ok _ _ w Hc)).
Qed.

Lemma melt_com_datas_ok (id_vars cols : list string) (amostra : list Row)
    (w : World rng) :
  in_columns "Valor" cols = false ->
  forallb (fun c => in_columns c cols) id_vars = true ->
  exists validos,
    melt_com_datas rng representable id_vars cols amostra w = (Ok validos, w).
Proof.
  intros Hval Hc.
  destruct (com_Dia_ok _ w (melt_rows_labels id_vars cols amostra))
    as [r Hr].
  exists (dropna_Data_Real (com_Data_Real representable r)).
  unfold melt_com_datas.
  rewrite (bind_ok_eq _ _ _ _ _ (melt_ok id_vars cols _ amostra w Hval Hc)).
  now rewrite (bind_ok_eq _ _ _ _ _ Hr).
Qed.

Lemma blindagem_mes_ok (cols : list string) (amostra : list Row)
    (w : World rng) :
  forallb (fun c => in_columns c cols)
    ["EstacaoCodigo"; "Ano"; "Mes"]%string = true ->
  exists a, blindagem_mes rng cols amostra w = (Ok a, w).
Proof.
  intros Hc. unfold blindagem_mes. destruct amostra; [now exists []|].
  rewrite (bind_ok_eq _ _ _ _ _ (require_ok _ _ w Hc)). eexists. reflexivity.
Qed.

Variable df : DataFrame.
Variable frac : Q.
Hypothesis df_columns : has_columns colunas_obrigatorias df = true.
Hypothesis no_value_column : in_columns "Valor" (columns df) = false.
Hypothesis frac_range : (0 <= frac <= 1)%Q.

Lemma required_columns :
  in_columns "EstacaoCodigo" (columns df) = true /\
  in_columns "estado" (columns df) = true /\
  in_columns "Ano" (columns df) = true /\
  in_columns "Mes" (columns df) = true.
Proof.
  unfold has_columns, colunas_obrigatorias in df_columns.
  cbn [forallb] in df_columns. rewrite !andb_true_iff in df_columns.
  tauto.
Qed.

Lemma df_resumo_runs (seed : Z) (w : World rng) :
  exists resumo w',
    df_resumo rng RandomState choice representable df frac seed w
      = (Ok resumo, w').
Proof.
  destruct required_columns as [He [Hs [Ha Hm]]].
  unfold df_resumo, estacoes_sorteadas.
  assert (Hr : require rng ["estado"; "EstacaoCodigo"]%string (columns df) w
               = (Ok tt, w)).
  { apply require_ok. cbn [forallb]. now rewrite Hs, He. }
  destruct (groupby_sample_runs rng RandomState choice (estacoes_unicas df)
              frac seed w frac_range) as [sel [evs Hg]].
  rewrite (bind_ok_eq _ _ _ _ _ (eq_trans (bind_ok_eq _ _ _ _ _ Hr) Hg)).
  set (w1 := mkWorld (np_random w) (trace w ++ evs)).
  destruct (blindagem_mes_ok (columns df) (df_amostra df sel) w1) as [a Hb].
  { cbn [forallb]. now rewrite He, Ha, Hm. }
  rewrite (bind_ok_eq _ _ _ _ _ Hb).
  destruct (melt_com_datas_ok ["EstacaoCodigo"; "Ano"; "Mes"]%string
              (columns df) a w1 no_value_column) as [validos Hv].
  { cbn [forallb]. now rewrite He, Ha, Hm. }
  rewrite (bind_ok_eq _ _ _ _ _ Hv). eexists. eexists. reflexivity.
Qed.

Lemma df_resumo_rows (seed : Z) (w w' : World rng) resumo :
  df_resumo rng RandomState choice representable df frac seed w
    = (Ok resumo, w') ->
  Forall linha_resumo_ok resumo.
Proof.
  unfold df_resumo. intros H.
  apply bind_Ok in H. destruct H as [sel [w1 [_ H]]].
  apply bind_Ok in H. destruct H as [a [w2 [_ H]]].
  apply bind_Ok in H. destruct H as [validos [w3 [_ H]]].
  unfold ret in H. inversion H; subst. clear H.
  apply Forall_forall. intros row Hrow. apply in_map_iff in Hrow.
  destruct Hrow as [kg [<- _]]. split; reflexivity.
Qed.

Lemma iteracao_ok (seed : Z) (w : World rng) :
  exists r w',
    iteracao rng RandomState choice representable df frac seed w = (Ok r, w') /\
    Random_State r = seed /\
    resultado_da_seed RandomState choice representable df frac r.
Proof.
  destruct (df_resumo_runs seed w) as [resumo [w' Hd]].
  exists (mkResultado seed (Qmean (map r_Completude resumo))), w'.
  split; [|split; [reflexivity|]].
  - unfold iteracao. now rewrite (bind_ok_eq _ _ _ _ _ Hd).
  - exists resumo. cbn [Random_State Media_Completude].
    split; [|split; [reflexivity | eapply df_resumo_rows; eassumption]].
    intros w0.
    destruct (stable_result _ w0 w
                (stable_df_resumo rng RandomState choice representable
                   df frac seed)) as [-> _].
    now rewrite Hd.
Qed.

Lemma laco_ok (seeds : list Z) : forall acc w,
  exists rs w',
    laco rng RandomState choice representable df frac seeds acc w
      = (Ok (acc ++ rs), w') /\
    map Random_State rs = seeds /\
    Forall (resultado_da_seed RandomState choice representable df frac) rs.
Proof.
  induction seeds as [|seed rest IH]; intros acc w.
  - exists [], w. cbn [laco]. unfold ret. rewrite app_nil_r. auto.
  - destruct (iteracao_ok seed w) as [r [w1 [Hi [Hseed Hr]]]].
    destruct (IH (acc ++ [r]) w1) as [rs [w' [Hl [Hmap Hall]]]].
    exists (r :: rs), w'. split; [|split].
    + cbn [laco]. rewrite (bind_ok_eq _ _ _ _ _ Hi), Hl.
      now rewrite <- app_assoc.
    + cbn [map]. now rewrite Hseed, Hmap.
    + now constructor.
Qed.

(** C8, as the code has it. On a table with the four required columns
    and no column named [Valor], and a fraction in [0, 1], the stability
    test returns five results, one per seed of [42, 1, 100, 2024, 999] and
    in that order; each holds the plain mean of [Completude_%] over the
    station-year rows that the run of its own seed produces, whatever
    state the run starts from. (Without these conditions the test can end
    in an error and return nothing.) *)
Theorem stability_table_shape (w : World rng) :
  exists res w',
    executar_teste_estabilidade rng RandomState choice representable df frac w
      = (Ok res, w') /\
    List.length res = 5%nat /\
    map Random_State res = [42; 1; 100; 2024; 999] /\
    Forall (resultado_da_seed RandomState choice representable df frac) res.
Proof.
  destruct (laco_ok seeds_para_testar [] w) as [rs [w' [Hl [Hmap Hall]]]].
  exists rs, w'. split; [exact Hl|]. split; [|split; assumption].
  apply (f_equal (@List.length Z)) in Hmap. now rewrite length_map in Hmap.
Qed.

End Stability.

(** * The example generator meets the contract of [choice] *)

Lemma remove_nth_In {A : Type} (l : list A) : forall i a,
  In a (remove_nth i l) -> In a l.
Proof.
  induction l as [|x l IH]; intros i a H; [destruct i; contradiction|].
  destruct i as [|j]; simpl in H; [now right|].
  destruct H as [-> | H]; [now left | right; eauto].
Qed.

Lemma remove_nth_length {A : Type} (l : list A) : forall i,
  (i < List.length l)%nat ->
  S (List.length (remove_nth i l)) = List.length l.
Proof.
  induction l as [|x l IH]; intros i H; simpl in H; [lia|].
  destruct i as [|j]; simpl; [reflexivity|].
  rewrite IH by lia. reflexivity.
Qed.

Lemma remove_nth_NoDup {A : Type} (l : list A) : forall i x,
  NoDup l -> nth_error l i = Some x ->
  NoDup (remove_nth i l) /\ ~ In x (remove_nth i l).
Proof.
  induction l as [|y l IH]; intros i x Hnd Hx; [destruct i; discriminate|].
  inversion Hnd as [|? ? Hy Hl]; subst.
  destruct i as [|j]; simpl in *.
  - inversion Hx; subst. auto.
  - destruct (IH j x Hl Hx) as [Hnd' Hnot]. split.
    + constructor; [|assumption]. intros H. apply Hy.
      eapply remove_nth_In; eassumption.
    + intros [-> | H]; [|contradiction].
      apply Hy. eapply nth_error_In; eassumption.
Qed.

Lemma lcg_pick_spec (k : nat) : forall g pool,
  (k <= List.length pool)%nat -> NoDup pool ->
  List.length (fst (lcg_pick k g pool)) = k /\
  NoDup (fst (lcg_pick k g pool)) /\
  incl (fst (lcg_pick k g pool)) pool.
Proof.
  induction k as [|k IH]; intros g pool Hk Hnd.
  - simpl. repeat split; [constructor | intros x []].
  - cbn [lcg_pick].
    set (i := Z.to_nat (g mod Z.of_nat (List.length pool))).
    assert (Hi : (i < List.length pool)%nat).
    { unfold i.
      pose proof (Z.mod_pos_bound g (Z.of_nat (List.length pool))). lia. }
    destruct (nth_error pool i) as [x|] eqn:Ex;
      [|apply nth_error_None in Ex; lia].
    destruct (remove_nth_NoDup pool i x Hnd Ex) as [Hnd' Hnot].
    pose proof (remove_nth_length pool i Hi) as Hlen.
    specialize (IH (lcg_next g) (remove_nth i pool)).
    destruct (lcg_pick k (lcg_next g) (remove_nth i pool)) as [rest g'].
    cbn [fst] in *. destruct IH as [IHl [IHn IHi]]; [lia | assumption |].
    split; [simpl; lia|]. split.
    + constructor; [|assumption]. intros H. apply Hnot. now apply IHi.
    + intros y [<- | Hy].
      * eapply nth_error_In; eassumption.
      * eapply remove_nth_In. now apply IHi.
Qed.

Lemma lcg_choice_ok : choice_spec lcg_choice.
Proof.
  intros g n k Hk. unfold lcg_choice.
  destruct (lcg_pick_spec k g (seq 0 n)) as [Hl [Hn Hi]].
  - now rewrite length_seq.
  - apply seq_NoDup.
  - split; [assumption|]. split; [assumption|].
    apply Forall_forall. intros i Hin. apply Hi, in_seq in Hin. lia.
Qed.

(** * The example table *)

(** Without a seed the sample would follow [np.random]: two worlds can
    give two selections. The seed that the code passes is what makes the
    selection a function of its arguments. *)
Example unseeded_sample_reads_np_random :
  fst (groupby_sample Z lcg_seed lcg_choice (estacoes_unicas exemplo_df)
         (1 # 2) None (mkWorld 1 []))
  <> fst (groupby_sample Z lcg_seed lcg_choice (estacoes_unicas exemplo_df)
            (1 # 2) None (mkWorld 2 [])).
Proof. vm_compute. discriminate. Qed.

(** C2, counterexample. The fraction 0 lies outside (0, 1], yet the
    sampler does not fail: it goes through the two regions, takes
    [round(0 * n) = 0] stations in each and returns an empty selection.
    And on a table without rows even the fraction 2 is not rejected. *)
Lemma fraction_zero_not_rejected :
  ~ (0 < 0)%Q /\
  estacoes_sorteadas Z lcg_seed lcg_choice exemplo_df 0 42 mundo0
    = (Ok [], mkWorld 7 [Draw 1 0; Draw 2 0]) /\
  ~ (2 <= 1)%Q /\
  fst (estacoes_sorteadas Z lcg_seed lcg_choice exemplo_vazio 2 42 mundo0)
    = Ok [].
Proof.
  split; [discriminate|]. split; [vm_compute; reflexivity|].
  split; [|vm_compute; reflexivity].
  intros H. now apply H.
Qed.

Lemma fraction_out_of_range_rejected_witness :
  exists msg,
    estacoes_sorteadas Z lcg_seed lcg_choice exemplo_df 2 42 mundo0
      = (Err (ValueError msg), mundo0) /\
    processar_dados_complexos Z lcg_seed lcg_choice ns_bounds exemplo_df 2
      mundo0 = (Err (ValueError msg), mundo0) /\
    executar_teste_estabilidade Z lcg_seed lcg_choice ns_bounds exemplo_df 2
      mundo0 = (Err (ValueError msg), mundo0).
Proof.
  apply (fraction_out_of_range_rejected Z lcg_seed lcg_choice ns_bounds
           exemplo_df 2 42 mundo0).
  - reflexivity.
  - discriminate.
  - right. reflexivity.
Defined.

(** C3, counterexample. The table lacks [Ano]; the run ends in a
    [KeyError], but only after the sample was drawn: the trace holds the
    two draws. *)
Lemma year_column_checked_after_sampling :
  in_columns "Ano" (columns exemplo_sem_Ano) = false /\
  processar_dados_complexos Z lcg_seed lcg_choice ns_bounds
    exemplo_sem_Ano 1 mundo0
  = (Err (KeyError ["Ano"%string]), mkWorld 7 [Draw 1 1; Draw 2 2]) /\
  trace (snd (processar_dados_complexos Z lcg_seed lcg_choice ns_bounds
                exemplo_sem_Ano 1 mundo0)) <> trace mundo0.
Proof.
  split; [reflexivity|]. split; [vm_compute; reflexivity|].
  vm_compute. discriminate.
Qed.

Lemma missing_column_fails_witness :
  let main :=
    processar_dados_complexos Z lcg_seed lcg_choice ns_bounds
      exemplo_sem_Ano 1 in
  (exists e, fst (main mundo0) = Err e) /\
  ("Ano"%string = "estado"%string \/ "Ano"%string = "EstacaoCodigo"%string ->
     exists labels, main mundo0 = (Err (KeyError labels), mundo0)) /\
  (has_columns ["estado"; "EstacaoCodigo"]%string exemplo_sem_Ano = true ->
   rows exemplo_sem_Ano <> [] -> (1 < 0 \/ 1 < 1)%Q ->
     exists msg, main mundo0 = (Err (ValueError msg), mundo0)) /\
  (has_columns ["estado"; "EstacaoCodigo"]%string exemplo_sem_Ano = true ->
   rows exemplo_sem_Ano = [] \/ (0 <= 1 <= 1)%Q ->
     exists sorteadas evs e,
       estacoes_sorteadas Z lcg_seed lcg_choice exemplo_sem_Ano 1 42 mundo0
         = (Ok sorteadas,
            mkWorld (np_random mundo0) (trace mundo0 ++ evs)) /\
       main mundo0
         = (Err e, mkWorld (np_random mundo0) (trace mundo0 ++ evs)) /\
       (df_amostra exemplo_sem_Ano sorteadas <> [] \/
        in_columns "Valor" (columns exemplo_sem_Ano) = false ->
          exists labels, e = KeyError labels) /\
       (df_amostra exemplo_sem_Ano sorteadas = [] ->
        in_columns "Valor" (columns exemplo_sem_Ano) = true ->
          exists msg, e = ValueError msg)).
Proof.
  apply (missing_column_fails Z lcg_seed lcg_choice ns_bounds
           exemplo_sem_Ano 1 mundo0 "Ano"%string).
  - simpl. auto.
  - reflexivity.
Defined.

Lemma no_duplicate_days_witness :
  exists tabela m1 m2 w',
    processar_dados_complexos Z lcg_seed lcg_choice ns_bounds exemplo_df 1
      mundo0 = (Ok (tabela, m1, m2), w') /\
    exists sorteadas w1 amostra w2 validos obs,
      estacoes_sorteadas Z lcg_seed lcg_choice exemplo_df 1 42 mundo0
        = (Ok sorteadas, w1) /\
      blindagem_mes Z (columns exemplo_df) (df_amostra exemplo_df sorteadas) w1
        = (Ok amostra, w2) /\
      melt_com_datas Z ns_bounds
        ["EstacaoCodigo"; "estado"; "Ano"; "Mes"]%string
        (columns exemplo_df) amostra w2 = (Ok validos, w') /\
      Forall (data_valida ns_bounds) validos /\
      obs = sort_by ordem_dia (drop_duplicates pair_eqb chave_dia validos) /\
      tabela = agregar obs sorteadas /\
      NoDup (map chave_dia obs) /\
      Permutation obs (drop_duplicates pair_eqb chave_dia validos) /\
      (forall o, In o validos ->
         exists o', In o' obs /\ chave_dia o' = chave_dia o) /\
      (List.length obs <= List.length validos)%nat /\
      m2 = msg_duplicatas_dia (List.length validos - List.length obs).
Proof.
  do 4 eexists. split.
  - vm_compute. reflexivity.
  - eapply (no_duplicate_days Z lcg_seed lcg_choice ns_bounds exemplo_df 1
              mundo0). vm_compute. reflexivity.
Defined.


Lemma single_observation_gaps_witness :
  let k := (12, 2023) in
  let g := [mkDaily (mkMelted 12 (Some "RJ"%string) 2023 4 "Chuva01"
                       (Some 1%Q)) 1 (days_from_civil 2023 4 1)] in
  In (k, g) (grupos exemplo_obs) /\
  List.length g = 1%nat /\
  (exists i, In (k, i) (resumo_intervalos (grupos exemplo_obs))) /\
  (forall i, In (k, i) (resumo_intervalos (grupos exemplo_obs)) ->
     Intervalo_Max i = 0%Q /\ Intervalo_Min i = 0%Q /\
     Intervalo_Medio i = 0%Q) /\
  (forall m, In m (agregar exemplo_obs [("RJ"%string, 12)]) ->
     (f_EstacaoCodigo m, f_Ano m) = k ->
     dias_com_dados m = 1%nat /\
     f_Intervalo_Max m = Some 0%Q /\
     f_Intervalo_Medio m = Some (round2 0) /\
     (round2 0 == 0)%Q).
Proof.
  intros k g.
  assert (Hin : In (k, g) (grupos exemplo_obs))
    by (vm_compute; right; left; reflexivity).
  split; [exact Hin|]. split; [reflexivity|].
  exact (single_observation_gaps exemplo_obs [("RJ"%string, 12)] k g Hin
           eq_refl).
Defined.

Lemma stratified_sample_size_witness :
  exists sel w',
    estacoes_sorteadas Z lcg_seed lcg_choice exemplo_df (1 # 2) 42 mundo0
      = (Ok sel, w') /\
    NoDup sel /\ incl sel (estacoes_unicas exemplo_df) /\
    (Qabs (inject_Z (Z.of_nat (List.length (da_regiao "SP" sel)))
           - (1 # 2) * inject_Z (Z.of_nat
                  (List.length (da_regiao "SP" (estacoes_unicas exemplo_df)))))
     <= 1)%Q.
Proof.
  apply (stratified_sample_size Z lcg_seed lcg_choice lcg_choice_ok (1 # 2)).
  - split; discriminate.
  - reflexivity.
  - reflexivity.
Defined.

(** The product is rounded as a float: the slider at 70 gives the float
    nearest to 0.7, which lies below 7/10; for a state of 45 stations the
    float product is the float just below 31.5 and 31 stations are drawn,
    where the exact product 31.5 would round to 32. *)
Example slider_70_of_45_stations :
  let frac := binary64 (70 # 100) in
  (frac < 7 # 10)%Q /\
  (float_product frac 45 < 63 # 2)%Q /\
  sample_size frac 45 = 31%nat /\
  round_half_even ((7 # 10) * 45) = 32.
Proof. vm_compute. repeat split; reflexivity. Qed.

(** C8, counterexample. The stability test returns nothing when the
    fraction is out of range, when a required column is absent, or when
    the table already has a column named [Valor]. *)
Lemma stability_test_can_fail :
  (exists msg,
     executar_teste_estabilidade Z lcg_seed lcg_choice ns_bounds exemplo_df 2
       mundo0 = (Err (ValueError msg), mundo0)) /\
  fst (executar_teste_estabilidade Z lcg_seed lcg_choice ns_bounds
         exemplo_sem_Ano (1 # 2) mundo0) = Err (KeyError ["Ano"%string]) /\
  has_columns colunas_obrigatorias exemplo_com_Valor = true /\
  (exists msg,
     fst (executar_teste_estabilidade Z lcg_seed lcg_choice ns_bounds
            exemplo_com_Valor (1 # 2) mundo0) = Err (ValueError msg)).
Proof.
  split; [eexists; vm_compute; reflexivity|].
  split; [vm_compute; reflexivity|].
  split; [reflexivity|].
  eexists. vm_compute. reflexivity.
Qed.

Lemma stability_table_shape_witness :
  exists res w',
    executar_teste_estabilidade Z lcg_seed lcg_choice ns_bounds exemplo_df
      (1 # 2) mundo0 = (Ok res, w') /\
    List.length res = 5%nat /\
    map Random_State res = [42; 1; 100; 2024; 999] /\
    Forall (resultado_da_seed lcg_seed lcg_choice ns_bounds exemplo_df (1 # 2))
      res.
Proof.
  apply (stability_table_shape Z lcg_seed lcg_choice ns_bounds exemplo_df
           (1 # 2)).
  - reflexivity.
  - reflexivity.
  - split; discriminate.
Defined.

Lemma gap_mean_telescopes_witness :
  let k := (10, 2024) in
  let first :=
    mkDaily (mkMelted 10 (Some "SP"%string) 2024 2 "Chuva01" (Some 1%Q))
            1 (days_from_civil 2024 2 1) in
  let rest :=
    [mkDaily (mkMelted 10 (Some "SP"%string) 2024 2 "Chuva03" (Some 0%Q))
             3 (days_from_civil 2024 2 3);
     mkDaily (mkMelted 10 (Some "SP"%string) 2024 3 "Chuva01" (Some 1%Q))
             1 (days_from_civil 2024 3 1)] in
  let g := first :: rest in
  In (k, g) (grupos exemplo_obs) /\
  (2 <= List.length g)%nat /\
  List.length (present (gap g)) = (List.length g - 1)%nat /\
  hd_error (gap g) = Some None /\
  In (k, intervalos_do_grupo g) (resumo_intervalos (grupos exemplo_obs)) /\
  (forall i, In (k, i) (resumo_intervalos (grupos exemplo_obs)) ->
     (Intervalo_Medio i ==
      inject_Z (Data_Real (last g first) - Data_Real first)
      / inject_Z (Z.of_nat (List.length g) - 1))%Q).
Proof.
  intros k first rest g.
  assert (Hin : In (k, g) (grupos exemplo_obs))
    by (vm_compute; left; reflexivity).
  assert (Hlen : (2 <= List.length g)%nat) by (simpl; lia).
  split; [exact Hin|]. split; [exact Hlen|].
  exact (gap_mean_telescopes exemplo_obs k first rest Hin Hlen).
Defined.

(** * Groups partition the frame *)

Section Partition.

Context {A K : Type} (eqb leb : K -> K -> bool) (key : A -> K).
Hypothesis eqb_eq : forall a b, eqb a b = true <-> a = b.

Lemma count_key_once (x : K) (ks : list K) :
  NoDup ks -> In x ks ->
  list_sum (map (fun k => if eqb x k then 1 else 0)%nat ks) = 1%nat.
Proof.
  induction ks as [|k ks IH]; intros Hnd Hin; [contradiction|].
  inversion Hnd as [|? ? Hk Hnd']; subst. cbn [map list_sum fold_right].
  fold (list_sum (map (fun k0 => if eqb x k0 then 1 else 0)%nat ks)).
  destruct (eqb x k) eqn:E.
  - apply eqb_eq in E. subst k.
    replace (list_sum (map (fun k0 => if eqb x k0 then 1 else 0)%nat ks))
      with 0%nat; [reflexivity|].
    symmetry. clear IH Hnd Hnd' Hin. induction ks as [|k ks IH];
      [reflexivity|].
    cbn [map list_sum fold_right].
    fold (list_sum (map (fun k0 => if eqb x k0 then 1 else 0)%nat ks)).
    destruct (eqb x k) eqn:E.
    + apply eqb_eq in E. subst k. exfalso. apply Hk. now left.
    + rewrite IH; [reflexivity|]. intros H. apply Hk. now right.
  - destruct Hin as [-> | Hin].
    + assert (eqb x x = true) by now apply eqb_eq. congruence.
    + now rewrite IH.
Qed.

Lemma list_sum_map_add {B : Type} (f g : B -> nat) (l : list B) :
  list_sum (map (fun x => f x + g x)%nat l)
  = (list_sum (map f l) + list_sum (map g l))%nat.
Proof.
  induction l as [|x l IH]; [reflexivity|].
  change (list_sum (map (fun x0 => f x0 + g x0)%nat (x :: l)))
    with (f x + g x + list_sum (map (fun x0 => f x0 + g x0)%nat l))%nat.
  change (list_sum (map f (x :: l))) with (f x + list_sum (map f l))%nat.
  change (list_sum (map g (x :: l))) with (g x + list_sum (map g l))%nat.
  rewrite IH. lia.
Qed.

Lemma filter_lengths_sum (ks : list K) (l : list A) :
  NoDup ks -> (forall a, In a l -> In (key a) ks) ->
  list_sum (map (fun k => List.length (filter (fun a => eqb (key a) k) l)) ks)
  = List.length l.
Proof.
  intros Hnd. induction l as [|a l IH]; intros Hin.
  - clear. induction ks as [|k ks IHk]; simpl; auto.
  - rewrite (map_ext _
               (fun k => (if eqb (key a) k then 1 else 0)
                         + List.length (filter (fun a0 => eqb (key a0) k) l))%nat).
    + rewrite list_sum_map_add, count_key_once, IH.
      * reflexivity.
      * intros b Hb. apply Hin. now right.
      * assumption.
      * apply Hin. now left.
    + intros k. simpl. now destruct (eqb (key a) k).
Qed.

Lemma groupby_lengths_sum (l : list A) :
  list_sum (map (fun kg => List.length (snd kg)) (groupby eqb leb key l))
  = List.length l.
Proof.
  unfold groupby. rewrite map_map. cbn [snd].
  apply filter_lengths_sum.
  - pose proof (groupby_keys_NoDup eqb leb key eqb_eq l) as H.
    now rewrite groupby_keys in H.
  - intros a Ha. apply sort_by_In.
    pose proof (drop_duplicates_keeps eqb (fun k : K => k) eqb_eq (key a)
                  (map key l)) as H.
    rewrite map_id in H. apply H. now apply in_map.
Qed.

Lemma groupby_nonempty (l : list A) (k : K) (g : list A) :
  In (k, g) (groupby eqb leb key l) -> g <> [].
Proof.
  intros Hin. apply (groupby_In eqb leb key eqb_eq) in Hin.
  destruct Hin as [-> Hk]. apply in_map_iff in Hk. destruct Hk as [a [Hka Ha]].
  intros Hnil.
  assert (H : In a (filter (fun b => eqb (key b) k) l)).
  { apply filter_In. split; [assumption|]. now apply eqb_eq. }
  rewrite Hnil in H. contradiction.
Qed.

End Partition.

(** * Day numbers *)

Lemma month_cases (m : Z) :
  1 <= m <= 12 ->
  m = 1 \/ m = 2 \/ m = 3 \/ m = 4 \/ m = 5 \/ m = 6 \/
  m = 7 \/ m = 8 \/ m = 9 \/ m = 10 \/ m = 11 \/ m = 12.
Proof. lia. Qed.

Lemma valid_date_bounds (y m d : Z) :
  valid_date y m d = true ->
  1 <= m <= 12 /\ 1 <= d <= days_in_month y m.
Proof.
  unfold valid_date. rewrite !andb_true_iff, !Z.leb_le. tauto.
Qed.

(** The day of the year, [days_before_month y m + d], runs from 1 to the
    length of the year and tells the month and the day. *)
Lemma day_of_year_range (y m d : Z) :
  valid_date y m d = true ->
  1 <= days_before_month y m + d <= get_dias_ano y.
Proof.
  intros H. apply valid_date_bounds in H. destruct H as [Hm Hd].
  change (get_dias_ano y) with (if is_leap y then 366 else 365).
  revert Hd. unfold days_before_month, days_in_month.
  generalize (is_leap y). intros L Hd.
  destruct (month_cases m Hm) as
    [-> | [-> | [-> | [-> | [-> | [-> | [-> | [-> | [-> | [-> | [-> | ->]]]]]]]]]]];
    destruct L; vm_compute fold_right; cbv beta iota in Hd; lia.
Qed.





(** Two valid dates of the same year are less than a year apart. *)
Lemma days_from_civil_same_year (y m d m' d' : Z) :
  valid_date y m d = true -> valid_date y m' d' = true ->
  days_from_civil y m' d' - days_from_civil y m d <= get_dias_ano y - 1.
Proof.
  intros H H'. unfold days_from_civil.
  pose proof (day_of_year_range y m d H).
  pose proof (day_of_year_range y m' d' H'). lia.
Qed.

(** * Where the daily rows come from *)

Lemma drop_duplicates_from_id {A K : Type} (eqb : K -> K -> bool)
    (key : A -> K) (eqb_eq : forall a b, eqb a b = true <-> a = b)
    (l : list A) : forall seen,
  NoDup (map key l) -> (forall a, In a l -> ~ In (key a) seen) ->
  drop_duplicates_from eqb key seen l = l.
Proof.
  induction l as [|x l IH]; intros seen Hnd Hs; [reflexivity|].
  inversion Hnd as [|? ? Hx Hnd']; subst. simpl.
  destruct (existsb (eqb (key x)) seen) eqn:E.
  - apply (existsb_eqb_In eqb eqb_eq) in E. exfalso.
    apply (Hs x); [now left | assumption].
  - f_equal. apply IH; [assumption|].
    intros a Ha [Hk | Hin].
    + apply Hx. rewrite Hk. now apply in_map.
    + apply (Hs a); [now right | assumption].
Qed.

Lemma drop_duplicates_id {A K : Type} (eqb : K -> K -> bool)
    (key : A -> K) (eqb_eq : forall a b, eqb a b = true <-> a = b)
    (l : list A) :
  NoDup (map key l) -> drop_duplicates eqb key l = l.
Proof.
  intros H. apply drop_duplicates_from_id; auto.
Qed.



(** The day of a parsed label of [colunas_chuva] is a day of a month. *)
Lemma chuva_labels_parse_range (s : string) (d : Z) :
  In s (map snd colunas_chuva) ->
  int_of_string (str_replace_empty "Chuva" s) = Some d ->
  1 <= d <= 31.
Proof.
  assert (H : forallb
                (fun s =>
                   match int_of_string (str_replace_empty "Chuva" s) with
                   | Some d => (1 <=? d) && (d <=? 31)
                   | None => false
                   end) (map snd colunas_chuva) = true)
    by (vm_compute; reflexivity).
  intros Hs Hd. rewrite forallb_forall in H. specialize (H s Hs).
  rewrite Hd in H. apply andb_true_iff in H. lia.
Qed.


Lemma melt_rows_In (id_vars : list string) (value_vars : list (nat * string))
    (amostra : list Row) (m : Melted) :
  In m (melt_rows id_vars value_vars amostra) ->
  exists c r,
    In c value_vars /\ In r amostra /\
    m_EstacaoCodigo m = EstacaoCodigo r /\ m_Ano m = Ano r /\
    m_Mes m = Mes r /\ Dia_str m = snd c /\
    Valor m = chuva_value r (fst c).
Proof.
  unfold melt_rows. intros H. apply in_flat_map in H.
  destruct H as [c [Hc H]]. apply in_map_iff in H.
  destruct H as [r [<- Hr]]. exists c, r. cbn. auto 10.
Qed.


Section Provenance.

Variable rng : Type.
Variable representable : Z -> bool.

Lemma ret_Ok {A : Type} (a b : A) (w w' : World rng) :
  ret rng a w = (Ok b, w') -> a = b /\ w = w'.
Proof. unfold ret. intros [= -> ->]. auto. Qed.

Lemma com_Dia_inv (l : list Melted) : forall (w w' : World rng) r,
  com_Dia rng l w = (Ok r, w') ->
  map fst r = l /\
  forall p, In p r ->
    int_of_string (str_replace_empty "Chuva" (Dia_str (fst p))) = Some (snd p).
Proof.
  induction l as [|m l IH]; intros w w' r H.
  - inversion H; subst. split; [reflexivity | intros p []].
  - cbn [com_Dia] in H.
    destruct (int_of_string (str_replace_empty "Chuva" (Dia_str m)))
      as [d|] eqn:Ed; [|discriminate].
    apply bind_Ok in H. destruct H as [rest [w1 [Hrest H]]].
    inversion H; subst. destruct (IH _ _ _ Hrest) as [Hmap Hall].
    split; [simpl; now rewrite Hmap|].
    intros p [<- | Hp]; [exact Ed | now apply Hall].
Qed.

(** What [melt_com_datas] returns: the melted rows with a value, each with
    the day of its label, kept when the date exists. *)
Lemma melt_com_datas_inv (id_vars cols : list string) (amostra : list Row)
    (w w' : World rng) (validos : list Obs) :
  melt_com_datas rng representable id_vars cols amostra w = (Ok validos, w') ->
  exists com_dia,
    validos = dropna_Data_Real (com_Data_Real representable com_dia) /\
    map fst com_dia
      = dropna_Valor (melt_rows id_vars (colunas_existentes cols) amostra) /\
    forall p, In p com_dia ->
      int_of_string (str_replace_empty "Chuva" (Dia_str (fst p)))
      = Some (snd p).
Proof.
  unfold melt_com_datas. intros H.
  apply bind_Ok in H. destruct H as [df_melted [w1 [Hm H]]].
  apply melt_Ok_inv in Hm. destruct Hm as [_ [_ Hdf]].
  apply bind_Ok in H. destruct H as [com_dia [w2 [Hc H]]].
  apply ret_Ok in H. destruct H as [Hv _].
  exists com_dia. split; [now symmetry|].
  apply com_Dia_inv in Hc. now rewrite <- Hdf.
Qed.

Lemma validos_In (com_dia : list (Melted * Z)) (o : Obs) :
  In o (dropna_Data_Real (com_Data_Real representable com_dia)) <->
  In (melted o, Dia o) com_dia /\ data_valida representable o.
Proof.
  unfold dropna_Data_Real, com_Data_Real, data_valida.
  rewrite in_flat_map. split.
  - intros [x [Hx Ho]]. apply in_map_iff in Hx.
    destruct Hx as [[m d] [<- Hp]]. cbn [Data_Real melted Dia fst snd] in Ho.
    destruct (to_datetime representable (m_Ano m) (m_Mes m) d) as [t|] eqn:E;
      [|contradiction].
    destruct Ho as [<- | []]. cbn. auto.
  - intros [Hp Hv].
    exists (mkDaily (melted o) (Dia o)
              (to_datetime representable (m_Ano (melted o))
                 (m_Mes (melted o)) (Dia o))).
    split.
    + apply in_map_iff. now exists (melted o, Dia o).
    + cbn [Data_Real melted Dia]. rewrite Hv. left. now destruct o.
Qed.


End Provenance.

(** * The normalised frame *)


Lemma dropna_Valor_In (l : list Melted) (m : Melted) :
  In m (dropna_Valor l) <-> In m l /\ Valor m <> None.
Proof.
  unfold dropna_Valor. rewrite filter_In.
  destruct (Valor m); split; intros [H1 H2]; split;
    try assumption; try discriminate; try reflexivity.
  now contradiction H2.
Qed.



Section Normalised.

Variable rng : Type.
Variable RandomState : Z -> rng.
Variable choice : rng -> nat -> nat -> list nat * rng.
Variable representable : Z -> bool.

Lemma blindagem_mes_inv (cols : list string) (amostra0 amostra : list Row)
    (w w' : World rng) :
  blindagem_mes rng cols amostra0 w = (Ok amostra, w') ->
  amostra = drop_duplicates triple_eqb chave_mes amostra0.
Proof.
  unfold blindagem_mes. destruct amostra0 as [|r l].
  - intros H. apply ret_Ok in H. now destruct H as [<- _].
  - intros H. apply bind_Ok in H. destruct H as [[] [w1 [_ H]]].
    apply ret_Ok in H. now destruct H as [<- _].
Qed.







End Normalised.

(** * The rows of the metrics table *)

Lemma round2_lower (x : Q) (z : Z) :
  (inject_Z z <= x * 100)%Q -> (Qmake z 100 <= round2 x)%Q.
Proof.
  intros H. unfold round2, Qle. simpl.
  apply Qfloor_resp_le in H. rewrite Qfloor_Z in H.
  destruct (round_half_even_cases (x * 100)) as [-> | ->]; lia.
Qed.

Lemma round2_upper (x : Q) (z : Z) :
  (x * 100 <= inject_Z z)%Q -> (round2 x <= Qmake z 100)%Q.
Proof.
  intros H. unfold round2, Qle. simpl.
  apply round_half_even_le in H. lia.
Qed.

Section FinalRows.

Variable rng : Type.
Variable RandomState : Z -> rng.
Variable choice : rng -> nat -> nat -> list nat * rng.
Variable representable : Z -> bool.

Lemma sample_groups_incl (frac : Q) (gs : list (string * list Station)) :
  forall g0 s,
    In s (fst (fst (sample_groups rng choice frac gs g0))) ->
    exists k g, In (k, g) gs /\ In s g.
Proof.
  induction gs as [|[k grp] rest IH]; intros g0 s Hs; [contradiction|].
  cbn [sample_groups] in Hs.
  destruct (choice g0 (List.length grp) (sample_size frac (List.length grp)))
    as [idx g1].
  specialize (IH g1 s).
  destruct (sample_groups rng choice frac rest g1) as [[sel' evs] g2].
  cbn [fst] in *. apply in_app_or in Hs. destruct Hs as [Hs | Hs].
  - exists k, grp. split; [now left|]. eapply take_rows_incl; eassumption.
  - destruct (IH Hs) as [k' [g' [Hin Hg]]]. exists k', g'.
    split; [now right | assumption].
Qed.

(** Every sampled station is a (state, station) pair of the input. *)
Lemma estacoes_sorteadas_incl (df : DataFrame) (frac : Q) (seed : Z)
    (w w' : World rng) (sel : list Station) :
  estacoes_sorteadas rng RandomState choice df frac seed w = (Ok sel, w') ->
  forall s, In s sel ->
    exists r, In r (rows df) /\ estado r = fst s /\ EstacaoCodigo r = snd s.
Proof.
  unfold estacoes_sorteadas. intros H s Hs.
  apply bind_Ok in H. destruct H as [[] [w1 [_ H]]].
  unfold groupby_sample in H.
  assert (Hin : In s (estacoes_unicas df)).
  { destruct (estacoes_unicas df) as [|s0 l0] eqn:E.
    - apply ret_Ok in H. destruct H as [<- _]. contradiction.
    - apply bind_Ok in H. destruct H as [[] [w2 [_ H]]].
      destruct (sample_groups rng choice frac
                  (groupby String.eqb String.leb fst (s0 :: l0))
                  (RandomState seed)) as [[sel' evs] g1] eqn:Es.
      inversion H; subst sel'.
      pose proof (sample_groups_incl frac
                    (groupby String.eqb String.leb fst (s0 :: l0))
                    (RandomState seed) s) as Hi.
      rewrite Es in Hi. destruct (Hi Hs) as [k [g [Hkg Hg]]].
      now destruct (groupby_members String.eqb String.leb fst String.eqb_eq
                      _ k g s Hkg Hg). }
  unfold estacoes_unicas in Hin.
  apply (drop_duplicates_incl station_eqb (fun s => s) station_eqb_eq) in Hin.
  apply in_map_iff in Hin. destruct Hin as [r [<- Hr]]. now exists r.
Qed.

(** Every daily row belongs to a sampled station. *)
Lemma normalizar_sampled (df : DataFrame) (sorteadas : list Station)
    (w w' : World rng) obs dm dd :
  normalizar rng representable df sorteadas w = (Ok (obs, dm, dd), w') ->
  forall o, In o obs ->
    exists s, In s sorteadas /\ snd s = m_EstacaoCodigo (melted o).
Proof.
  intros H o Hin. apply normalizar_inv in H.
  destruct H as [amostra [w2 [validos [Hb [Hm [Ho _]]]]]].
  apply blindagem_mes_inv in Hb.
  rewrite Ho in Hin. apply sort_by_In in Hin.
  apply (drop_duplicates_incl pair_eqb chave_dia pair_eqb_eq) in Hin.
  apply melt_com_datas_inv in Hm. destruct Hm as [com_dia [Hv [Hmap _]]].
  rewrite Hv in Hin. apply validos_In in Hin. destruct Hin as [Hp _].
  assert (Hmel : In (melted o) (map fst com_dia))
    by (apply in_map_iff; now exists (melted o, Dia o)).
  rewrite Hmap in Hmel. apply dropna_Valor_In in Hmel.
  destruct Hmel as [Hmel _]. apply melt_rows_In in Hmel.
  destruct Hmel as [c [r [_ [Hr [Hst _]]]]].
  rewrite Hb in Hr.
  apply (drop_duplicates_incl triple_eqb chave_mes triple_eqb_eq) in Hr.
  apply filter_In in Hr. destruct Hr as [_ Hisin].
  unfold isin in Hisin. apply existsb_exists in Hisin.
  destruct Hisin as [code [Hcode Heq]]. apply Z.eqb_eq in Heq.
  apply in_map_iff in Hcode. destruct Hcode as [s [Hs Hin]].
  exists s. split; [assumption|]. congruence.
Qed.

Lemma merge_estado_row (l : Z * Z * nat * option Intervalos)
    (sorteadas : list Station)
    (r : Z * Z * nat * option Intervalos * option string) :
  In r (merge_estado [l] sorteadas) ->
  (exists s, In s sorteadas /\ snd s = fst (fst (fst l)) /\
             r = (l, Some (fst s))) \/
  ((forall s, In s sorteadas -> snd s <> fst (fst (fst l))) /\ r = (l, None)).
Proof.
  unfold merge_estado. cbn [flat_map]. rewrite app_nil_r.
  match goal with
  | |- In _ (match ?f with _ => _ end) -> _ => remember f as ms eqn:E
  end.
  destruct ms as [|s ms]; intros Hr.
  - right. cbn [In] in Hr. destruct Hr as [<- | []].
    split; [|reflexivity].
    intros s Hs Heq.
    assert (Hin : In s (@nil (string * Z)%type)).
    { rewrite E. apply filter_In. split; [assumption | now apply Z.eqb_eq]. }
    contradiction.
  - left. apply in_map_iff in Hr. destruct Hr as [s' [<- Hs']].
    rewrite E in Hs'. apply filter_In in Hs'. destruct Hs' as [Hin Heq].
    apply Z.eqb_eq in Heq. now exists s'.
Qed.

(** The rows of the final table, with the state that the merge attaches. *)
Lemma agregar_In_estado (obs : list Obs) (sorteadas : list Station)
    (m : FinalRow) :
  In m (agregar obs sorteadas) ->
  exists k g,
    In (k, g) (grupos obs) /\
    ((exists s, In s sorteadas /\ snd s = fst k /\
        m = finalizar (k, List.length g, Some (intervalos_do_grupo g),
                       Some (fst s))) \/
     ((forall s, In s sorteadas -> snd s <> fst k) /\
      m = finalizar (k, List.length g, Some (intervalos_do_grupo g), None))).
Proof.
  unfold agregar. intros H. apply in_map_iff in H.
  destruct H as [r [<- Hr]]. unfold merge_estado in Hr.
  apply in_flat_map in Hr. destruct Hr as [l [Hl Hr]].
  assert (Hr' : In r (merge_estado [l] sorteadas))
    by (unfold merge_estado; cbn [flat_map]; now rewrite app_nil_r).
  clear Hr. apply merge_estado_row in Hr'.
  unfold join in Hl. apply in_map_iff in Hl. destruct Hl as [kn [<- Hkn]].
  unfold contagem_dias in Hkn. apply in_map_iff in Hkn.
  destruct Hkn as [[k g] [<- Hkg]].
  cbn [fst snd] in Hr'. rewrite (find_resumo_intervalos obs k g Hkg) in Hr'.
  cbn [option_map snd] in Hr'.
  exists k, g. split; [assumption|].
  destruct Hr' as [[s [Hs [Heq ->]]] | [Hnone ->]].
  - left. now exists s.
  - right. split; [assumption | reflexivity].
Qed.

(** X4. Every row of the metrics table names a state, one under which its
    station appears in the input; it stands for at least one day, so its
    completeness is at least 0.27. *)
Theorem final_rows_have_state_and_days (df : DataFrame) (frac : Q)
    (w w' : World rng) tabela m1 m2 (m : FinalRow) :
  processar_dados_complexos rng RandomState choice representable df frac w
    = (Ok (tabela, m1, m2), w') ->
  In m tabela ->
  (exists e r,
     f_estado m = Some e /\ In r (rows df) /\
     estado r = e /\ EstacaoCodigo r = f_EstacaoCodigo m) /\
  (1 <= dias_com_dados m)%nat /\
  (27 # 100 <= Completude m)%Q.
Proof.
  intros H Hm. apply processar_inv in H.
  destruct H as [sorteadas [w1 [obs [dm [dd [Hs [Hn [-> _]]]]]]]].
  apply agregar_In_estado in Hm. destruct Hm as [k [g [Hg Hm]]].
  pose proof (groupby_nonempty pair_eqb pair_leb chave_ano pair_eqb_eq
                obs k g Hg) as Hne.
  destruct g as [|o g']; [contradiction|]. clear Hne.
  destruct (groupby_members pair_eqb pair_leb chave_ano pair_eqb_eq
              obs k (o :: g') o Hg (or_introl eq_refl)) as [Ho Hk].
  destruct (normalizar_sampled df sorteadas w1 w' obs dm dd Hn o Ho)
    as [s [Hsin Hcode]].
  assert (Hmatch : snd s = fst k) by (rewrite <- Hk; exact Hcode).
  destruct Hm as [[s' [Hs' [Heq ->]]] | [Hnone _]];
    [|exfalso; now apply (Hnone s Hsin)].
  cbn [finalizar f_estado f_EstacaoCodigo dias_com_dados Completude].
  split; [|split].
  - destruct (estacoes_sorteadas_incl df frac 42 w w1 sorteadas Hs s' Hs')
      as [r [Hr [He Hc]]].
    exists (fst s'), r. repeat split; try assumption. congruence.
  - simpl. lia.
  - apply round2_lower.
    pose proof (get_dias_ano_pos (snd k)) as Hpos.
    assert (Hle : get_dias_ano (snd k) <= 366).
    { unfold get_dias_ano.
      destruct (((snd k mod 4 =? 0) && negb (snd k mod 100 =? 0))
                || (snd k mod 400 =? 0)); lia. }
    set (n := Z.of_nat (List.length (o :: g'))).
    assert (Hn1 : 1 <= n) by (unfold n; simpl List.length; lia).
    assert (Ht : (0 < inject_Z (get_dias_ano (snd k)))%Q)
      by (rewrite <- (Zlt_Qlt 0); assumption).
    assert (Hq : (1 # 366 <= inject_Z n / inject_Z (get_dias_ano (snd k)))%Q).
    { apply Qle_shift_div_l; [assumption|].
      assert (H1 : (inject_Z (get_dias_ano (snd k)) <= 366)%Q)
        by (change 366%Q with (inject_Z 366); now rewrite <- Zle_Qle).
      assert (H2 : (1 <= inject_Z n)%Q)
        by (change 1%Q with (inject_Z 1); now rewrite <- Zle_Qle).
      lra. }
    change (inject_Z 27) with 27%Q. lra.
Qed.

End FinalRows.

(** * One row per station-year *)

Lemma filter_unique_code (sorteadas : list Station) (s : Station) :
  NoDup (map snd sorteadas) -> In s sorteadas ->
  filter (fun s' : Station => (snd s' =? snd s)%Z) sorteadas = [s].
Proof.
  induction sorteadas as [|x l IH]; intros Hnd Hin; [contradiction|].
  inversion Hnd as [|? ? Hx Hnd']; subst. cbn [filter].
  destruct Hin as [-> | Hin].
  - rewrite Z.eqb_refl. f_equal. apply filter_none. intros y Hy.
    apply Z.eqb_neq. intros Heq. apply Hx. rewrite <- Heq.
    now apply in_map.
  - assert (Hne : (snd x =? snd s)%Z = false).
    { apply Z.eqb_neq. intros Heq. apply Hx. rewrite Heq. now apply in_map. }
    rewrite Hne. now apply IH.
Qed.

Lemma merge_estado_cons (l : Z * Z * nat * option Intervalos)
    (rest : list (Z * Z * nat * option Intervalos))
    (sorteadas : list Station) :
  merge_estado (l :: rest) sorteadas
  = merge_estado [l] sorteadas ++ merge_estado rest sorteadas.
Proof.
  unfold merge_estado. cbn [flat_map]. now rewrite app_nil_r.
Qed.

Lemma merge_estado_single (l : Z * Z * nat * option Intervalos)
    (sorteadas : list Station) (s : Station) :
  NoDup (map snd sorteadas) -> In s sorteadas ->
  snd s = fst (fst (fst l)) ->
  merge_estado [l] sorteadas = [(l, Some (fst s))].
Proof.
  intros Hnd Hin Hc. unfold merge_estado. cbn [flat_map].
  rewrite app_nil_r.
  match goal with
  | |- context [filter ?p sorteadas] =>
      replace (filter p sorteadas) with [s]
  end; [reflexivity|].
  symmetry. rewrite <- Hc. now apply filter_unique_code.
Qed.

(** With one sampled row per station code, the merge keeps one row per
    group. *)
Lemma agregar_one_per_group (obs : list Obs) (sorteadas : list Station) :
  NoDup (map snd sorteadas) ->
  (forall o, In o obs ->
     exists s, In s sorteadas /\ snd s = m_EstacaoCodigo (melted o)) ->
  map (fun m => (f_EstacaoCodigo m, f_Ano m)) (agregar obs sorteadas)
    = map fst (grupos obs) /\
  map dias_com_dados (agregar obs sorteadas)
    = map (fun kg => List.length (snd kg)) (grupos obs).
Proof.
  intros Hnd Hs. unfold agregar, contagem_dias.
  assert (Hgs : forall kg, In kg (grupos obs) ->
            exists s, In s sorteadas /\ snd s = fst (fst kg)).
  { intros [k g] Hkg.
    pose proof (groupby_nonempty pair_eqb pair_leb chave_ano pair_eqb_eq
                  obs k g Hkg) as Hne.
    destruct g as [|o g']; [contradiction|].
    destruct (groupby_members pair_eqb pair_leb chave_ano pair_eqb_eq
                obs k (o :: g') o Hkg (or_introl eq_refl)) as [Ho Hk].
    destruct (Hs o Ho) as [s [Hin Hc]]. exists s. split; [assumption|].
    cbn [fst]. rewrite <- Hk. exact Hc. }
  revert Hgs. generalize (resumo_intervalos (grupos obs)) as resumo.
  intros resumo. induction (grupos obs) as [|[k g] gs IH]; intros Hgs.
  - split; reflexivity.
  - destruct (Hgs (k, g) (or_introl eq_refl)) as [s [Hin Hc]].
    cbn [fst] in Hc.
    destruct IH as [IH1 IH2]; [intros kg Hkg; apply Hgs; now right|].
    change (join (map (fun kg => (fst kg, List.length (snd kg)))
                    ((k, g) :: gs)) resumo)
      with ((k, List.length g,
             option_map snd
               (find (fun p => pair_eqb (fst p) k) resumo))
            :: join (map (fun kg => (fst kg, List.length (snd kg))) gs)
                 resumo).
    rewrite merge_estado_cons.
    erewrite merge_estado_single; [|exact Hnd|exact Hin|exact Hc].
    rewrite !map_app, IH1, IH2. destruct k as [a b].
    split; reflexivity.
Qed.

(** The same, row by row: the key and the day count of the row of each
    group. *)
Lemma agregar_linha_final (obs : list Obs) (sorteadas : list Station) :
  NoDup (map snd sorteadas) ->
  (forall o, In o obs ->
     exists s, In s sorteadas /\ snd s = m_EstacaoCodigo (melted o)) ->
  map linha_final (agregar obs sorteadas)
    = map (fun kg => (fst kg, List.length (snd kg))) (grupos obs).
Proof.
  intros Hnd Hs. unfold agregar, contagem_dias.
  assert (Hgs : forall kg, In kg (grupos obs) ->
            exists s, In s sorteadas /\ snd s = fst (fst kg)).
  { intros [k g] Hkg.
    pose proof (groupby_nonempty pair_eqb pair_leb chave_ano pair_eqb_eq
                  obs k g Hkg) as Hne.
    destruct g as [|o g']; [contradiction|].
    destruct (groupby_members pair_eqb pair_leb chave_ano pair_eqb_eq
                obs k (o :: g') o Hkg (or_introl eq_refl)) as [Ho Hk].
    destruct (Hs o Ho) as [s [Hin Hc]]. exists s. split; [assumption|].
    cbn [fst]. rewrite <- Hk. exact Hc. }
  revert Hgs. generalize (resumo_intervalos (grupos obs)) as resumo.
  intros resumo. induction (grupos obs) as [|[k g] gs IH]; intros Hgs.
  - reflexivity.
  - destruct (Hgs (k, g) (or_introl eq_refl)) as [s [Hin Hc]].
    cbn [fst] in Hc.
    assert (IH' := IH (fun kg Hkg => Hgs kg (or_intror Hkg))).
    change (join (map (fun kg => (fst kg, List.length (snd kg)))
                    ((k, g) :: gs)) resumo)
      with ((k, List.length g,
             option_map snd
               (find (fun p => pair_eqb (fst p) k) resumo))
            :: join (map (fun kg => (fst kg, List.length (snd kg))) gs)
                 resumo).
    rewrite merge_estado_cons.
    erewrite merge_estado_single; [|exact Hnd|exact Hin|exact Hc].
    rewrite !map_app, IH'. destruct k as [a b]. reflexivity.
Qed.

Section OneRow.

Variable rng : Type.
Variable RandomState : Z -> rng.
Variable choice : rng -> nat -> nat -> list nat * rng.
Variable representable : Z -> bool.

(** X5. In a run that succeeds on a table where every station code
    belongs to one state, the metrics table has exactly one row per
    station-year of the sorted daily frame of the run: the keys of its rows
    are the (station, year) pairs of the daily rows, in strictly ascending
    order and so without repetition; the day count of a row is the number
    of daily rows of its station-year, and the counts add up to the number
    of daily rows: the grouping and the merge neither drop nor repeat a
    row. *)
Theorem one_row_per_station_year (df : DataFrame) (frac : Q)
    (w w' : World rng) tabela m1 m2 :
  choice_spec choice ->
  (0 <= frac <= 1)%Q ->
  (forall r1 r2, In r1 (rows df) -> In r2 (rows df) ->
     EstacaoCodigo r1 = EstacaoCodigo r2 -> estado r1 = estado r2) ->
  processar_dados_complexos rng RandomState choice representable df frac w
    = (Ok (tabela, m1, m2), w') ->
  exists sorteadas w1 obs dm dd,
    estacoes_sorteadas rng RandomState choice df frac 42 w
      = (Ok sorteadas, w1) /\
    normalizar rng representable df sorteadas w1 = (Ok (obs, dm, dd), w') /\
    StronglySorted (fun a b => pair_leb a b = true /\ a <> b)
      (map (fun m => (f_EstacaoCodigo m, f_Ano m)) tabela) /\
    (forall k, In k (map (fun m => (f_EstacaoCodigo m, f_Ano m)) tabela)
               <-> In k (map chave_ano obs)) /\
    (forall m, In m tabela ->
       dias_com_dados m
       = List.length
           (filter (fun o => pair_eqb (chave_ano o)
                               (f_EstacaoCodigo m, f_Ano m)) obs)) /\
    list_sum (map dias_com_dados tabela) = List.length obs.
Proof.
  intros Hchoice Hfrac Huniq H. apply processar_inv in H.
  destruct H as [sorteadas [w1 [obs [dm [dd [Hs [Hn [-> _]]]]]]]].
  assert (Hcols : has_columns ["estado"; "EstacaoCodigo"]%string df = true).
  { unfold estacoes_sorteadas in Hs. apply bind_Ok in Hs.
    destruct Hs as [u [w0 [Hr _]]]. now apply require_Ok_inv in Hr. }
  destruct (estacoes_sorteadas_ok rng RandomState choice Hchoice frac Hfrac
              df 42 w Hcols) as [sel [evs [Hsel [Hnd _]]]].
  rewrite Hs in Hsel. inversion Hsel; subst sel. clear Hsel.
  assert (Hcodes : NoDup (map snd sorteadas)).
  { apply (NoDup_map_coarser (fun s : Station => s));
      [now rewrite map_id|].
    intros x y Hx Hy Hxy.
    destruct (estacoes_sorteadas_incl rng RandomState choice df frac 42
                w w1 sorteadas Hs x Hx) as [r1 [Hr1 [He1 Hc1]]].
    destruct (estacoes_sorteadas_incl rng RandomState choice df frac 42
                w w1 sorteadas Hs y Hy) as [r2 [Hr2 [He2 Hc2]]].
    assert (Hest : estado r1 = estado r2)
      by (apply Huniq; [assumption..|congruence]).
    destruct x, y. cbn [fst snd] in *. congruence. }
  pose proof (normalizar_sampled rng representable df sorteadas w1 w'
                obs dm dd Hn) as Hsampled.
  destruct (agregar_one_per_group obs sorteadas Hcodes Hsampled)
    as [Hkeys Hdias].
  pose proof (agregar_linha_final obs sorteadas Hcodes Hsampled) as Hrows.
  exists sorteadas, w1, obs, dm, dd.
  split; [assumption|]. split; [assumption|]. split; [|split; [|split]].
  - rewrite Hkeys. unfold grupos. rewrite groupby_keys.
    apply (StronglySorted_distinct (fun a b => pair_leb a b = true)
             (fun k : Z * Z => k)).
    + apply sort_by_StronglySorted.
      * apply pair_leb_total.
      * apply pair_leb_trans.
    + rewrite map_id, <- groupby_keys.
      apply groupby_keys_NoDup, pair_eqb_eq.
  - intros k. rewrite Hkeys. unfold grupos. split.
    + intros Hk. apply in_map_iff in Hk. destruct Hk as [[k' g] [<- Hkg]].
      now apply (groupby_In pair_eqb pair_leb chave_ano pair_eqb_eq) in Hkg.
    + intros Hk. apply in_map_iff in Hk. destruct Hk as [o [<- Ho]].
      apply in_map_iff. eexists. split; [|
        exact (groupby_has_key pair_eqb pair_leb chave_ano pair_eqb_eq
                 obs o Ho)].
      reflexivity.
  - intros m Hm.
    assert (Hl : In (linha_final m) (map linha_final (agregar obs sorteadas)))
      by now apply in_map.
    rewrite Hrows in Hl. apply in_map_iff in Hl.
    destruct Hl as [[[a b] g] [Heq Hkg]]. unfold linha_final in Heq.
    cbn [fst snd] in Heq.
    apply (groupby_In pair_eqb pair_leb chave_ano pair_eqb_eq) in Hkg.
    destruct Hkg as [Hg _]. inversion Heq as [[Ha Hb Hd]].
    rewrite Hg, Ha, Hb. reflexivity.
  - rewrite Hdias. apply groupby_lengths_sum, pair_eqb_eq.
Qed.

End OneRow.

(** * Gap statistics *)











Lemma last_In {A : Type} (l : list A) : forall d, In (last l d) (d :: l).
Proof.
  induction l as [|x l IH]; intros d; [now left|].
  rewrite last_cons_default. right. apply IH.
Qed.

Section GapStatistics.

Variable rng : Type.
Variable RandomState : Z -> rng.
Variable choice : rng -> nat -> nat -> list nat * rng.
Variable representable : Z -> bool.


End GapStatistics.

(** * The sampler at the ends of the fraction scale *)

Lemma sample_size_full (frac : Q) (n : nat) :
  (frac == 1)%Q -> sample_size frac n = n.
Proof.
  intros Hf. unfold sample_size.
  assert (Hx : (frac * inject_Z (Z.of_nat n) == inject_Z (Z.of_nat n))%Q)
    by (rewrite Hf; ring).
  destruct (float_product_between frac n (Z.of_nat n) (Z.of_nat n))
    as [Hlo Hhi]; [lia | auto | rewrite Hx; split; apply Qle_refl |].
  rewrite (round_half_even_int _ (Z.of_nat n)); [apply Nat2Z.id|].
  apply Qle_antisym; assumption.
Qed.

Lemma sample_size_small (frac : Q) (n : nat) :
  (0 <= frac)%Q -> (frac * inject_Z (Z.of_nat n) <= 1 # 2)%Q ->
  sample_size frac n = 0%nat.
Proof.
  intros H0 Hs. unfold sample_size.
  rewrite round_half_even_half; [reflexivity|].
  apply float_product_half. split; [|assumption].
  assert (Hn : (0 <= inject_Z (Z.of_nat n))%Q)
    by (rewrite <- (Zle_Qle 0); lia).
  nra.
Qed.

Section SamplerEnds.

Variable rng : Type.
Variable RandomState : Z -> rng.
Variable choice : rng -> nat -> nat -> list nat * rng.
Variable representable : Z -> bool.

Lemma process_sampling_size_Ok (frac : Q) (w w' : World rng) (u : unit) :
  process_sampling_size rng frac w = (Ok u, w') -> (0 <= frac <= 1)%Q.
Proof.
  unfold process_sampling_size.
  destruct (Qle_bool frac 1) eqn:E1; simpl; [|discriminate].
  destruct (Qle_bool 0 frac) eqn:E0; simpl; [|discriminate].
  apply Qle_bool_iff in E0, E1. auto.
Qed.

(** What a successful draw says: distinct stations of the input, none when
    the input has none, and otherwise a fraction in range and the rounded
    share of every state. *)
Lemma estacoes_sorteadas_inv (df : DataFrame) (frac : Q) (seed : Z)
    (w w' : World rng) (sel : list Station) :
  choice_spec choice ->
  estacoes_sorteadas rng RandomState choice df frac seed w = (Ok sel, w') ->
  NoDup sel /\ incl sel (estacoes_unicas df) /\
  (estacoes_unicas df = [] \/
   ((0 <= frac <= 1)%Q /\
    forall R, List.length (da_regiao R sel)
              = sample_size frac
                  (List.length (da_regiao R (estacoes_unicas df))))).
Proof.
  intros Hc H. unfold estacoes_sorteadas in H.
  apply bind_Ok in H. destruct H as [[] [w1 [_ H]]].
  destruct (estacoes_unicas df) as [|s0 l0] eqn:E.
  - apply ret_Ok in H. destruct H as [<- _].
    split; [constructor|]. split; [intros s []|]. now left.
  - assert (Hrange : (0 <= frac <= 1)%Q).
    { unfold groupby_sample in H. apply bind_Ok in H.
      destruct H as [u [w2 [Hp _]]].
      eapply process_sampling_size_Ok; eassumption. }
    assert (Hnd : NoDup (s0 :: l0))
      by (rewrite <- E; apply estacoes_unicas_NoDup).
    destruct (groupby_sample_ok rng RandomState choice Hc frac Hrange
                (s0 :: l0) seed w1 Hnd) as [sel' [evs [Hg [Hn [Hi Hl]]]]].
    rewrite Hg in H. inversion H; subst sel'.
    split; [assumption|]. split; [assumption|]. right. now split.
Qed.

Lemma da_regiao_In (R : string) (l : list Station) (s : Station) :
  In s (da_regiao R l) <-> In s l /\ fst s = R.
Proof.
  unfold da_regiao. rewrite filter_In, String.eqb_eq. reflexivity.
Qed.

(** With the fraction at 1 no station is left out. *)
Lemma full_fraction_covers (df : DataFrame) (frac : Q)
    (seed : Z) (w w' : World rng) (sel : list Station) :
  choice_spec choice -> (frac == 1)%Q ->
  estacoes_sorteadas rng RandomState choice df frac seed w = (Ok sel, w') ->
  forall s, In s (estacoes_unicas df) -> In s sel.
Proof.
  intros Hc Hf H.
  destruct (estacoes_sorteadas_inv df frac seed w w' sel Hc H)
    as [Hnd [Hincl Hsize]].
  intros s Hs. destruct Hsize as [Hnil | [_ Hsize]].
  - rewrite Hnil in Hs. contradiction.
  - specialize (Hsize (fst s)).
    rewrite sample_size_full in Hsize by assumption.
    assert (Hsub : incl (da_regiao (fst s) sel)
                        (da_regiao (fst s) (estacoes_unicas df))).
    { intros x Hx. apply da_regiao_In in Hx. apply da_regiao_In.
      destruct Hx. split; [now apply Hincl | assumption]. }
    assert (Hback : incl (da_regiao (fst s) (estacoes_unicas df))
                         (da_regiao (fst s) sel)).
    { apply NoDup_length_incl; [|lia | assumption].
      apply NoDup_filter. assumption. }
    assert (Hin : In s (da_regiao (fst s) sel)).
    { apply Hback. apply da_regiao_In. auto. }
    apply da_regiao_In in Hin. tauto.
Qed.

(** A selection that holds every station keeps every row. *)
Lemma df_amostra_all (df : DataFrame) (sel : list Station) :
  (forall s, In s (estacoes_unicas df) -> In s sel) ->
  df_amostra df sel = rows df.
Proof.
  intros Hall. unfold df_amostra. apply filter_all. intros r Hr.
  unfold isin. apply existsb_exists. exists (EstacaoCodigo r).
  split; [|apply Z.eqb_refl].
  apply in_map_iff. exists (estado r, EstacaoCodigo r).
  split; [reflexivity|]. apply Hall. unfold estacoes_unicas.
  pose proof (drop_duplicates_keeps station_eqb (fun s : Station => s)
                station_eqb_eq (estado r, EstacaoCodigo r)
                (map (fun r => (estado r, EstacaoCodigo r)) (rows df)))
    as Hk.
  rewrite map_id in Hk. apply Hk. apply in_map_iff. now exists r.
Qed.

(** X7. With the fraction at 1 the draw takes every station of the input,
    whatever the seed, and the sample is the whole table. *)
Theorem full_fraction_takes_every_station (df : DataFrame) (frac : Q)
    (seed : Z) (w w' : World rng) (sel : list Station) :
  choice_spec choice -> (frac == 1)%Q ->
  estacoes_sorteadas rng RandomState choice df frac seed w = (Ok sel, w') ->
  Permutation sel (estacoes_unicas df) /\ df_amostra df sel = rows df.
Proof.
  intros Hc Hf H.
  pose proof (full_fraction_covers df frac seed w w' sel Hc Hf H) as Hall.
  destruct (estacoes_sorteadas_inv df frac seed w w' sel Hc H)
    as [Hnd [Hincl _]].
  split; [|now apply df_amostra_all].
  apply NoDup_Permutation; [assumption | apply estacoes_unicas_NoDup |].
  intros s. split; [apply Hincl | apply Hall].
Qed.

(** X8. A state whose stations, times the fraction, make one half or less
    has no station drawn, so no row of the metrics table carries it. *)
Theorem small_stratum_left_out (df : DataFrame) (frac : Q) (R : string)
    (w w' : World rng) tabela m1 m2 :
  choice_spec choice ->
  (frac * inject_Z (Z.of_nat
                      (List.length (da_regiao R (estacoes_unicas df))))
   <= 1 # 2)%Q ->
  processar_dados_complexos rng RandomState choice representable df frac w
    = (Ok (tabela, m1, m2), w') ->
  exists sorteadas w1,
    estacoes_sorteadas rng RandomState choice df frac 42 w
      = (Ok sorteadas, w1) /\
    da_regiao R sorteadas = [] /\
    forall m, In m tabela -> f_estado m <> Some R.
Proof.
  intros Hc Hsmall H. apply processar_inv in H.
  destruct H as [sorteadas [w1 [obs [dm [dd [Hs [_ [-> _]]]]]]]].
  exists sorteadas, w1. split; [assumption|].
  assert (Hnone : da_regiao R sorteadas = []).
  { destruct (estacoes_sorteadas_inv df frac 42 w w1 sorteadas Hc Hs)
      as [_ [Hincl [Hnil | [[H0 _] Hsize]]]].
    - rewrite Hnil in Hincl. destruct sorteadas as [|s l]; [reflexivity|].
      destruct (Hincl s (or_introl eq_refl)).
    - specialize (Hsize R). rewrite sample_size_small in Hsize by assumption.
      destruct (da_regiao R sorteadas); [reflexivity | discriminate]. }
  split; [assumption|].
  intros m Hm Habs. apply agregar_In_estado in Hm.
  destruct Hm as [k [g [_ [[s [Hsin [_ ->]]] | [_ ->]]]]];
    cbn [finalizar f_estado] in Habs; [|discriminate].
  assert (Hin : In s (da_regiao R sorteadas)).
  { apply da_regiao_In. split; [assumption | congruence]. }
  rewrite Hnone in Hin. contradiction.
Qed.

End SamplerEnds.

(** * Table 1: stations per state *)

(** The stations that [nunique] counts in the rows of one state are the
    stations of that state among the distinct (state, station) pairs. *)
Lemma nunique_stratum (df : DataFrame) (R : string) :
  nunique (map EstacaoCodigo
             (filter (fun r => String.eqb (estado r) R) (rows df)))
  = List.length (da_regiao R (estacoes_unicas df)).
Proof.
  unfold nunique.
  transitivity (List.length (map snd (da_regiao R (estacoes_unicas df))));
    [|apply length_map].
  apply Permutation_length, NoDup_Permutation.
  - pose proof (drop_duplicates_NoDup Z.eqb (fun x : Z => x) Z.eqb_eq
                  (map EstacaoCodigo
                     (filter (fun r => String.eqb (estado r) R) (rows df))))
      as H.
    now rewrite map_id in H.
  - apply (NoDup_map_coarser (fun s : Station => s) snd).
    + rewrite map_id. apply NoDup_filter, estacoes_unicas_NoDup.
    + intros [e1 c1] [e2 c2] H1 H2 Heq.
      apply da_regiao_In in H1, H2. destruct H1 as [_ H1], H2 as [_ H2].
      cbn [fst snd] in *. congruence.
  - intros c. split; intros Hc.
    + apply (drop_duplicates_incl Z.eqb (fun x : Z => x) Z.eqb_eq) in Hc.
      apply in_map_iff in Hc. destruct Hc as [r [<- Hr]].
      apply filter_In in Hr. destruct Hr as [Hr He].
      apply String.eqb_eq in He.
      apply in_map_iff. exists (R, EstacaoCodigo r). split; [reflexivity|].
      apply da_regiao_In. split; [|reflexivity].
      unfold estacoes_unicas.
      pose proof (drop_duplicates_keeps station_eqb (fun s : Station => s)
                    station_eqb_eq (estado r, EstacaoCodigo r)
                    (map (fun r => (estado r, EstacaoCodigo r)) (rows df)))
        as Hk.
      rewrite map_id, He in Hk. apply Hk. apply in_map_iff. exists r.
      split; [now rewrite He | assumption].
    + apply in_map_iff in Hc. destruct Hc as [s [<- Hs]].
      apply da_regiao_In in Hs. destruct Hs as [Hs Hf].
      unfold estacoes_unicas in Hs.
      apply (drop_duplicates_incl station_eqb (fun s : Station => s)
               station_eqb_eq) in Hs.
      apply in_map_iff in Hs. destruct Hs as [r [<- Hr]].
      cbn [fst snd] in *.
      pose proof (drop_duplicates_keeps Z.eqb (fun x : Z => x) Z.eqb_eq
                    (EstacaoCodigo r)
                    (map EstacaoCodigo
                       (filter (fun r => String.eqb (estado r) R) (rows df))))
        as Hk.
      rewrite map_id in Hk. apply Hk. apply in_map. apply filter_In.
      split; [assumption | now apply String.eqb_eq].
Qed.

(** The states of table 1. *)
Lemma estados_NoDup (df : DataFrame) :
  NoDup (sort_by String.leb
           (drop_duplicates String.eqb (fun k : string => k)
              (map estado (rows df)))).
Proof.
  apply (Permutation_NoDup (Permutation_sym (sort_by_perm String.leb _))).
  pose proof (drop_duplicates_NoDup String.eqb (fun k : string => k)
                String.eqb_eq (map estado (rows df))) as H.
  now rewrite map_id in H.
Qed.

Lemma estados_In (df : DataFrame) (R : string) :
  In R (sort_by String.leb
          (drop_duplicates String.eqb (fun k : string => k)
             (map estado (rows df))))
  <-> exists r, In r (rows df) /\ estado r = R.
Proof.
  rewrite sort_by_In. split.
  - intros H.
    apply (drop_duplicates_incl String.eqb (fun k : string => k)
             String.eqb_eq) in H.
    apply in_map_iff in H. destruct H as [r [<- Hr]]. now exists r.
  - intros [r [Hr <-]].
    pose proof (drop_duplicates_keeps String.eqb (fun k : string => k)
                  String.eqb_eq (estado r) (map estado (rows df))) as H.
    rewrite map_id in H. apply H. now apply in_map.
Qed.

Lemma estados_total (df : DataFrame) :
  list_sum (map (fun R => List.length (da_regiao R (estacoes_unicas df)))
              (sort_by String.leb
                 (drop_duplicates String.eqb (fun k : string => k)
                    (map estado (rows df)))))
  = List.length (estacoes_unicas df).
Proof.
  unfold da_regiao.
  apply (filter_lengths_sum String.eqb (fun s : Station => fst s)
           String.eqb_eq).
  - apply estados_NoDup.
  - intros s Hs. apply estados_In. unfold estacoes_unicas in Hs.
    apply (drop_duplicates_incl station_eqb (fun s : Station => s)
             station_eqb_eq) in Hs.
    apply in_map_iff in Hs. destruct Hs as [r [<- Hr]]. now exists r.
Qed.

(** The rows of table 1, state by state. *)
Lemma df_estado_rows (df : DataFrame) (t : list EstadoRow) :
  df_estado df = Ok t ->
  t = map (fun R =>
             let n := List.length (da_regiao R (estacoes_unicas df)) in
             mkEstadoRow R n
               (round2 (inject_Z (Z.of_nat n)
                        / inject_Z (Z.of_nat
                                      (List.length (estacoes_unicas df)))
                        * 100)%Q))
          (sort_by String.leb
             (drop_duplicates String.eqb (fun k : string => k)
                (map estado (rows df)))).
Proof.
  unfold df_estado.
  destruct (in_columns "estado" (columns df)); cbn [negb]; [|discriminate].
  destruct (in_columns "EstacaoCodigo" (columns df)); cbn [negb];
    [|discriminate].
  intros [= <-]. unfold groupby. rewrite !map_map. cbn [fst snd].
  change (fold_right Nat.add 0%nat) with list_sum.
  rewrite (map_ext _ (fun R => List.length (da_regiao R (estacoes_unicas df))))
    by (intros R; apply nunique_stratum).
  rewrite estados_total.
  apply map_ext. intros R. now rewrite nunique_stratum.
Qed.

(** X9. Table 1 has one row per state of the input; the row counts the
    distinct (state, station) pairs of its state, which is the group that
    the sampler draws from, and the count is never zero. *)
Theorem state_table_counts_strata (df : DataFrame) (t : list EstadoRow) :
  df_estado df = Ok t ->
  NoDup (map e_estado t) /\
  (forall r, In r (rows df) -> In (estado r) (map e_estado t)) /\
  forall row, In row t ->
    (exists r, In r (rows df) /\ estado r = e_estado row) /\
    qtd_estacao row
    = List.length (da_regiao (e_estado row) (estacoes_unicas df)) /\
    (1 <= qtd_estacao row)%nat.
Proof.
  intros H. apply df_estado_rows in H. subst t.
  rewrite map_map. cbn [e_estado]. rewrite map_id.
  split; [apply estados_NoDup|]. split.
  - intros r Hr. apply estados_In. now exists r.
  - intros row Hrow. apply in_map_iff in Hrow.
    destruct Hrow as [R [<- HR]]. cbn [e_estado qtd_estacao].
    apply estados_In in HR. destruct HR as [r [Hr He]].
    split; [now exists r|]. split; [reflexivity|].
    assert (Hin : In (estado r, EstacaoCodigo r)
                     (da_regiao R (estacoes_unicas df))).
    { apply da_regiao_In. split; [|exact He]. unfold estacoes_unicas.
      pose proof (drop_duplicates_keeps station_eqb (fun s : Station => s)
                    station_eqb_eq (estado r, EstacaoCodigo r)
                    (map (fun r => (estado r, EstacaoCodigo r)) (rows df)))
        as Hk.
      rewrite map_id in Hk. apply Hk. apply in_map_iff. now exists r. }
    destruct (da_regiao R (estacoes_unicas df)); [contradiction|].
    simpl. lia.
Qed.

(** X10. The counts of table 1 add up to the number of distinct
    (state, station) pairs, so a station listed under two states counts
    twice; every share lies between 0 and 100 and is within one hundredth
    of the percentage of that total. *)
Theorem state_table_shares (df : DataFrame) (t : list EstadoRow) :
  df_estado df = Ok t ->
  list_sum (map qtd_estacao t) = List.length (estacoes_unicas df) /\
  forall row, In row t ->
    (0 <= pct_estacao row <= 100)%Q /\
    (Qabs (pct_estacao row
           - inject_Z (Z.of_nat (qtd_estacao row))
             / inject_Z (Z.of_nat (List.length (estacoes_unicas df))) * 100)
     <= 1 # 100)%Q.
Proof.
  intros H. apply df_estado_rows in H. subst t.
  rewrite map_map. cbn [qtd_estacao]. split; [apply estados_total|].
  intros row Hrow. apply in_map_iff in Hrow.
  destruct Hrow as [R [<- HR]]. cbn [pct_estacao qtd_estacao].
  set (n := List.length (da_regiao R (estacoes_unicas df))).
  set (total := List.length (estacoes_unicas df)).
  split.
  - assert (Hle : (n <= total)%nat).
    { unfold n, total, da_regiao. apply filter_length_le. }
    assert (Hn : (0 <= inject_Z (Z.of_nat n))%Q)
      by (rewrite <- (Zle_Qle 0); lia).
    destruct (Nat.eq_dec total 0) as [Hz | Hz].
    + assert (Hn0 : n = 0%nat) by lia. clearbody n total. subst n total.
      vm_compute. split; discriminate.
    + assert (Ht : (0 < inject_Z (Z.of_nat total))%Q)
        by (rewrite <- (Zlt_Qlt 0); lia).
      assert (Hq : (0 <= inject_Z (Z.of_nat n) / inject_Z (Z.of_nat total)
                    <= 1)%Q).
      { split.
        - apply Qle_shift_div_l; [assumption | lra].
        - apply Qle_shift_div_r; [assumption|].
          rewrite Qmult_1_l, <- Zle_Qle. lia. }
      split.
      * apply round2_nonneg. lra.
      * apply Qle_trans with (Qmake 10000 100); [|unfold Qle; simpl; lia].
        apply round2_upper. change (inject_Z 10000) with 10000%Q. lra.
  - eapply Qle_trans; [apply round2_close|]. unfold Qle. simpl. lia.
Qed.

(** * The verdict of the stability test *)

Lemma fold_left_Qmax_spec (l : list Q) : forall x,
  In (fold_left (fun a b => if Qle_bool a b then b else a) l x) (x :: l) /\
  (x <= fold_left (fun a b => if Qle_bool a b then b else a) l x)%Q /\
  Forall (fun y =>
            (y <= fold_left (fun a b => if Qle_bool a b then b else a) l x)%Q)
         l.
Proof.
  induction l as [|y l IH]; intros x; cbn [fold_left].
  - split; [now left|]. split; [apply Qle_refl | constructor].
  - destruct (IH (if Qle_bool x y then y else x)) as [Hin [Hle Hall]].
    destruct (Qle_bool x y) eqn:E.
    + apply Qle_bool_iff in E. split; [|split].
      * destruct Hin as [Hin | Hin]; [right; now left | now right; right].
      * eapply Qle_trans; eassumption.
      * constructor; assumption.
    + assert (Hyx : (y <= x)%Q).
      { apply Qlt_le_weak, Qnot_le_lt. intros H.
        apply Qle_bool_iff in H. congruence. }
      split; [|split].
      * destruct Hin as [Hin | Hin]; [now left | now right; right].
      * assumption.
      * constructor; [eapply Qle_trans; eassumption | assumption].
Qed.

Lemma fold_left_Qmin_spec (l : list Q) : forall x,
  In (fold_left (fun a b => if Qle_bool a b then a else b) l x) (x :: l) /\
  (fold_left (fun a b => if Qle_bool a b then a else b) l x <= x)%Q /\
  Forall (fun y =>
            (fold_left (fun a b => if Qle_bool a b then a else b) l x <= y)%Q)
         l.
Proof.
  induction l as [|y l IH]; intros x; cbn [fold_left].
  - split; [now left|]. split; [apply Qle_refl | constructor].
  - destruct (IH (if Qle_bool x y then x else y)) as [Hin [Hle Hall]].
    destruct (Qle_bool x y) eqn:E.
    + apply Qle_bool_iff in E. split; [|split].
      * destruct Hin as [Hin | Hin]; [now left | now right; right].
      * assumption.
      * constructor; [eapply Qle_trans; eassumption | assumption].
    + assert (Hyx : (y <= x)%Q).
      { apply Qlt_le_weak, Qnot_le_lt. intros H.
        apply Qle_bool_iff in H. congruence. }
      split; [|split].
      * destruct Hin as [Hin | Hin]; [right; now left | now right; right].
      * eapply Qle_trans; eassumption.
      * constructor; assumption.
Qed.

Lemma Qmax_list_spec (l : list Q) (mx : Q) :
  Qmax_list l = Some mx -> In mx l /\ forall y, In y l -> (y <= mx)%Q.
Proof.
  destruct l as [|x t]; [discriminate|]. intros [= <-].
  destruct (fold_left_Qmax_spec t x) as [Hin [Hle Hall]].
  split; [assumption|]. rewrite Forall_forall in Hall.
  intros y [<- | Hy]; [assumption | now apply Hall].
Qed.

Lemma Qmin_list_spec (l : list Q) (mn : Q) :
  Qmin_list l = Some mn -> In mn l /\ forall y, In y l -> (mn <= y)%Q.
Proof.
  destruct l as [|x t]; [discriminate|]. intros [= <-].
  destruct (fold_left_Qmin_spec t x) as [Hin [Hle Hall]].
  split; [assumption|]. rewrite Forall_forall in Hall.
  intros y [<- | Hy]; [assumption | now apply Hall].
Qed.

Lemma present_In {A : Type} (l : list (option A)) (a : A) :
  In a (present l) <-> In (Some a) l.
Proof.
  unfold present. rewrite in_flat_map. split.
  - intros [[x|] [Hx Ha]]; [|contradiction].
    destruct Ha as [<- | []]. assumption.
  - intros H. exists (Some a). split; [assumption | now left].
Qed.

(** The spread is taken between two of the means present and bounds every
    other one. *)
Lemma amplitude_spec (df_comparacao : list Resultado) :
  match amplitude df_comparacao with
  | None => forall a, ~ In (Some a) (map Media_Completude df_comparacao)
  | Some amp =>
      exists mx mn,
        In (Some mx) (map Media_Completude df_comparacao) /\
        In (Some mn) (map Media_Completude df_comparacao) /\
        amp = (mx - mn)%Q /\
        forall a, In (Some a) (map Media_Completude df_comparacao) ->
                  (mn <= a <= mx)%Q
  end.
Proof.
  unfold amplitude.
  destruct (present (map Media_Completude df_comparacao)) as [|x t] eqn:E.
  - cbn [Qmax_list]. intros a Ha. apply present_In in Ha.
    rewrite E in Ha. contradiction.
  - destruct (Qmax_list (x :: t)) as [mx|] eqn:Emx; [|discriminate].
    destruct (Qmin_list (x :: t)) as [mn|] eqn:Emn; [|discriminate].
    apply Qmax_list_spec in Emx. apply Qmin_list_spec in Emn.
    destruct Emx as [Hmx Hmax], Emn as [Hmn Hmin].
    rewrite <- E in Hmx, Hmn. apply present_In in Hmx, Hmn.
    exists mx, mn. repeat split; try assumption.
    + apply Hmin. rewrite <- E. now apply present_In.
    + apply Hmax. rewrite <- E. now apply present_In.
Qed.

(** X11. The amplitude shown under the stability table is the largest
    difference between two of the means present, and the test reports a
    very stable sample exactly when some mean is present and no two of
    them are one percentage point or more apart. *)
Theorem stability_verdict (df_comparacao : list Resultado) :
  let medias := map Media_Completude df_comparacao in
  (forall amp, amplitude df_comparacao = Some amp ->
     (0 <= amp)%Q /\
     (exists a b, In (Some a) medias /\ In (Some b) medias /\
                  amp = (a - b)%Q) /\
     forall a b, In (Some a) medias -> In (Some b) medias ->
                 (a - b <= amp)%Q) /\
  (amplitude df_comparacao = None <-> forall a, ~ In (Some a) medias) /\
  (conclusao_do_teste (amplitude df_comparacao) = MuitoEstavel <->
   (exists a, In (Some a) medias) /\
   forall a b, In (Some a) medias -> In (Some b) medias -> (a - b < 1)%Q).
Proof.
  intros medias. subst medias.
  pose proof (amplitude_spec df_comparacao) as Hspec.
  destruct (amplitude df_comparacao) as [amp|].
  - destruct Hspec as [mx [mn [Hmx [Hmn [-> Hb]]]]].
    split; [|split].
    + intros amp [= <-]. split; [|split].
      * destruct (Hb mx Hmx). lra.
      * now exists mx, mn.
      * intros a b Ha Hb'. destruct (Hb a Ha), (Hb b Hb'). lra.
    + split; [discriminate|]. intros H. exfalso. exact (H mx Hmx).
    + cbn [conclusao_do_teste]. split.
      * destruct (Qle_bool 1 (mx - mn)) eqn:E; cbn [negb]; [discriminate|].
        intros _. split; [now exists mx|].
        intros a b Ha Hb'. destruct (Hb a Ha), (Hb b Hb').
        assert (Hlt : (mx - mn < 1)%Q).
        { apply Qnot_le_lt. intros Hge. apply Qle_bool_iff in Hge.
          congruence. }
        lra.
      * intros [_ H]. specialize (H mx mn Hmx Hmn).
        destruct (Qle_bool 1 (mx - mn)) eqn:E; cbn [negb]; [|reflexivity].
        apply Qle_bool_iff in E. lra.
  - split; [|split].
    + intros amp [=].
    + split; [intros _; exact Hspec | reflexivity].
    + cbn [conclusao_do_teste]. split; [discriminate|].
      intros [[a Ha] _]. exfalso. exact (Hspec a Ha).
Qed.

(** * The five runs of the stability test *)



Section Runs.

Variable rng : Type.
Variable RandomState : Z -> rng.
Variable choice : rng -> nat -> nat -> list nat * rng.
Variable representable : Z -> bool.

(** Every result of the loop comes from the station-year rows of one
    seed. *)
Lemma laco_inv (df : DataFrame) (frac : Q) (seeds : list Z) :
  forall acc (w w' : World rng) res,
    laco rng RandomState choice representable df frac seeds acc w
      = (Ok res, w') ->
    exists rs,
      res = acc ++ rs /\
      Forall (fun r =>
                exists seed w1 w2 resumo,
                  df_resumo rng RandomState choice representable df frac
                    seed w1 = (Ok resumo, w2) /\
                  Media_Completude r = Qmean (map r_Completude resumo)) rs.
Proof.
  induction seeds as [|seed rest IH]; intros acc w w' res H.
  - cbn [laco] in H. apply ret_Ok in H. destruct H as [<- _].
    exists []. split; [now rewrite app_nil_r | constructor].
  - cbn [laco] in H. apply bind_Ok in H. destruct H as [r [w1 [Hi H]]].
    apply IH in H. destruct H as [rs [-> Hall]].
    exists (r :: rs). split; [now rewrite <- app_assoc|].
    constructor; [|assumption].
    unfold iteracao in Hi. apply bind_Ok in Hi.
    destruct Hi as [resumo [w2 [Hd Hr]]]. apply ret_Ok in Hr.
    destruct Hr as [<- _]. now exists seed, w, w2, resumo.
Qed.



(** With the whole table sampled the rows of a seed do not depend on
    it. *)
Lemma df_resumo_full (df : DataFrame) (frac : Q) (seed seed' : Z)
    (w1 w1' w2 w2' : World rng) resumo resumo' :
  choice_spec choice -> (frac == 1)%Q ->
  df_resumo rng RandomState choice representable df frac seed w1
    = (Ok resumo, w2) ->
  df_resumo rng RandomState choice representable df frac seed' w1'
    = (Ok resumo', w2') ->
  resumo = resumo'.
Proof.
  intros Hc Hf H H'. unfold df_resumo in H, H'.
  apply bind_Ok in H. destruct H as [sel [wa [Hs H]]].
  apply bind_Ok in H'. destruct H' as [sel' [wb [Hs' H']]].
  rewrite (df_amostra_all df sel
             (full_fraction_covers rng RandomState choice representable df frac seed
                w1 wa sel Hc Hf Hs)) in H.
  rewrite (df_amostra_all df sel'
             (full_fraction_covers rng RandomState choice representable df frac seed'
                w1' wb sel' Hc Hf Hs')) in H'.
  match type of H with
  | ?m wa = _ =>
      assert (Hst : stable m);
        [|destruct (stable_result m wa wb Hst) as [Heq _];
          rewrite H, H' in Heq; cbn [fst] in Heq; now inversion Heq]
  end.
  apply stable_bind; [apply stable_blindagem_mes|]. intros ?.
  apply stable_bind; [apply stable_melt_com_datas|]. intros ?.
  apply stable_ret.
Qed.

(** X13. With the fraction at 1 the five runs of the stability test agree:
    the means are equal, the amplitude is 0, and the test reports a very
    stable sample as soon as one mean is there. *)
Theorem full_fraction_is_stable (df : DataFrame) (frac : Q)
    (w w' : World rng) (res : list Resultado) :
  choice_spec choice -> (frac == 1)%Q ->
  executar_teste_estabilidade rng RandomState choice representable df frac w
    = (Ok res, w') ->
  (forall r1 r2, In r1 res -> In r2 res ->
     Media_Completude r1 = Media_Completude r2) /\
  (forall amp, amplitude res = Some amp -> (amp == 0)%Q) /\
  ((exists r m, In r res /\ Media_Completude r = Some m) ->
   conclusao_do_teste (amplitude res) = MuitoEstavel).
Proof.
  intros Hc Hf H. unfold executar_teste_estabilidade in H.
  apply laco_inv in H. destruct H as [rs [Hres Hall]].
  change ([] ++ rs) with rs in Hres. subst res.
  rewrite Forall_forall in Hall.
  assert (Hsame : forall r1 r2, In r1 rs -> In r2 rs ->
                    Media_Completude r1 = Media_Completude r2).
  { intros r1 r2 H1 H2.
    destruct (Hall r1 H1) as [s1 [wa [wb [resumo1 [Hd1 ->]]]]].
    destruct (Hall r2 H2) as [s2 [wc [wd [resumo2 [Hd2 ->]]]]].
    now rewrite (df_resumo_full df frac s1 s2 wa wc wb wd resumo1 resumo2
                   Hc Hf Hd1 Hd2). }
  assert (Hzero : forall amp, amplitude rs = Some amp -> (amp == 0)%Q).
  { intros amp Hamp. pose proof (amplitude_spec rs) as Hspec.
    rewrite Hamp in Hspec. destruct Hspec as [mx [mn [Hmx [Hmn [-> _]]]]].
    apply in_map_iff in Hmx, Hmn.
    destruct Hmx as [r1 [H1 Hr1]], Hmn as [r2 [H2 Hr2]].
    pose proof (Hsame r1 r2 Hr1 Hr2) as Heq. rewrite H1, H2 in Heq.
    inversion Heq. ring. }
  split; [exact Hsame|]. split; [exact Hzero|].
  intros [r [m [Hr Hm]]]. pose proof (amplitude_spec rs) as Hspec.
  destruct (amplitude rs) as [amp|] eqn:Hamp.
  - specialize (Hzero amp eq_refl). cbn [conclusao_do_teste].
    destruct (Qle_bool 1 amp) eqn:E; [|reflexivity].
    apply Qle_bool_iff in E. rewrite Hzero in E. exfalso. lra.
  - exfalso. apply (Hspec m). rewrite <- Hm. now apply in_map.
Qed.

End Runs.

(** * The year filter and the yearly chart *)

Lemma isin_In (x : Z) (l : list Z) : isin x l = true <-> In x l.
Proof. unfold isin. apply (existsb_eqb_In Z.eqb Z.eqb_eq). Qed.

Lemma anos_disponiveis_In (df_final : list FinalRow) (a : Z) :
  In a (anos_disponiveis df_final)
  <-> exists m, In m df_final /\ f_Ano m = a.
Proof.
  unfold anos_disponiveis. rewrite sort_by_In. split.
  - intros H.
    apply (drop_duplicates_incl Z.eqb (fun k : Z => k) Z.eqb_eq) in H.
    apply in_map_iff in H. destruct H as [m [<- Hm]]. now exists m.
  - intros [m [Hm <-]].
    pose proof (drop_duplicates_keeps Z.eqb (fun k : Z => k) Z.eqb_eq
                  (f_Ano m) (map f_Ano df_final)) as H.
    rewrite map_id in H. apply H. now apply in_map.
Qed.

(** X14. The options of the year filter are the years of the metrics table,
    each once and in ascending order; the preselected years are those of
    2021 to 2024 that the table has; selecting every option leaves the
    table as it is, and a selection keeps exactly the rows of its
    years. *)
Theorem year_filter_options (df_final : list FinalRow) :
  StronglySorted Z.lt (anos_disponiveis df_final) /\
  (forall a, In a (anos_disponiveis df_final)
             <-> exists m, In m df_final /\ f_Ano m = a) /\
  (forall a, In a (anos_padrao (anos_disponiveis df_final))
             <-> 2021 <= a <= 2024 /\ exists m, In m df_final /\ f_Ano m = a) /\
  df_filtrado df_final (anos_disponiveis df_final) = df_final /\
  (forall anos_selecionados m,
     In m (df_filtrado df_final anos_selecionados)
     <-> In m df_final /\ In (f_Ano m) anos_selecionados).
Proof.
  split; [|split; [|split; [|split]]].
  - unfold anos_disponiveis.
    apply (StronglySorted_weaken
             (fun a b : Z => Z.leb a b = true /\ a <> b)).
    + intros a b _ _ [Hle Hne]. apply Z.leb_le in Hle. lia.
    + apply (StronglySorted_distinct (fun a b : Z => Z.leb a b = true)
               (fun a : Z => a)).
      * apply sort_by_StronglySorted.
        -- intros a b. rewrite !Z.leb_le. lia.
        -- intros a b c. rewrite !Z.leb_le. lia.
      * rewrite map_id.
        apply (Permutation_NoDup (Permutation_sym (sort_by_perm Z.leb _))).
        pose proof (drop_duplicates_NoDup Z.eqb (fun k : Z => k) Z.eqb_eq
                      (map f_Ano df_final)) as H.
        now rewrite map_id in H.
  - apply anos_disponiveis_In.
  - intros a. unfold anos_padrao. rewrite filter_In, isin_In.
    rewrite anos_disponiveis_In. cbn [In]. split.
    + intros [Hin H]. split; [lia | assumption].
    + intros [Hin H]. split; [lia | assumption].
  - unfold df_filtrado. apply filter_all. intros m Hm. apply isin_In.
    apply anos_disponiveis_In. now exists m.
  - intros sel m. unfold df_filtrado. now rewrite filter_In, isin_In.
Qed.

Section YearlyChart.

Variable rng : Type.
Variable RandomState : Z -> rng.
Variable choice : rng -> nat -> nat -> list nat * rng.
Variable representable : Z -> bool.



End YearlyChart.

(** * When a run succeeds *)

Section Success.

Variable rng : Type.
Variable RandomState : Z -> rng.
Variable choice : rng -> nat -> nat -> list nat * rng.
Variable representable : Z -> bool.

Lemma estacoes_unicas_nil (df : DataFrame) :
  estacoes_unicas df = [] <-> rows df = [].
Proof.
  split.
  - intros H. destruct (rows df) as [|r l] eqn:E; [reflexivity|].
    exfalso. apply (estacoes_unicas_nonempty df); [|assumption].
    rewrite E. discriminate.
  - intros H. unfold estacoes_unicas. now rewrite H.
Qed.

(** The draw succeeds on a table with the two columns it reads, unless
    the table has rows and the fraction is out of range. *)
Lemma estacoes_sorteadas_runs (df : DataFrame) (frac : Q) (seed : Z)
    (w : World rng) :
  has_columns ["estado"; "EstacaoCodigo"]%string df = true ->
  rows df = [] \/ (0 <= frac <= 1)%Q ->
  exists sel w',
    estacoes_sorteadas rng RandomState choice df frac seed w = (Ok sel, w').
Proof.
  intros Hc Hf. unfold estacoes_sorteadas.
  rewrite (bind_ok_eq _ _ _ _ _ (require_ok _ _ w Hc)).
  destruct Hf as [Hnil | Hrange].
  - apply estacoes_unicas_nil in Hnil. rewrite Hnil.
    exists [], w. reflexivity.
  - destruct (groupby_sample_runs rng RandomState choice (estacoes_unicas df)
                frac seed w Hrange) as [sel [evs Hg]].
    eexists. eexists. exact Hg.
Qed.

Lemma estacoes_sorteadas_Ok (df : DataFrame) (frac : Q) (seed : Z)
    (w w' : World rng) (sel : list Station) :
  estacoes_sorteadas rng RandomState choice df frac seed w = (Ok sel, w') ->
  has_columns ["estado"; "EstacaoCodigo"]%string df = true /\
  (rows df = [] \/ (0 <= frac <= 1)%Q).
Proof.
  unfold estacoes_sorteadas. intros H.
  apply bind_Ok in H. destruct H as [u [w1 [Hr H]]].
  split; [eapply require_Ok_inv; eassumption|].
  destruct (estacoes_unicas df) as [|s0 l0] eqn:E.
  - left. now apply estacoes_unicas_nil.
  - right. unfold groupby_sample in H. apply bind_Ok in H.
    destruct H as [u' [w2 [Hp _]]].
    eapply process_sampling_size_Ok; eassumption.
Qed.

Lemma melt_com_datas_Ok (id_vars cols : list string) (amostra : list Row)
    (w w' : World rng) (validos : list Obs) :
  melt_com_datas rng representable id_vars cols amostra w = (Ok validos, w') ->
  in_columns "Valor" cols = false /\
  forallb (fun c => in_columns c cols) id_vars = true.
Proof.
  unfold melt_com_datas. intros H.
  apply bind_Ok in H. destruct H as [df_melted [w1 [Hm _]]].
  apply melt_Ok_inv in Hm. tauto.
Qed.

Lemma forallb_columns (df : DataFrame) (labels : list string) (c : string) :
  has_columns labels df = true -> In c labels ->
  in_columns c (columns df) = true.
Proof.
  unfold has_columns. rewrite forallb_forall. auto.
Qed.

Lemma normalizar_runs (df : DataFrame) (sorteadas : list Station)
    (w : World rng) :
  has_columns colunas_obrigatorias df = true ->
  in_columns "Valor" (columns df) = false ->
  exists out, normalizar rng representable df sorteadas w = (Ok out, w).
Proof.
  intros Hc Hval. unfold normalizar.
  destruct (blindagem_mes_ok rng (columns df) (df_amostra df sorteadas) w)
    as [a Hb].
  { apply forallb_forall. intros c Hin.
    apply (forallb_columns df colunas_obrigatorias c Hc).
    cbn [In colunas_obrigatorias] in *. tauto. }
  rewrite (bind_ok_eq _ _ _ _ _ Hb).
  destruct (melt_com_datas_ok rng representable
              ["EstacaoCodigo"; "estado"; "Ano"; "Mes"]%string
              (columns df) a w Hval Hc) as [validos Hv].
  rewrite (bind_ok_eq _ _ _ _ _ Hv). eexists. reflexivity.
Qed.

Lemma df_resumo_runs_on (df : DataFrame) (frac : Q) (seed : Z)
    (w : World rng) :
  has_columns colunas_obrigatorias df = true ->
  in_columns "Valor" (columns df) = false ->
  rows df = [] \/ (0 <= frac <= 1)%Q ->
  exists resumo w',
    df_resumo rng RandomState choice representable df frac seed w
      = (Ok resumo, w').
Proof.
  intros Hc Hval Hf. unfold df_resumo.
  destruct (estacoes_sorteadas_runs df frac seed w) as [sel [w1 Hs]];
    [|assumption|].
  { apply forallb_forall. intros c Hin.
    apply (forallb_columns df colunas_obrigatorias c Hc).
    cbn [In colunas_obrigatorias] in *. tauto. }
  rewrite (bind_ok_eq _ _ _ _ _ Hs).
  destruct (blindagem_mes_ok rng (columns df) (df_amostra df sel) w1)
    as [a Hb].
  { apply forallb_forall. intros c Hin.
    apply (forallb_columns df colunas_obrigatorias c Hc).
    cbn [In colunas_obrigatorias] in *. tauto. }
  rewrite (bind_ok_eq _ _ _ _ _ Hb).
  destruct (melt_com_datas_ok rng representable
              ["EstacaoCodigo"; "Ano"; "Mes"]%string (columns df) a w1 Hval)
    as [validos Hv].
  { apply forallb_forall. intros c Hin.
    apply (forallb_columns df colunas_obrigatorias c Hc).
    cbn [In colunas_obrigatorias] in *. tauto. }
  rewrite (bind_ok_eq _ _ _ _ _ Hv). eexists. eexists. reflexivity.
Qed.

Lemma laco_runs (df : DataFrame) (frac : Q) (seeds : list Z) :
  has_columns colunas_obrigatorias df = true ->
  in_columns "Valor" (columns df) = false ->
  rows df = [] \/ (0 <= frac <= 1)%Q ->
  forall acc (w : World rng),
    exists res w',
      laco rng RandomState choice representable df frac seeds acc w
        = (Ok res, w').
Proof.
  intros Hc Hval Hf. induction seeds as [|seed rest IH]; intros acc w.
  - exists acc, w. reflexivity.
  - destruct (df_resumo_runs_on df frac seed w Hc Hval Hf)
      as [resumo [w1 Hd]].
    cbn [laco]. unfold iteracao.
    rewrite (bind_ok_eq _ _ _ _ _
               (eq_trans (bind_ok_eq _ _ _ _ _ Hd) eq_refl)).
    apply IH.
Qed.

(** X16. The main function and the stability test succeed on exactly the
    same inputs: the table has the columns EstacaoCodigo, estado, Ano and
    Mes and no column named Valor, and either it has no rows or the
    fraction lies in [0, 1]. Nothing in the rows can make a run fail. *)
Theorem run_succeeds_iff (df : DataFrame) (frac : Q) (w : World rng) :
  ((exists out w',
      processar_dados_complexos rng RandomState choice representable
        df frac w = (Ok out, w'))
   <-> has_columns colunas_obrigatorias df = true /\
       in_columns "Valor" (columns df) = false /\
       (rows df = [] \/ (0 <= frac <= 1)%Q)) /\
  ((exists res w',
      executar_teste_estabilidade rng RandomState choice representable
        df frac w = (Ok res, w'))
   <-> has_columns colunas_obrigatorias df = true /\
       in_columns "Valor" (columns df) = false /\
       (rows df = [] \/ (0 <= frac <= 1)%Q)).
Proof.
  split; split.
  - intros [[[tabela m1] m2] [w' H]]. apply processar_inv in H.
    destruct H as [sorteadas [w1 [obs [dm [dd [Hs [Hn _]]]]]]].
    apply estacoes_sorteadas_Ok in Hs. destruct Hs as [_ Hf].
    apply normalizar_inv in Hn.
    destruct Hn as [amostra [w2 [validos [_ [Hm _]]]]].
    apply melt_com_datas_Ok in Hm. destruct Hm as [Hval Hm].
    split; [exact Hm|]. split; assumption.
  - intros [Hc [Hval Hf]]. unfold processar_dados_complexos.
    destruct (estacoes_sorteadas_runs df frac 42 w) as [sel [w1 Hs]];
      [|assumption|].
    { apply forallb_forall. intros c Hin.
      apply (forallb_columns df colunas_obrigatorias c Hc).
      cbn [In colunas_obrigatorias] in *. tauto. }
    rewrite (bind_ok_eq _ _ _ _ _ Hs).
    destruct (normalizar_runs df sel w1 Hc Hval) as [[[obs dm] dd] Hn].
    rewrite (bind_ok_eq _ _ _ _ _ Hn). eexists. eexists. reflexivity.
  - intros [res [w' H]]. unfold executar_teste_estabilidade in H.
    unfold seeds_para_testar in H. cbn [laco] in H.
    apply bind_Ok in H. destruct H as [r [w1 [Hi _]]].
    unfold iteracao in Hi. apply bind_Ok in Hi.
    destruct Hi as [resumo [w2 [Hd _]]]. unfold df_resumo in Hd.
    apply bind_Ok in Hd. destruct Hd as [sel [w3 [Hs Hd]]].
    apply bind_Ok in Hd. destruct Hd as [a [w4 [_ Hd]]].
    apply bind_Ok in Hd. destruct Hd as [validos [w5 [Hm _]]].
    apply estacoes_sorteadas_Ok in Hs. destruct Hs as [Hc1 Hf].
    apply melt_com_datas_Ok in Hm. destruct Hm as [Hval Hm].
    split; [|split; assumption].
    unfold has_columns in *. cbn [forallb colunas_obrigatorias] in *.
    rewrite !andb_true_iff in *. tauto.
  - intros [Hc [Hval Hf]]. apply laco_runs; assumption.
Qed.

End Success.

(** * Completeness against gaps *)



Section Room.

Variable rng : Type.
Variable RandomState : Z -> rng.
Variable choice : rng -> nat -> nat -> list nat * rng.
Variable representable : Z -> bool.

(** A row of the metrics table and the group of daily rows behind it. *)
Lemma final_row_group (df : DataFrame) (frac : Q)
    (w w' : World rng) tabela m1 m2 (m : FinalRow) :
  processar_dados_complexos rng RandomState choice representable df frac w
    = (Ok (tabela, m1, m2), w') ->
  In m tabela ->
  exists k first rest est,
    m = finalizar (k, List.length (first :: rest),
                   Some (intervalos_do_grupo (first :: rest)), est) /\
    StronglySorted (fun a b => Data_Real a < Data_Real b) (first :: rest) /\
    Z.of_nat (List.length (first :: rest)) <= get_dias_ano (snd k) /\
    Data_Real (last rest first) - Data_Real first <= get_dias_ano (snd k) - 1.
Proof.
  intros H Hm. apply processar_inv in H.
  destruct H as [sorteadas [w1 [obs [dm [dd [_ [Hn [-> _]]]]]]]].
  apply agregar_In in Hm. destruct Hm as [k [g [est [Hg ->]]]].
  apply normalizar_inv in Hn.
  destruct Hn as [amostra [w2 [validos [_ [Hmelt [Hobs _]]]]]].
  apply melt_com_datas_valid in Hmelt.
  apply normalizar_valid in Hmelt. rewrite <- Hobs in Hmelt.
  pose proof (groupby_nonempty pair_eqb pair_leb chave_ano pair_eqb_eq
                obs k g Hg) as Hne.
  assert (Hsorted : StronglySorted (fun a b => Data_Real a < Data_Real b) g).
  { rewrite Hobs in Hg. eapply grupos_chronological; [|exact Hg].
    apply drop_duplicates_NoDup, pair_eqb_eq. }
  assert (Hsize : Z.of_nat (List.length g) <= get_dias_ano (snd k)).
  { apply (group_size_bound representable obs k g); [|assumption|assumption].
    subst obs. apply normalizar_NoDup. }
  rewrite Forall_forall in Hmelt.
  assert (Hmem : forall o, In o g ->
            valid_date (snd k) (m_Mes (melted o)) (Dia o) = true /\
            Data_Real o
            = days_from_civil (snd k) (m_Mes (melted o)) (Dia o)).
  { intros o Ho.
    destruct (groupby_members pair_eqb pair_leb chave_ano pair_eqb_eq
                obs k g o Hg Ho) as [Hin Hk].
    specialize (Hmelt o Hin). unfold data_valida in Hmelt.
    apply to_datetime_Some in Hmelt. rewrite <- Hk. exact Hmelt. }
  destruct g as [|first rest]; [contradiction|].
  exists k, first, rest, est. split; [reflexivity|].
  split; [assumption|]. split; [assumption|].
  destruct (Hmem first (or_introl eq_refl)) as [Hv1 ->].
  destruct (Hmem _ (last_In rest first)) as [Hv2 ->].
  apply days_from_civil_same_year; assumption.
Qed.


(** X18. A row of the metrics table shows a completeness of 100 exactly
    when the station has data on every day of the year: the rounding to
    two places never turns an incomplete year into 100. *)
Theorem full_completeness_iff_every_day (df : DataFrame) (frac : Q)
    (w w' : World rng) tabela m1 m2 (m : FinalRow) :
  processar_dados_complexos rng RandomState choice representable df frac w
    = (Ok (tabela, m1, m2), w') ->
  In m tabela ->
  ((Completude m == 100)%Q
   <-> Z.of_nat (dias_com_dados m) = get_dias_ano (f_Ano m)).
Proof.
  intros H Hm.
  destruct (final_row_group df frac w w' tabela m1 m2 m H Hm)
    as [k [first [rest [est [-> [_ [Hsize _]]]]]]].
  cbn [finalizar Completude dias_com_dados f_Ano].
  set (n := Z.of_nat (List.length (first :: rest))) in *.
  pose proof (get_dias_ano_pos (snd k)) as Hpos.
  assert (H366 : get_dias_ano (snd k) <= 366).
  { unfold get_dias_ano.
    destruct (((snd k mod 4 =? 0) && negb (snd k mod 100 =? 0))
              || (snd k mod 400 =? 0)); lia. }
  set (T := get_dias_ano (snd k)) in *.
  assert (Ht : (0 < inject_Z T)%Q) by (rewrite <- (Zlt_Qlt 0); assumption).
  unfold round2. split.
  - intros Heq.
    destruct (Z.eq_dec n T) as [|Hne]; [assumption|]. exfalso.
    assert (Hlt : n <= T - 1) by lia.
    assert (Hr : round_half_even (inject_Z n / inject_Z T * 100 * 100)
                 <= 9973).
    { apply round_half_even_le.
      assert (Hq : (inject_Z n / inject_Z T <= 365 # 366)%Q).
      { apply Qle_shift_div_r; [assumption|].
        assert (H1 : (inject_Z n + 1 <= inject_Z T)%Q).
        { change 1%Q with (inject_Z 1).
          rewrite <- inject_Z_plus, <- Zle_Qle. lia. }
        assert (H2 : (inject_Z T <= 366)%Q)
          by (change 366%Q with (inject_Z 366); now rewrite <- Zle_Qle).
        lra. }
      change (inject_Z 9973) with 9973%Q. lra. }
    unfold Qeq in Heq. cbn [Qnum Qden] in Heq. lia.
  - intros Heq.
    rewrite (round_half_even_int _ 10000).
    + reflexivity.
    + rewrite Heq. change (inject_Z 10000) with 10000%Q. field.
      intros Hz. rewrite Hz in Ht. now apply Qlt_irrefl in Ht.
Qed.

End Room.

(** * The two copies of the pipeline *)

(** ** Counting by key *)

Lemma filter_map_length {A B : Type} (f : A -> B) (p : B -> bool)
    (l : list A) :
  List.length (filter p (map f l))
  = List.length (filter (fun a => p (f a)) l).
Proof.
  induction l as [|a l IH]; [reflexivity|]. cbn [map filter].
  destruct (p (f a)); cbn [List.length]; now rewrite IH.
Qed.

Lemma filter_length_perm {A : Type} (p : A -> bool) (l l' : list A) :
  Permutation l l' ->
  List.length (filter p l) = List.length (filter p l').
Proof.
  induction 1 as [|x l l' _ IH|x y l|l l' l'' _ IH1 _ IH2].
  - reflexivity.
  - cbn [filter]. destruct (p x); cbn [List.length]; now rewrite IH.
  - cbn [filter]. destruct (p x), (p y); reflexivity.
  - now rewrite IH1.
Qed.

Lemma drop_duplicates_from_map {A K : Type} (eqb : K -> K -> bool)
    (key : A -> K) (f : A -> A) (l : list A) :
  (forall a, key (f a) = key a) ->
  forall seen,
    drop_duplicates_from eqb key seen (map f l)
    = map f (drop_duplicates_from eqb key seen l).
Proof.
  intros Hk. induction l as [|a l IH]; intros seen; [reflexivity|].
  cbn [map drop_duplicates_from]. rewrite Hk.
  destruct (existsb (eqb (key a)) seen); [apply IH|].
  cbn [map]. now rewrite IH.
Qed.

Lemma sorted_unique {A : Type} (leb : A -> A -> bool) :
  (forall a b, leb a b = true -> leb b a = true -> a = b) ->
  forall l1 l2,
    StronglySorted (fun a b => leb a b = true /\ a <> b) l1 ->
    StronglySorted (fun a b => leb a b = true /\ a <> b) l2 ->
    (forall x, In x l1 <-> In x l2) ->
    l1 = l2.
Proof.
  intros Hanti. induction l1 as [|x1 t1 IH]; intros l2 H1 H2 Hin.
  - destruct l2 as [|x2 t2]; [reflexivity|].
    exfalso. apply (proj2 (Hin x2)). now left.
  - destruct l2 as [|x2 t2].
    + exfalso. apply (proj1 (Hin x1)). now left.
    + inversion H1 as [|? ? Ht1 Hx1]; subst.
      inversion H2 as [|? ? Ht2 Hx2]; subst.
      rewrite Forall_forall in Hx1, Hx2.
      assert (Heq : x1 = x2).
      { destruct (proj1 (Hin x1) (or_introl eq_refl)) as [E | E1];
          [now symmetry|].
        destruct (proj2 (Hin x2) (or_introl eq_refl)) as [E | E2];
          [assumption|].
        apply Hanti; [apply (Hx1 x2 E2) | apply (Hx2 x1 E1)]. }
      subst x2. f_equal. apply IH; try assumption.
      intros x. split; intros Hx.
      * destruct (proj1 (Hin x) (or_intror Hx)) as [E | E]; [|assumption].
        subst x. exfalso. now apply (proj2 (Hx1 x1 Hx)).
      * destruct (proj2 (Hin x) (or_intror Hx)) as [E | E]; [|assumption].
        subst x. exfalso. now apply (proj2 (Hx2 x1 Hx)).
Qed.

Section Counting.

Context {A K : Type} (eqb leb : K -> K -> bool) (key : A -> K).
Hypothesis eqb_eq : forall a b, eqb a b = true <-> a = b.
Hypothesis leb_total : forall a b, leb a b = true \/ leb b a = true.
Hypothesis leb_trans :
  forall a b c, leb a b = true -> leb b c = true -> leb a c = true.
Hypothesis leb_antisym :
  forall a b, leb a b = true -> leb b a = true -> a = b.

Lemma groupby_keys_sorted (l : list A) :
  StronglySorted (fun a b => leb a b = true /\ a <> b)
    (sort_by leb (drop_duplicates eqb (fun k => k) (map key l))).
Proof.
  apply (StronglySorted_distinct (fun a b => leb a b = true)
           (fun k : K => k)).
  - now apply sort_by_StronglySorted.
  - rewrite map_id, <- (groupby_keys eqb leb key).
    now apply groupby_keys_NoDup.
Qed.

(** The sizes of the groups do not depend on the order of the rows. *)
Lemma group_sizes_perm (l l' : list A) :
  Permutation l l' ->
  map (fun kg => (fst kg, List.length (snd kg))) (groupby eqb leb key l)
  = map (fun kg => (fst kg, List.length (snd kg))) (groupby eqb leb key l').
Proof.
  intros Hp. unfold groupby. rewrite !map_map. cbn [fst snd].
  replace (sort_by leb (drop_duplicates eqb (fun k => k) (map key l')))
    with (sort_by leb (drop_duplicates eqb (fun k => k) (map key l))).
  - apply map_ext. intros k. f_equal. now apply filter_length_perm.
  - apply (sorted_unique leb leb_antisym);
      [apply groupby_keys_sorted | apply groupby_keys_sorted |].
    intros k. rewrite !sort_by_In. split; intros Hk.
    + apply (drop_duplicates_incl eqb (fun k => k) eqb_eq) in Hk.
      apply (Permutation_in _ (Permutation_map key Hp)) in Hk.
      pose proof (drop_duplicates_keeps eqb (fun k : K => k) eqb_eq k
                    (map key l') Hk) as H.
      now rewrite map_id in H.
    + apply (drop_duplicates_incl eqb (fun k => k) eqb_eq) in Hk.
      apply (Permutation_in _ (Permutation_map key (Permutation_sym Hp)))
        in Hk.
      pose proof (drop_duplicates_keeps eqb (fun k : K => k) eqb_eq k
                    (map key l) Hk) as H.
      now rewrite map_id in H.
Qed.

(** Nor on what the rows hold beside the key. *)
Lemma group_sizes_map (f : A -> A) (l : list A) :
  (forall a, key (f a) = key a) ->
  map (fun kg => (fst kg, List.length (snd kg)))
      (groupby eqb leb key (map f l))
  = map (fun kg => (fst kg, List.length (snd kg))) (groupby eqb leb key l).
Proof.
  intros Hk. unfold groupby. rewrite !map_map. cbn [fst snd].
  rewrite (map_ext (fun a => key (f a)) key Hk).
  apply map_ext. intros k. f_equal. rewrite filter_map_length.
  f_equal. apply filter_ext. intros a. now rewrite Hk.
Qed.

End Counting.

Lemma pair_leb_antisym (a b : Z * Z) :
  pair_leb a b = true -> pair_leb b a = true -> a = b.
Proof.
  destruct a as [a1 a2], b as [b1 b2]. unfold pair_leb. simpl.
  rewrite !orb_true_iff, !andb_true_iff, !Z.ltb_lt, !Z.eqb_eq, !Z.leb_le.
  intros H1 H2. f_equal; lia.
Qed.

Lemma map_pair_combine {A B C : Type} (f : A -> B) (g : A -> C)
    (l : list A) :
  map (fun a => (f a, g a)) l = combine (map f l) (map g l).
Proof.
  induction l as [|a l IH]; [reflexivity|]. cbn [map combine].
  now rewrite IH.
Qed.

(** ** The melt without [estado] *)

Lemma melt_rows_sem_estado (id_vars id_vars' : list string)
    (value_vars : list (nat * string)) (amostra : list Row) :
  in_columns "estado" id_vars' = false ->
  melt_rows id_vars' value_vars amostra
  = map sem_estado (melt_rows id_vars value_vars amostra).
Proof.
  intros Hno. unfold melt_rows.
  induction value_vars as [|c vs IH]; [reflexivity|].
  cbn [flat_map]. rewrite map_app, IH. f_equal.
  rewrite map_map. apply map_ext. intros r. unfold sem_estado.
  cbn [m_EstacaoCodigo m_Ano m_Mes Dia_str Valor]. now rewrite Hno.
Qed.

Lemma dropna_Valor_sem_estado (l : list Melted) :
  dropna_Valor (map sem_estado l) = map sem_estado (dropna_Valor l).
Proof.
  unfold dropna_Valor. induction l as [|m l IH]; [reflexivity|].
  cbn [map filter]. change (Valor (sem_estado m)) with (Valor m).
  destruct (Valor m); cbn [map]; now rewrite IH.
Qed.

Section Copies.

Variable rng : Type.
Variable RandomState : Z -> rng.
Variable choice : rng -> nat -> nat -> list nat * rng.
Variable representable : Z -> bool.

Lemma com_Dia_sem_estado (l : list Melted) :
  forall (w w' w0 : World rng) r,
    com_Dia rng l w = (Ok r, w') ->
    com_Dia rng (map sem_estado l) w0
    = (Ok (map (fun p => (sem_estado (fst p), snd p)) r), w0).
Proof.
  induction l as [|m l IH]; intros w w' w0 r H.
  - cbn [com_Dia] in H. apply ret_Ok in H. destruct H as [<- _].
    reflexivity.
  - cbn [com_Dia map] in *.
    change (Dia_str (sem_estado m)) with (Dia_str m).
    destruct (int_of_string (str_replace_empty "Chuva" (Dia_str m)))
      as [d|]; [|discriminate].
    apply bind_Ok in H. destruct H as [rest [w1 [Hrest H]]].
    apply ret_Ok in H. destruct H as [<- _].
    rewrite (bind_ok_eq _ _ _ _ _ (IH w w1 w0 rest Hrest)). reflexivity.
Qed.

Lemma datas_sem_estado (r : list (Melted * Z)) :
  dropna_Data_Real
    (com_Data_Real representable
       (map (fun p => (sem_estado (fst p), snd p)) r))
  = map obs_sem_estado (dropna_Data_Real (com_Data_Real representable r)).
Proof.
  unfold dropna_Data_Real, com_Data_Real.
  induction r as [|[m d] r IH]; [reflexivity|].
  cbn [map flat_map fst snd Data_Real melted Dia].
  change (m_Ano (sem_estado m)) with (m_Ano m).
  change (m_Mes (sem_estado m)) with (m_Mes m).
  rewrite IH.
  destruct (to_datetime representable (m_Ano m) (m_Mes m) d); reflexivity.
Qed.

(** The daily rows of the stability test are those of the main function
    without the state. *)
Lemma melt_com_datas_sem_estado (id_vars id_vars' cols : list string)
    (amostra : list Row) (w w' w0 : World rng) (validos : list Obs) :
  melt_com_datas rng representable id_vars cols amostra w = (Ok validos, w') ->
  in_columns "estado" id_vars' = false ->
  forallb (fun c => in_columns c cols) id_vars' = true ->
  melt_com_datas rng representable id_vars' cols amostra w0
  = (Ok (map obs_sem_estado validos), w0).
Proof.
  intros H Hno Hc. unfold melt_com_datas in *.
  apply bind_Ok in H. destruct H as [df_melted [w1 [Hm H]]].
  apply melt_Ok_inv in Hm. destruct Hm as [Hval [_ Hdf]].
  apply bind_Ok in H. destruct H as [com_dia [w3 [Hd H]]].
  apply ret_Ok in H. destruct H as [<- _].
  rewrite (bind_ok_eq _ _ _ _ _
             (melt_ok rng id_vars' cols (colunas_existentes cols) amostra
                w0 Hval Hc)).
  rewrite (melt_rows_sem_estado id_vars id_vars' _ amostra Hno), <- Hdf.
  rewrite dropna_Valor_sem_estado.
  rewrite (bind_ok_eq _ _ _ _ _
             (com_Dia_sem_estado _ w1 w3 w0 com_dia Hd)).
  unfold ret. now rewrite datas_sem_estado.
Qed.

Lemma sorteadas_codes_NoDup (df : DataFrame) (frac : Q) (seed : Z)
    (w w' : World rng) (sel : list Station) :
  choice_spec choice ->
  (forall r1 r2, In r1 (rows df) -> In r2 (rows df) ->
     EstacaoCodigo r1 = EstacaoCodigo r2 -> estado r1 = estado r2) ->
  estacoes_sorteadas rng RandomState choice df frac seed w = (Ok sel, w') ->
  NoDup (map snd sel).
Proof.
  intros Hc Huniq Hs.
  destruct (estacoes_sorteadas_inv rng RandomState choice
              df frac seed w w' sel Hc Hs) as [Hnd _].
  apply (NoDup_map_coarser (fun s : Station => s)); [now rewrite map_id|].
  intros x y Hx Hy Hxy.
  destruct (estacoes_sorteadas_incl rng RandomState choice df frac seed
              w w' sel Hs x Hx) as [r1 [Hr1 [He1 Hc1]]].
  destruct (estacoes_sorteadas_incl rng RandomState choice df frac seed
              w w' sel Hs y Hy) as [r2 [Hr2 [He2 Hc2]]].
  assert (Hest : estado r1 = estado r2)
    by (apply Huniq; [assumption..|congruence]).
  destruct x, y. cbn [fst snd] in *. congruence.
Qed.

(** X19. The stability test repeats the main function. When every station
    code belongs to one state, the station-year rows that the test builds
    for the seed 42 are those of the metrics table, in the same order and
    with the same day counts, and the completeness shown in the table is
    the test's completeness rounded to two places. *)
Theorem test_rows_match_metrics_table (df : DataFrame) (frac : Q)
    (w w' w0 w0' : World rng) tabela m1 m2 (resumo : list ResumoRow) :
  choice_spec choice ->
  (forall r1 r2, In r1 (rows df) -> In r2 (rows df) ->
     EstacaoCodigo r1 = EstacaoCodigo r2 -> estado r1 = estado r2) ->
  processar_dados_complexos rng RandomState choice representable df frac w
    = (Ok (tabela, m1, m2), w') ->
  df_resumo rng RandomState choice representable df frac 42 w0
    = (Ok resumo, w0') ->
  map linha_final tabela = map linha_resumo resumo /\
  map Completude tabela = map (fun r => round2 (r_Completude r)) resumo.
Proof.
  intros Hc Huniq H H'.
  apply processar_inv in H.
  destruct H as [sorteadas [w1 [obs [dm [dd [Hs [Hn [-> _]]]]]]]].
  pose proof (sorteadas_codes_NoDup df frac 42 w w1 sorteadas Hc Huniq Hs)
    as Hcodes.
  destruct (agregar_one_per_group obs sorteadas Hcodes
              (normalizar_sampled rng representable df sorteadas w1 w'
                 obs dm dd Hn)) as [Hkeys Hdias].
  assert (Hcomp : forall m, In m (agregar obs sorteadas) ->
            Completude m
            = round2 (inject_Z (Z.of_nat (snd (linha_final m)))
                      / inject_Z (get_dias_ano (snd (fst (linha_final m))))
                      * 100)%Q).
  { intros m Hm. apply agregar_In in Hm.
    destruct Hm as [k [g [est [_ ->]]]]. reflexivity. }
  apply normalizar_inv in Hn.
  destruct Hn as [amostra [w2 [validos [Hb [Hm [Hobs _]]]]]].
  apply blindagem_mes_inv in Hb.
  unfold df_resumo in H'.
  apply bind_Ok in H'. destruct H' as [sel' [w3 [Hs' H']]].
  assert (sel' = sorteadas).
  { destruct (stable_result _ w0 w
                (stable_estacoes_sorteadas rng RandomState choice df frac 42))
      as [Heq _].
    rewrite Hs, Hs' in Heq. cbn [fst] in Heq. now inversion Heq. }
  subst sel'.
  apply bind_Ok in H'. destruct H' as [amostra' [w4 [Hb' H']]].
  apply blindagem_mes_inv in Hb'. rewrite <- Hb in Hb'. subst amostra'.
  apply bind_Ok in H'. destruct H' as [validos' [w5 [Hm' H']]].
  apply ret_Ok in H'. destruct H' as [<- _].
  pose proof (proj2 (melt_com_datas_Ok rng representable _ _ _ _ _ _ Hm'))
    as Hcols.
  rewrite (melt_com_datas_sem_estado
             ["EstacaoCodigo"; "estado"; "Ano"; "Mes"]%string
             ["EstacaoCodigo"; "Ano"; "Mes"]%string
             (columns df) amostra w2 w' w4 validos Hm eq_refl Hcols) in Hm'.
  inversion Hm'; subst validos'. clear Hm'.
  assert (Hrows :
    map linha_final (agregar obs sorteadas)
    = map (fun kg => (fst kg, List.length (snd kg))) (grupos obs)).
  { unfold linha_final.
    rewrite (map_pair_combine (fun m => (f_EstacaoCodigo m, f_Ano m))
               dias_com_dados).
    rewrite Hkeys, Hdias.
    now rewrite <- (map_pair_combine fst (fun kg => List.length (snd kg))). }
  assert (Hgroups :
    map (fun kg => (fst kg, List.length (snd kg))) (grupos obs)
    = map (fun kg => (fst kg, List.length (snd kg)))
        (grupos (drop_duplicates pair_eqb chave_dia
                   (map obs_sem_estado validos)))).
  { unfold drop_duplicates.
    rewrite (drop_duplicates_from_map pair_eqb chave_dia obs_sem_estado
               validos (fun a => eq_refl)).
    fold (drop_duplicates pair_eqb chave_dia validos).
    unfold grupos.
    rewrite (group_sizes_map pair_eqb pair_leb chave_ano obs_sem_estado
               _ (fun a => eq_refl)).
    rewrite Hobs.
    apply (group_sizes_perm pair_eqb pair_leb chave_ano pair_eqb_eq
             pair_leb_total pair_leb_trans pair_leb_antisym).
    apply sort_by_perm. }
  assert (Hlines :
    map linha_final (agregar obs sorteadas)
    = map linha_resumo
        (map (fun kg =>
                mkResumoRow (fst (fst kg)) (snd (fst kg))
                  (List.length (snd kg))
                  (get_dias_ano_teste (snd (fst kg)))
                  (inject_Z (Z.of_nat (List.length (snd kg)))
                   / inject_Z (get_dias_ano_teste (snd (fst kg))) * 100)%Q)
             (groupby pair_eqb pair_leb chave_ano
                (drop_duplicates pair_eqb chave_dia
                   (map obs_sem_estado validos))))).
  { rewrite Hrows, Hgroups, map_map. apply map_ext.
    intros [[a b] g]. reflexivity. }
  split; [exact Hlines|].
  rewrite (map_ext_in Completude
             (fun m => round2 (inject_Z (Z.of_nat (snd (linha_final m)))
                               / inject_Z (get_dias_ano
                                             (snd (fst (linha_final m))))
                               * 100)%Q) _ Hcomp).
  rewrite <- (map_map linha_final
                (fun t => round2 (inject_Z (Z.of_nat (snd t))
                                  / inject_Z (get_dias_ano (snd (fst t)))
                                  * 100)%Q)).
  rewrite Hlines, !map_map. apply map_ext. intros [[a b] g]. reflexivity.
Qed.

End Copies.

(** * The count of month duplicates *)

Lemma drop_duplicates_from_full {A K : Type} (eqb : K -> K -> bool)
    (key : A -> K) (l : list A) :
  forall seen,
    List.length (drop_duplicates_from eqb key seen l) = List.length l ->
    drop_duplicates_from eqb key seen l = l.
Proof.
  induction l as [|a l IH]; intros seen H; [reflexivity|].
  cbn [drop_duplicates_from] in *.
  destruct (existsb (eqb (key a)) seen).
  - exfalso.
    pose proof (drop_duplicates_from_length eqb key l seen) as Hle.
    cbn [List.length] in H. lia.
  - cbn [List.length] in H. f_equal. apply IH. lia.
Qed.

Lemma drop_duplicates_full {A K : Type} (eqb : K -> K -> bool)
    (key : A -> K) (eqb_eq : forall a b, eqb a b = true <-> a = b)
    (l : list A) :
  List.length (drop_duplicates eqb key l) = List.length l
  <-> NoDup (map key l).
Proof.
  split.
  - intros H. apply drop_duplicates_from_full in H.
    pose proof (drop_duplicates_NoDup eqb key eqb_eq l) as Hnd.
    unfold drop_duplicates in Hnd. now rewrite H in Hnd.
  - intros H. now rewrite (drop_duplicates_id eqb key eqb_eq l H).
Qed.

Section MonthDuplicates.

Variable rng : Type.
Variable representable : Z -> bool.

(** X20. The count of the first message is the number of records of the
    sample beyond the first of each (station, year, month); it is 0
    exactly when the sample repeats no station-month. The records kept
    are the first ones, whatever the later ones hold. *)
Theorem month_duplicates_count (df : DataFrame) (sorteadas : list Station)
    (w w' : World rng) obs dm dd :
  normalizar rng representable df sorteadas w = (Ok (obs, dm, dd), w') ->
  (dm + List.length (drop_duplicates triple_eqb chave_mes
                       (df_amostra df sorteadas))
   = List.length (df_amostra df sorteadas))%nat /\
  (dm = 0%nat <-> NoDup (map chave_mes (df_amostra df sorteadas))) /\
  (forall r, In r (df_amostra df sorteadas) ->
     exists r', In r' (drop_duplicates triple_eqb chave_mes
                         (df_amostra df sorteadas)) /\
                chave_mes r' = chave_mes r).
Proof.
  intros H. apply normalizar_inv in H.
  destruct H as [amostra [w2 [validos [Hb [_ [_ [Hdm _]]]]]]].
  apply blindagem_mes_inv in Hb. subst amostra.
  pose proof (drop_duplicates_from_length triple_eqb chave_mes
                (df_amostra df sorteadas) []) as Hle.
  fold (drop_duplicates triple_eqb chave_mes (df_amostra df sorteadas))
    in Hle.
  split; [lia|]. split.
  - rewrite <- (drop_duplicates_full triple_eqb chave_mes triple_eqb_eq).
    lia.
  - intros r Hr.
    pose proof (drop_duplicates_keeps triple_eqb chave_mes triple_eqb_eq
                  r (df_amostra df sorteadas) Hr) as Hk.
    apply in_map_iff in Hk. destruct Hk as [r' [Hkey Hin]].
    now exists r'.
Qed.

End MonthDuplicates.

(** * The fraction of the slider *)

Section Slider.

Variable rng : Type.
Variable RandomState : Z -> rng.
Variable choice : rng -> nat -> nat -> list nat * rng.
Variable representable : Z -> bool.

Lemma porcentagem_amostra_range (slider : Z) :
  1 <= slider <= 100 -> (0 < porcentagem_amostra slider <= 1)%Q.
Proof.
  intros [Hlo Hhi]. unfold porcentagem_amostra.
  assert (H1 : (1 <= inject_Z slider)%Q)
    by (change 1%Q with (inject_Z 1); now rewrite <- Zle_Qle).
  assert (H2 : (inject_Z slider <= 100)%Q)
    by (change 100%Q with (inject_Z 100); now rewrite <- Zle_Qle).
  assert (Hx : (0 < inject_Z slider / 100 <= 1)%Q).
  { split; [apply Qlt_shift_div_l; lra | apply Qle_shift_div_r; lra]. }
  split.
  - rewrite binary64_of_pos by apply Hx.
    apply binary64_pos_positive, Hx.
  - apply Qle_trans with (binary64 (inject_Z 1)).
    + apply binary64_mono; [apply Qlt_le_weak|]; apply Hx.
    + rewrite (binary64_int 1) by lia. apply Qle_refl.
Qed.

(** X21. Every position of the slider gives a fraction in (0, 1], so on a
    table with the four columns and no column named Valor neither the main
    function nor the stability test can fail: the rejection of the
    fraction is out of reach of the page. The last position gives the
    fraction 1. *)
Theorem slider_fraction_accepted (df : DataFrame) (slider : Z)
    (w : World rng) :
  1 <= slider <= 100 ->
  has_columns colunas_obrigatorias df = true ->
  in_columns "Valor" (columns df) = false ->
  (0 < porcentagem_amostra slider <= 1)%Q /\
  (exists tabela m1 m2 w',
     processar_dados_complexos rng RandomState choice representable df
       (porcentagem_amostra slider) w = (Ok (tabela, m1, m2), w')) /\
  (exists res w',
     executar_teste_estabilidade rng RandomState choice representable df
       (porcentagem_amostra slider) w = (Ok res, w')) /\
  (slider = 100 -> (porcentagem_amostra slider == 1)%Q).
Proof.
  intros Hs Hc Hval. pose proof (porcentagem_amostra_range slider Hs) as Hr.
  assert (Hf : rows df = [] \/ (0 <= porcentagem_amostra slider <= 1)%Q)
    by (right; split; [apply Qlt_le_weak|]; tauto).
  split; [exact Hr|]. split; [|split].
  - unfold processar_dados_complexos.
    destruct (estacoes_sorteadas_runs rng RandomState choice df
                (porcentagem_amostra slider) 42 w) as [sel [w1 Hsel]];
      [|assumption|].
    { apply forallb_forall. intros c Hin.
      apply (forallb_columns df colunas_obrigatorias c Hc).
      cbn [In colunas_obrigatorias] in *. tauto. }
    rewrite (bind_ok_eq _ _ _ _ _ Hsel).
    destruct (normalizar_runs rng representable df sel w1 Hc Hval)
      as [[[obs dm] dd] Hn].
    rewrite (bind_ok_eq _ _ _ _ _ Hn). do 4 eexists. reflexivity.
  - apply laco_runs; assumption.
  - intros ->. vm_compute. reflexivity.
Qed.

End Slider.

(** * The example table, continued *)




Lemma final_rows_have_state_and_days_witness :
  exists tabela m1 m2 w' m,
    processar_dados_complexos Z lcg_seed lcg_choice ns_bounds exemplo_df 1
      mundo0 = (Ok (tabela, m1, m2), w') /\
    In m tabela /\
    (exists e r,
       f_estado m = Some e /\ In r (rows exemplo_df) /\
       estado r = e /\ EstacaoCodigo r = f_EstacaoCodigo m) /\
    (1 <= dias_com_dados m)%nat /\
    (27 # 100 <= Completude m)%Q.
Proof.
  do 5 eexists. split; [vm_compute; reflexivity|].
  split; [left; reflexivity|].
  eapply (final_rows_have_state_and_days Z lcg_seed lcg_choice ns_bounds
            exemplo_df 1 mundo0); [vm_compute; reflexivity | left; reflexivity].
Defined.

Lemma exemplo_one_state_per_station :
  forall r1 r2, In r1 (rows exemplo_df) -> In r2 (rows exemplo_df) ->
    EstacaoCodigo r1 = EstacaoCodigo r2 -> estado r1 = estado r2.
Proof.
  intros r1 r2 H1 H2 He.
  cbv [exemplo_df rows exemplo_linhas In] in H1, H2.
  repeat (destruct H1 as [<- | H1];
          [repeat (destruct H2 as [<- | H2];
                   [first [reflexivity | discriminate He]|]);
           contradiction|]).
  contradiction.
Qed.

Lemma one_row_per_station_year_witness :
  exists tabela m1 m2 w',
    processar_dados_complexos Z lcg_seed lcg_choice ns_bounds exemplo_df 1
      mundo0 = (Ok (tabela, m1, m2), w') /\
    exists sorteadas w1 obs dm dd,
      estacoes_sorteadas Z lcg_seed lcg_choice exemplo_df 1 42 mundo0
        = (Ok sorteadas, w1) /\
      normalizar Z ns_bounds exemplo_df sorteadas w1
        = (Ok (obs, dm, dd), w') /\
      StronglySorted (fun a b => pair_leb a b = true /\ a <> b)
        (map (fun m => (f_EstacaoCodigo m, f_Ano m)) tabela) /\
      (forall k, In k (map (fun m => (f_EstacaoCodigo m, f_Ano m)) tabela)
                 <-> In k (map chave_ano obs)) /\
      (forall m, In m tabela ->
         dias_com_dados m
         = List.length
             (filter (fun o => pair_eqb (chave_ano o)
                                 (f_EstacaoCodigo m, f_Ano m)) obs)) /\
      list_sum (map dias_com_dados tabela) = List.length obs.
Proof.
  do 4 eexists. split.
  - vm_compute. reflexivity.
  - eapply (one_row_per_station_year Z lcg_seed lcg_choice ns_bounds
              exemplo_df 1 mundo0).
    + exact lcg_choice_ok.
    + split; discriminate.
    + exact exemplo_one_state_per_station.
    + vm_compute. reflexivity.
Defined.


Lemma full_fraction_takes_every_station_witness :
  exists sel w',
    (1 == 1)%Q /\
    estacoes_sorteadas Z lcg_seed lcg_choice exemplo_df 1 42 mundo0
      = (Ok sel, w') /\
    Permutation sel (estacoes_unicas exemplo_df) /\
    df_amostra exemplo_df sel = rows exemplo_df.
Proof.
  do 2 eexists. split; [reflexivity|]. split.
  - vm_compute. reflexivity.
  - eapply (full_fraction_takes_every_station Z lcg_seed lcg_choice ns_bounds
              exemplo_df 1 42 mundo0).
    + exact lcg_choice_ok.
    + reflexivity.
    + vm_compute. reflexivity.
Defined.

Lemma small_stratum_left_out_witness :
  exists tabela m1 m2 w',
    ((1 # 2) * inject_Z (Z.of_nat
                 (List.length (da_regiao "RJ" (estacoes_unicas exemplo_df))))
     <= 1 # 2)%Q /\
    processar_dados_complexos Z lcg_seed lcg_choice ns_bounds exemplo_df
      (1 # 2) mundo0 = (Ok (tabela, m1, m2), w') /\
    exists sorteadas w1,
      estacoes_sorteadas Z lcg_seed lcg_choice exemplo_df (1 # 2) 42 mundo0
        = (Ok sorteadas, w1) /\
      da_regiao "RJ" sorteadas = [] /\
      forall m, In m tabela -> f_estado m <> Some "RJ"%string.
Proof.
  do 4 eexists. split; [vm_compute; discriminate|]. split.
  - vm_compute. reflexivity.
  - eapply (small_stratum_left_out Z lcg_seed lcg_choice ns_bounds
              exemplo_df (1 # 2) "RJ" mundo0).
    + exact lcg_choice_ok.
    + vm_compute. discriminate.
    + vm_compute. reflexivity.
Defined.

Lemma state_table_counts_strata_witness :
  exists t,
    df_estado exemplo_df = Ok t /\
    NoDup (map e_estado t) /\
    (forall r, In r (rows exemplo_df) -> In (estado r) (map e_estado t)) /\
    forall row, In row t ->
      (exists r, In r (rows exemplo_df) /\ estado r = e_estado row) /\
      qtd_estacao row
      = List.length (da_regiao (e_estado row) (estacoes_unicas exemplo_df)) /\
      (1 <= qtd_estacao row)%nat.
Proof.
  eexists. split.
  - vm_compute. reflexivity.
  - apply (state_table_counts_strata exemplo_df). vm_compute. reflexivity.
Defined.

Lemma state_table_shares_witness :
  exists t,
    df_estado exemplo_df = Ok t /\
    list_sum (map qtd_estacao t) = List.length (estacoes_unicas exemplo_df) /\
    forall row, In row t ->
      (0 <= pct_estacao row <= 100)%Q /\
      (Qabs (pct_estacao row
             - inject_Z (Z.of_nat (qtd_estacao row))
               / inject_Z (Z.of_nat
                             (List.length (estacoes_unicas exemplo_df)))
               * 100)
       <= 1 # 100)%Q.
Proof.
  eexists. split.
  - vm_compute. reflexivity.
  - apply (state_table_shares exemplo_df). vm_compute. reflexivity.
Defined.


Lemma full_fraction_is_stable_witness :
  exists res w',
    (1 == 1)%Q /\
    executar_teste_estabilidade Z lcg_seed lcg_choice ns_bounds exemplo_df 1
      mundo0 = (Ok res, w') /\
    (forall r1 r2, In r1 res -> In r2 res ->
       Media_Completude r1 = Media_Completude r2) /\
    (forall amp, amplitude res = Some amp -> (amp == 0)%Q) /\
    ((exists r m, In r res /\ Media_Completude r = Some m) ->
     conclusao_do_teste (amplitude res) = MuitoEstavel).
Proof.
  do 2 eexists. split; [reflexivity|]. split.
  - vm_compute. reflexivity.
  - eapply (full_fraction_is_stable Z lcg_seed lcg_choice ns_bounds
              exemplo_df 1 mundo0).
    + exact lcg_choice_ok.
    + reflexivity.
    + vm_compute. reflexivity.
Defined.



Lemma full_completeness_iff_every_day_witness :
  exists tabela m1 m2 w' m,
    processar_dados_complexos Z lcg_seed lcg_choice ns_bounds exemplo_df 1
      mundo0 = (Ok (tabela, m1, m2), w') /\
    In m tabela /\
    ((Completude m == 100)%Q
     <-> Z.of_nat (dias_com_dados m) = get_dias_ano (f_Ano m)).
Proof.
  do 5 eexists. split; [vm_compute; reflexivity|].
  split; [left; reflexivity|].
  eapply (full_completeness_iff_every_day Z lcg_seed lcg_choice ns_bounds
            exemplo_df 1 mundo0); [vm_compute; reflexivity | left; reflexivity].
Defined.

Lemma test_rows_match_metrics_table_witness :
  exists tabela m1 m2 w' resumo w0',
    processar_dados_complexos Z lcg_seed lcg_choice ns_bounds exemplo_df 1
      mundo0 = (Ok (tabela, m1, m2), w') /\
    df_resumo Z lcg_seed lcg_choice ns_bounds exemplo_df 1 42 mundo0
      = (Ok resumo, w0') /\
    map linha_final tabela = map linha_resumo resumo /\
    map Completude tabela = map (fun r => round2 (r_Completude r)) resumo.
Proof.
  do 6 eexists. split; [vm_compute; reflexivity|].
  split; [vm_compute; reflexivity|].
  eapply (test_rows_match_metrics_table Z lcg_seed lcg_choice ns_bounds
            exemplo_df 1 mundo0 _ mundo0).
  - exact lcg_choice_ok.
  - exact exemplo_one_state_per_station.
  - vm_compute. reflexivity.
  - vm_compute. reflexivity.
Defined.

Lemma month_duplicates_count_witness :
  exists obs dm dd w',
    normalizar Z ns_bounds exemplo_df [("SP"%string, 10%Z)] mundo0
      = (Ok (obs, dm, dd), w') /\
    (dm + List.length (drop_duplicates triple_eqb chave_mes
                         (df_amostra exemplo_df [("SP"%string, 10%Z)]))
     = List.length (df_amostra exemplo_df [("SP"%string, 10%Z)]))%nat /\
    (dm = 0%nat
     <-> NoDup (map chave_mes (df_amostra exemplo_df [("SP"%string, 10%Z)]))) /\
    (forall r, In r (df_amostra exemplo_df [("SP"%string, 10%Z)]) ->
       exists r', In r' (drop_duplicates triple_eqb chave_mes
                           (df_amostra exemplo_df [("SP"%string, 10%Z)])) /\
                  chave_mes r' = chave_mes r).
Proof.
  do 4 eexists. split.
  - vm_compute. reflexivity.
  - eapply (month_duplicates_count Z ns_bounds exemplo_df
              [("SP"%string, 10%Z)] mundo0). vm_compute. reflexivity.
Defined.

Lemma slider_fraction_accepted_witness :
  1 <= 10 <= 100 /\
  has_columns colunas_obrigatorias exemplo_df = true /\
  in_columns "Valor" (columns exemplo_df) = false /\
  (0 < porcentagem_amostra 10 <= 1)%Q /\
  (exists tabela m1 m2 w',
     processar_dados_complexos Z lcg_seed lcg_choice ns_bounds exemplo_df
       (porcentagem_amostra 10) mundo0 = (Ok (tabela, m1, m2), w')) /\
  (exists res w',
     executar_teste_estabilidade Z lcg_seed lcg_choice ns_bounds exemplo_df
       (porcentagem_amostra 10) mundo0 = (Ok res, w')) /\
  (10 = 100 -> (porcentagem_amostra 10 == 1)%Q).
Proof.
  split; [lia|]. split; [reflexivity|]. split; [reflexivity|].
  apply (slider_fraction_accepted Z lcg_seed lcg_choice ns_bounds exemplo_df
           10 mundo0); [lia | reflexivity | reflexivity].
Defined.

